(** * TriPlan: the expense splitter of [app.py]

    A shallow embedding of [even_split_expenses], of the breakdown loop of
    [main] ("Compute Splits") and of the parts of [main] that manage the
    participants and the expenses kept in the session, with the properties
    of the split.

    Python's [float] arithmetic is kept behind an interface ([Arith]) with
    two instances: exact rationals ([QArith], the arithmetic in which the
    conservation properties are exact) and IEEE-754 binary64 ([B64Arith],
    what CPython computes with, built on the specification of
    floating-point operations of the standard library).  The rounding step
    [float(Decimal(x).quantize(Decimal("0.01"), rounding=ROUND_HALF_UP))]
    is modelled in both, with the 28-digit precision of the default
    decimal context.  Exceptions are values: a computation returns [Ok] or
    [Raise]s.  What the widgets of a run return is an input of the run. *)

From Stdlib Require Import ZArith QArith Qabs Qround List String Bool Lia Lqa.
From Stdlib Require Import Floats.SpecFloat.
From Stdlib Require Import Permutation DecimalString DecimalNat Decimal.
Import ListNotations.

Local Open Scope Z_scope.

(** ** Exceptions and fallible computations *)

Inductive exn : Type :=
| ZeroDivisionError
| OverflowError
| KeyError
| InvalidOperation.

Inductive result (A : Type) : Type :=
| Ok (a : A)
| Raise (e : exn).

Arguments Ok {A} a.
Arguments Raise {A} e.

Definition bind {A B : Type} (c : result A) (k : A -> result B) : result B :=
  match c with
  | Ok a => k a
  | Raise e => Raise e
  end.

Notation "x <- c ;; k" := (bind c (fun x => k))
  (at level 61, c at next level, right associativity).

(** A [for] loop that builds a list, one fallible step per element. *)
Fixpoint mapM {A B : Type} (f : A -> result B) (l : list A) : result (list B) :=
  match l with
  | [] => Ok []
  | a :: l' => b <- f a ;; bs <- mapM f l' ;; Ok (b :: bs)
  end.

(** A [for] loop that threads a mutable local through fallible steps. *)
Fixpoint foldM {A S : Type} (f : S -> A -> result S) (l : list A) (s : S) : result S :=
  match l with
  | [] => Ok s
  | a :: l' => s' <- f s a ;; foldM f l' s'
  end.

(** ** Python dictionaries with string keys

    Insertion-ordered: assigning to a key that is present replaces the
    value where it stands, a new key goes to the end. *)

Definition dict (V : Type) : Type := list (string * V).

Fixpoint dict_set {V : Type} (k : string) (v : V) (d : dict V) : dict V :=
  match d with
  | [] => [(k, v)]
  | (k', v') :: d' =>
      if String.eqb k k' then (k, v) :: d' else (k', v') :: dict_set k v d'
  end.

Fixpoint dict_get {V : Type} (k : string) (d : dict V) : result V :=
  match d with
  | [] => Raise KeyError
  | (k', v') :: d' => if String.eqb k k' then Ok v' else dict_get k d'
  end.

Definition keys {V : Type} (d : dict V) : list string := map fst d.
Definition values {V : Type} (d : dict V) : list V := map snd d.

(** ** The arithmetic of the program *)

Class Arith : Type := {
  num : Type;
  (** [float(i)] for an [int] *)
  of_int : Z -> num;
  add : num -> num -> num;
  mul : num -> num -> num;
  (** [x / y] for a divisor that is not zero *)
  div : num -> num -> num;
  (** [i / j] for two [int]s, [j] not zero; [None] when the quotient is
      outside the range of [float] *)
  int_div : Z -> Z -> option num;
  (** [float(Decimal(x).quantize(Decimal("0.01"), rounding=ROUND_HALF_UP))] *)
  quantize : num -> result num
}.

(** ** Input data *)

Record participant : Type := {
  name : string;
  nights_stayed : Z
}.

(** [len(l)] *)
Definition len {T : Type} (l : list T) : Z := Z.of_nat (List.length l).

(** ** Output data: one row of the breakdown table built by [main] *)

Record row (N : Type) : Type := {
  Participant : string;
  Nights_Stayed : Z;
  Accommodation_Share : N;
  Additional_Share : N;
  Total_Owed : N
}.

Arguments Participant {N} r.
Arguments Nights_Stayed {N} r.
Arguments Accommodation_Share {N} r.
Arguments Additional_Share {N} r.
Arguments Total_Owed {N} r.

(** ** The splitter *)

Section Splitter.

Context {A : Arith}.

(** [x / n] with [x] a float and [n] an int *)
Definition truediv (x : num) (n : Z) : result num :=
  if n =? 0 then Raise ZeroDivisionError else Ok (div x (of_int n)).

(** [i / j] with both ints *)
Definition int_truediv (i j : Z) : result num :=
  if j =? 0 then Raise ZeroDivisionError
  else match int_div i j with
       | Some q => Ok q
       | None => Raise OverflowError
       end.

(** [sum(p['nights_stayed'] for p in participants_info if p['nights_stayed'] > 0)] *)
Definition total_night_units (participants_info : list participant) : Z :=
  fold_left Z.add
    (map nights_stayed (filter (fun p => 0 <? nights_stayed p) participants_info)) 0.

(** [sum(additional_expenses.values())]: from the int [0], left to right. *)
Definition total_shared_expenses (additional_expenses : dict num) : num :=
  fold_left add (values additional_expenses) (of_int 0).

(** The accommodation share of one participant (lines 19-22 and 219-222). *)
Definition cost_share (total_cost : num) (participants_info : list participant)
    (total_units : Z) (p : participant) : result num :=
  if total_units =? 0 then
    if 0 <? len participants_info
    then truediv total_cost (len participants_info)
    else Ok (of_int 0)
  else
    ratio <- int_truediv (nights_stayed p) total_units ;;
    Ok (mul total_cost ratio).

(** Everyone's part of the shared expenses (lines 26-29 and 224-227). *)
Definition per_person_additional (shared : num) (participants_info : list participant)
    : result num :=
  if 0 <? len participants_info
  then truediv shared (len participants_info)
  else Ok (of_int 0).

(** Body of the loop of lines 18-23. *)
Definition store_cost_share (total_airbnb_cost : num)
    (participants_info : list participant) (total_units : Z)
    (shares : dict num) (p : participant) : result (dict num) :=
  c <- cost_share total_airbnb_cost participants_info total_units p ;;
  Ok (dict_set (name p) c shares).

(** Body of the loop of lines 31-32: [shares[name] += per_person_additional]. *)
Definition add_additional (extra : num) (shares : dict num) (p : participant)
    : result (dict num) :=
  v <- dict_get (name p) shares ;;
  Ok (dict_set (name p) (add v extra) shares).

(** Body of the loop of lines 35-36: each value is replaced by its rounding. *)
Definition round_share (kv : string * num) : result (string * num) :=
  r <- quantize (snd kv) ;; Ok (fst kv, r).

Definition even_split_expenses (total_airbnb_cost : num)
    (participants_info : list participant) (additional_expenses : dict num)
    : result (dict num) :=
  let total_units := total_night_units participants_info in
  shares <- foldM (store_cost_share total_airbnb_cost participants_info total_units)
                  participants_info [] ;;
  extra <- per_person_additional (total_shared_expenses additional_expenses)
                                 participants_info ;;
  shares <- foldM (add_additional extra) participants_info shares ;;
  mapM round_share shares.

Definition breakdown_row (total_cost : num) (participants_info : list participant)
    (total_units : Z) (shared : num) (p : participant) : result (row num) :=
  base_cost_share <- cost_share total_cost participants_info total_units p ;;
  extra <- per_person_additional shared participants_info ;;
  let total_owed := add base_cost_share extra in
  total_owed_rounded <- quantize total_owed ;;
  Ok {| Participant := name p;
        Nights_Stayed := nights_stayed p;
        Accommodation_Share := base_cost_share;
        Additional_Share := extra;
        Total_Owed := total_owed_rounded |}.

(** The loop of lines 211-239. *)
Definition breakdown_rows (total_cost : num) (participants_info : list participant)
    (additional_expenses : dict num) : result (list (row num)) :=
  let total_units := total_night_units participants_info in
  let shared := total_shared_expenses additional_expenses in
  mapM (breakdown_row total_cost participants_info total_units shared) participants_info.

(** What the "Compute Splits" button computes (lines 199-239). *)
Definition compute_splits (total_cost : num) (participants_info : list participant)
    (additional_expenses : dict num) : result (dict num * list (row num)) :=
  split_result <- even_split_expenses total_cost participants_info additional_expenses ;;
  breakdown <- breakdown_rows total_cost participants_info additional_expenses ;;
  Ok (split_result, breakdown).

(** What the row built for participant [p] holds. *)
Definition row_of (total_cost : num) (participants_info : list participant)
    (additional_expenses : dict num) (p : participant) (r : row num) : Prop :=
  Participant r = name p /\
  Nights_Stayed r = nights_stayed p /\
  cost_share total_cost participants_info (total_night_units participants_info) p
    = Ok (Accommodation_Share r) /\
  per_person_additional (total_shared_expenses additional_expenses) participants_info
    = Ok (Additional_Share r) /\
  quantize (add (Accommodation_Share r) (Additional_Share r)) = Ok (Total_Owed r).

(** The entry of [split_result] that corresponds to a row. *)
Definition owed_entry (r : row num) : string * num := (Participant r, Total_Owed r).

End Splitter.

(** ** Rounding to cents

    [Decimal.quantize] with [ROUND_HALF_UP] rounds the magnitude, ties away
    from zero, and signals [InvalidOperation] when the coefficient of the
    result has more digits than the precision of the context (28). *)

(** The coefficient of [Decimal(x).quantize(Decimal("0.01"), ROUND_HALF_UP)]:
    the magnitude of [x] in cents, rounded half up. *)
Definition half_up_cents (x : Q) : Z :=
  Qfloor (Qabs x * 100 + (1 # 2)).

Definition decimal_context_limit : Z := 10 ^ 28.

(** Amounts up to this bound have a two-place decimal of at most 28 digits. *)
Definition amount_bound : Z := 10 ^ 26 - 1.

(** ** Exact arithmetic *)

Definition quantize_Q (x : Q) : result Q :=
  let c := half_up_cents x in
  if decimal_context_limit <=? c then Raise InvalidOperation
  else Ok ((if Qnum x <? 0 then - c else c) # 100).

Definition QArith : Arith := {|
  num := Q;
  of_int := inject_Z;
  add := Qplus;
  mul := Qmult;
  div := Qdiv;
  int_div := fun i j => Some (inject_Z i / inject_Z j)%Q;
  quantize := quantize_Q
|}.

(** Rows that agree up to the representation of the rationals. *)
Definition row_eqv (r1 r2 : row Q) : Prop :=
  Participant r1 = Participant r2 /\
  Nights_Stayed r1 = Nights_Stayed r2 /\
  (Accommodation_Share r1 == Accommodation_Share r2)%Q /\
  (Additional_Share r1 == Additional_Share r2)%Q /\
  Total_Owed r1 = Total_Owed r2.

(** Dictionaries with the same keys, in the same order, whose values agree
    up to the representation of the rationals. *)
Definition dict_eqv (d1 d2 : dict Q) : Prop :=
  Forall2 (fun kv1 kv2 => fst kv1 = fst kv2 /\ (snd kv1 == snd kv2)%Q) d1 d2.

(** Sums of a column, for the statements about totals. *)
Definition Qsum (l : list Q) : Q := fold_right Qplus 0%Q l.
Definition Zsum (l : list Z) : Z := fold_right Z.add 0 l.

(** ** Binary64 arithmetic *)

Module B64.

Definition prec : Z := 53.
Definition emax : Z := 1024.

(** An integer, or a decimal coefficient, as an unrounded binary number. *)
Definition exact (z : Z) : spec_float :=
  match z with
  | Z0 => S754_zero false
  | Zpos p => S754_finite false p 0
  | Zneg p => S754_finite true p 0
  end.

(** [float(i)]: the nearest double, ties to even (the lengths and the
    amounts of the examples are far below the range of [float]). *)
Definition of_Z (z : Z) : spec_float := binary_normalize prec emax z 0 false.

(** [i / j] on ints is correctly rounded; out of range is [OverflowError]. *)
Definition int_div (i j : Z) : option spec_float :=
  match SFdiv prec emax (exact i) (exact j) with
  | S754_infinity _ => None
  | q => Some q
  end.

(** The double nearest to the decimal [n / d], as a literal or
    [float(Decimal(...))] gives it. *)
Definition dec (n : Z) (d : positive) : spec_float :=
  SFdiv prec emax (exact n) (exact (Zpos d)).

(** [Decimal(x)] for a finite [x]: the value of the double, exactly. *)
Definition to_Q (x : spec_float) : Q :=
  match x with
  | S754_finite s m e =>
      let mag := if 0 <=? e then inject_Z (Zpos m * 2 ^ e)
                 else (Zpos m # Pos.pow 2 (Z.to_pos (- e))) in
      if s then Qopp mag else mag
  | _ => 0%Q
  end.

(** [float(d)] for the two-place decimal of sign [s] and coefficient [c]. *)
Definition of_cents (s : bool) (c : Z) : spec_float :=
  match c with
  | Zpos p => SFdiv prec emax (S754_finite s p 0) (exact 100)
  | _ => S754_zero s
  end.

(** [sum(l)] on floats, as CPython 3.11 adds them: left to right from 0. *)
Definition fsum (l : list spec_float) : spec_float :=
  fold_left (SFadd prec emax) l (of_Z 0).

(** [float(Decimal(x).quantize(Decimal("0.01"), rounding=ROUND_HALF_UP))]:
    a NaN stays a NaN, an infinity cannot be quantized, a zero keeps its
    sign, and a finite double is rounded on its exact value. *)
Definition quantize (x : spec_float) : result spec_float :=
  match x with
  | S754_nan => Ok S754_nan
  | S754_infinity _ => Raise InvalidOperation
  | S754_zero s => Ok (S754_zero s)
  | S754_finite s _ _ =>
      let c := half_up_cents (to_Q x) in
      if decimal_context_limit <=? c then Raise InvalidOperation
      else Ok (of_cents s c)
  end.

(** [x] is a zero, or a finite number of magnitude at most [b * 2^t] that is
    written with an exponent of at most [t]. *)
Definition within (b t : Z) (x : spec_float) : Prop :=
  match x with
  | S754_zero _ => True
  | S754_finite _ m e => e <= t /\ Zpos m <= b * 2 ^ (t - e)
  | _ => False
  end.

End B64.

Definition B64Arith : Arith := {|
  num := spec_float;
  of_int := B64.of_Z;
  add := SFadd B64.prec B64.emax;
  mul := SFmul B64.prec B64.emax;
  div := SFdiv B64.prec B64.emax;
  int_div := B64.int_div;
  quantize := B64.quantize
|}.

(** ** Data of the examples *)

Definition person (n : string) (k : Z) : participant :=
  {| name := n; nights_stayed := k |}.

Definition table_row {A : Arith} (n : string) (k : Z) (accommodation additional owed : num)
    : row num :=
  {| Participant := n; Nights_Stayed := k; Accommodation_Share := accommodation;
     Additional_Share := additional; Total_Owed := owed |}.

Definition rowQ : string -> Z -> Q -> Q -> Q -> row Q := table_row (A:=QArith).
Definition row64 : string -> Z -> spec_float -> spec_float -> spec_float -> row spec_float :=
  table_row (A:=B64Arith).

(** The session defaults of [main]: two people, two nights each, groceries. *)
Definition default_participants : list participant :=
  [person "Person1" 2; person "Person2" 2].

Definition default_expenses : dict spec_float :=
  [("Groceries"%string, B64.of_Z 100)].

(** One night against three. *)
Definition uneven_participants : list participant :=
  [person "Person1" 1; person "Person2" 3].

(** Nobody stayed. *)
Definition zero_night_participants : list participant :=
  [person "A" 0; person "B" 0].

(** Three nights out of forty owe exactly 0.075 of a cost of 1. *)
Definition midpoint_participants : list participant :=
  [person "A" 3; person "B" 37].

(** One night against ten and ten. *)
Definition three_participants : list participant :=
  [person "A" 1; person "B" 10; person "C" 10].

(** Six or seven people who did not stay. *)
Definition six_zero_nights : list participant :=
  map (fun n => person n 0) ["A"; "B"; "C"; "D"; "E"; "F"]%string.

Definition seven_one_night : list participant :=
  map (fun n => person n 1) ["A"; "B"; "C"; "D"; "E"; "F"; "G"]%string.

(** Two entries under one name. *)
Definition namesake_participants : list participant :=
  [person "A" 1; person "A" 3].


(** The same three amounts, 69.52, 15.55 and 100.4, in two orders. *)
Definition rent_fuel_food : dict spec_float :=
  [("Rent"%string, B64.dec 6952 100); ("Fuel"%string, B64.dec 1555 100);
   ("Food"%string, B64.dec 1004 10)].

Definition rent_food_fuel : dict spec_float :=
  [("Rent"%string, B64.dec 6952 100); ("Food"%string, B64.dec 1004 10);
   ("Fuel"%string, B64.dec 1555 100)].

(** ** Names that occur more than once

    What [even_split_expenses] keeps of a list in which a name repeats. *)

(** The names in the order of their first occurrence, each once: the order
    in which a dictionary receives them as keys. *)
Definition first_occurrences (names : list string) : list string :=
  fold_left (fun seen k => if existsb (String.eqb k) seen then seen else seen ++ [k])
            names [].

(** The last entry of the list that carries the name [k]. *)
Fixpoint last_named (k : string) (l : list participant) : option participant :=
  match l with
  | [] => None
  | p :: l' =>
      match last_named k l' with
      | Some q => Some q
      | None => if String.eqb (name p) k then Some p else None
      end
  end.

(** How many entries carry the name [k]. *)
Definition occurrences (k : string) (l : list participant) : nat :=
  List.length (filter (fun p => String.eqb (name p) k) l).

(** ** The session state of [main]

    The participants and the expenses live in the session between two runs
    of the script.  What the widgets of a run return (the texts and numbers
    typed in, the buttons pressed) is an input of that run. *)

Inductive session_exn : Type :=
| IndexError
| RuntimeError.

(** A part of [main] runs to its end, or an exception escapes and the run is
    abandoned; the session keeps the state it has at that point. *)
Inductive run (S : Type) : Type :=
| Completed (s : S)
| Aborted (s : S) (e : session_exn).

Arguments Completed {S} s.
Arguments Aborted {S} s e.

(** [f"{n}"] for a natural number. *)
Definition decimal (n : nat) : string := NilEmpty.string_of_uint (Nat.to_uint n).

(** *** Participants (lines 124-161) *)

(** The widgets of the rows, by index: [name_{i}], [nights_{i}] and
    [remove_participant_{i}]. *)
Record participant_widgets : Type := {
  name_input : nat -> string;
  nights_input : nat -> Z;
  remove_participant_pressed : nat -> bool
}.

(** The loop of lines 133-152 from index [i] on: each entry takes the values
    of its widgets, and the indices whose button is pressed are collected. *)
Fixpoint edit_participants (w : participant_widgets) (i : nat) (l : list participant)
    : list participant * list nat :=
  match l with
  | [] => ([], [])
  | _ :: l' =>
      let (edited, remove_participants) := edit_participants w (S i) l' in
      ({| name := name_input w i; nights_stayed := nights_input w i |} :: edited,
       if remove_participant_pressed w i
       then i :: remove_participants else remove_participants)
  end.

(** [sorted(l, reverse=True)] on indices. *)
Fixpoint insert_descending (i : nat) (l : list nat) : list nat :=
  match l with
  | [] => [i]
  | j :: l' => if (j <? i)%nat then i :: l else j :: insert_descending i l'
  end.

Definition sorted_reverse (l : list nat) : list nat :=
  fold_right insert_descending [] l.

(** [del l[idx]]; [None] stands for the [IndexError] of an index out of range. *)
Fixpoint list_del {T : Type} (idx : nat) (l : list T) : option (list T) :=
  match l, idx with
  | [], _ => None
  | _ :: l', O => Some l'
  | x :: l', S i => option_map (cons x) (list_del i l')
  end.

(** The loop of lines 154-155. *)
Fixpoint delete_indices {T : Type} (idxs : list nat) (l : list T) : run (list T) :=
  match idxs with
  | [] => Completed l
  | idx :: rest =>
      match list_del idx l with
      | Some l' => delete_indices rest l'
      | None => Aborted l IndexError
      end
  end.

(** Lines 157-161. *)
Definition add_participant (l : list participant) : list participant :=
  l ++ [{| name := String.append "Person" (decimal (List.length l + 1));
           nights_stayed := 1 |}].

Definition manage_participants (w : participant_widgets) (add_pressed : bool)
    (l : list participant) : run (list participant) :=
  let (edited, remove_participants) := edit_participants w 0 l in
  match delete_indices (sorted_reverse remove_participants) edited with
  | Completed l' => Completed (if add_pressed then add_participant l' else l')
  | Aborted l' e => Aborted l' e
  end.

(** *** Shared expenses (lines 165-193) *)

(** The widgets of the rows, by the key of the expense: [expense_name_{exp}],
    [expense_value_{exp}] and [remove_{exp}]. *)
Record expense_widgets (V : Type) : Type := {
  expense_name_input : string -> string;
  expense_amount_input : string -> V;
  remove_expense_pressed : string -> bool
}.

Arguments expense_name_input {V} _ _.
Arguments expense_amount_input {V} _ _.
Arguments remove_expense_pressed {V} _ _.

(** [k in d] *)
Definition dict_mem {V : Type} (k : string) (d : dict V) : bool :=
  existsb (String.eqb k) (keys d).

(** [del d[k]] for a key that is present. *)
Fixpoint dict_del {V : Type} (k : string) (d : dict V) : dict V :=
  match d with
  | [] => []
  | (k', v') :: d' => if String.eqb k k' then d' else (k', v') :: dict_del k d'
  end.

(** The loop of lines 171-186 over the keys still to visit.  The loop walks
    the dictionary it changes: a value may be assigned under a key that is
    present, but once an assignment has added a key the iterator raises
    [RuntimeError] ("dictionary changed size during iteration") when asked
    for the next item, also after the last one. *)
Fixpoint edit_expenses {V : Type} (w : expense_widgets V) (todo : list string)
    (d : dict V) (to_remove : list string) : run (dict V * list string) :=
  match todo with
  | [] => Completed (d, to_remove)
  | exp :: todo' =>
      let new_exp_name := expense_name_input w exp in
      let new_amt := expense_amount_input w exp in
      let to_remove :=
        if remove_expense_pressed w exp then to_remove ++ [exp] else to_remove in
      if String.eqb new_exp_name exp
      then edit_expenses w todo' (dict_set exp new_amt d) to_remove
      else if dict_mem new_exp_name d
           then edit_expenses w todo' (dict_set new_exp_name new_amt d)
                              (to_remove ++ [exp])
           else Aborted (dict_set new_exp_name new_amt d, to_remove ++ [exp])
                        RuntimeError
  end.

(** The loop of lines 188-190. *)
Fixpoint remove_expenses {V : Type} (to_remove : list string) (d : dict V) : dict V :=
  match to_remove with
  | [] => d
  | rem :: rest => remove_expenses rest (if dict_mem rem d then dict_del rem d else d)
  end.

(** Lines 192-193; [zero] is the float [0.0]. *)
Definition add_expense {V : Type} (zero : V) (d : dict V) : dict V :=
  dict_set (String.append "Expense" (decimal (List.length d + 1))) zero d.

Definition manage_expenses {V : Type} (zero : V) (w : expense_widgets V)
    (add_pressed : bool) (d : dict V) : run (dict V) :=
  match edit_expenses w (keys d) d [] with
  | Completed (d1, to_remove) =>
      let d2 := remove_expenses to_remove d1 in
      Completed (if add_pressed then add_expense zero d2 else d2)
  | Aborted (d1, _) e => Aborted d1 e
  end.

(** The last of the keys [ks] whose name widget holds [k]: the row whose
    amount is written under [k] last. *)
Fixpoint last_writer {V : Type} (w : expense_widgets V) (k : string) (ks : list string)
    : option string :=
  match ks with
  | [] => None
  | j :: ks' =>
      match last_writer w k ks' with
      | Some j' => Some j'
      | None => if String.eqb (expense_name_input w j) k then Some j else None
      end
  end.

(** The widgets of a run in which nothing is typed or pressed: every widget
    returns what the session holds. *)
Definition untouched (l : list participant) : participant_widgets :=
  {| name_input := fun i => name (nth i l {| name := ""; nights_stayed := 0 |});
     nights_input := fun i => nights_stayed (nth i l {| name := ""; nights_stayed := 0 |});
     remove_participant_pressed := fun _ => false |}.

(** The entry the widgets of row [i] hold. *)
Definition entered (w : participant_widgets) (i : nat) : participant :=
  {| name := name_input w i; nights_stayed := nights_input w i |}.

(** The default name of the [n]-th participant. *)
Definition person_name (n : nat) : string := String.append "Person" (decimal n).

(** The widgets of a run in which only the Remove button of the first row is
    pressed. *)
Definition first_removed (l : list participant) : participant_widgets :=
  {| name_input := name_input (untouched l);
     nights_input := nights_input (untouched l);
     remove_participant_pressed := fun i => Nat.eqb i 0 |}.

(** One who did not stay among people who did. *)
Definition mixed_participants : list participant :=
  [person "A" 0; person "B" 2].

(** Widgets of the expense rows: nothing touched, and the only expense
    renamed to "Food". *)
Definition untouched_expenses (d : dict spec_float) : expense_widgets spec_float :=
  {| expense_name_input := fun k => k;
     expense_amount_input := fun k => match dict_get k d with
                                      | Ok v => v
                                      | Raise _ => B64.of_Z 0
                                      end;
     remove_expense_pressed := fun _ => false |}.

Definition renamed_to_food (d : dict spec_float) : expense_widgets spec_float :=
  {| expense_name_input := fun _ => "Food"%string;
     expense_amount_input := expense_amount_input (untouched_expenses d);
     remove_expense_pressed := fun _ => false |}.

(** * Properties *)

(** ** Fallible loops *)

Lemma bind_Ok {X Y : Type} (c : result X) (k : X -> result Y) (y : Y) :
  bind c k = Ok y -> exists x, c = Ok x /\ k x = Ok y.
Proof.
  destruct c as [x|e]; simpl; intros H; [eauto | discriminate].
Qed.

Lemma bind_Raise {X Y : Type} (c : result X) (k : X -> result Y) (e : exn) :
  bind c k = Raise e -> c = Raise e \/ exists x, c = Ok x /\ k x = Raise e.
Proof.
  destruct c as [x|e']; simpl; intros H; [right; eauto | left; congruence].
Qed.

Lemma mapM_Ok_Forall2 {X Y : Type} (f : X -> result Y) (l : list X) (ys : list Y) :
  mapM f l = Ok ys <-> Forall2 (fun x y => f x = Ok y) l ys.
Proof.
  revert ys; induction l as [|x l IH]; intros ys; simpl.
  - split; intros H.
    + injection H as <-. constructor.
    + inversion H. reflexivity.
  - split; intros H.
    + apply bind_Ok in H as (y & Hy & H).
      apply bind_Ok in H as (ys' & Hys & H).
      injection H as <-. constructor; [exact Hy | now apply IH].
    + inversion H as [|x' y l' ys' Hy Hys]; subst.
      rewrite Hy; simpl. apply IH in Hys. rewrite Hys. reflexivity.
Qed.

Lemma mapM_Raise {X Y : Type} (f : X -> result Y) (l : list X) (e : exn) :
  mapM f l = Raise e -> exists x, In x l /\ f x = Raise e.
Proof.
  induction l as [|x l IH]; simpl; [discriminate|].
  intros H. apply bind_Raise in H as [H | (y & _ & H)].
  - exists x; auto.
  - apply bind_Raise in H as [H | (ys & _ & H)]; [|discriminate].
    destruct (IH H) as (x' & Hin & Hx'). exists x'; auto.
Qed.

Lemma mapM_defined {X Y : Type} (f : X -> result Y) (l : list X) :
  (forall x, In x l -> exists y, f x = Ok y) -> exists ys, mapM f l = Ok ys.
Proof.
  induction l as [|x l IH]; simpl; intros H; [eauto|].
  destruct (H x (or_introl eq_refl)) as (y & ->).
  destruct IH as (ys & ->); [intros; apply H; auto|].
  simpl. eauto.
Qed.

Lemma mapM_length {X Y : Type} (f : X -> result Y) (l : list X) (ys : list Y) :
  mapM f l = Ok ys -> List.length ys = List.length l.
Proof.
  intros H. apply mapM_Ok_Forall2 in H.
  induction H; simpl; congruence.
Qed.

Lemma Forall2_map_right {X Y Y' : Type} (R : X -> Y' -> Prop) (g : Y -> Y')
    (l : list X) (l' : list Y) :
  Forall2 (fun x y => R x (g y)) l l' -> Forall2 R l (map g l').
Proof.
  induction 1; simpl; constructor; assumption.
Qed.

Lemma Forall2_Forall_right {X Y : Type} (R : X -> Y -> Prop) (P : Y -> Prop)
    (l : list X) (l' : list Y) :
  (forall x y, R x y -> P y) -> Forall2 R l l' -> Forall P l'.
Proof.
  intros HRP. induction 1; constructor; eauto.
Qed.

(** ** The shares, whatever the arithmetic *)

Section SplitterFacts.

Context {A : Arith}.

Implicit Types (ps : list participant) (p : participant) (es : dict num).

Lemma len_pos {T : Type} (l : list T) : l <> [] -> (0 <? len l) = true.
Proof.
  destruct l; [congruence|]. intros _. unfold len; cbn [List.length].
  apply Z.ltb_lt. lia.
Qed.

Lemma len_nil_or_pos {T : Type} (l : list T) :
  (l = [] /\ (0 <? len l) = false) \/ (0 < len l /\ (0 <? len l) = true).
Proof.
  destruct l; [left; auto|right].
  assert (0 < len (t :: l)) by (unfold len; cbn [List.length]; lia).
  split; [assumption | now apply Z.ltb_lt].
Qed.

Lemma truediv_Ok (x : num) (n : Z) :
  n <> 0 -> truediv x n = Ok (div x (of_int n)).
Proof.
  intros Hn. unfold truediv. apply Z.eqb_neq in Hn. now rewrite Hn.
Qed.

(** The division by the number of participants is guarded. *)
Lemma per_person_additional_defined (shared : num) ps :
  per_person_additional shared ps =
  Ok (if 0 <? len ps then div shared (of_int (len ps)) else of_int 0).
Proof.
  unfold per_person_additional.
  destruct (len_nil_or_pos ps) as [[_ ->] | [Hpos ->]]; [reflexivity|].
  apply truediv_Ok. lia.
Qed.

Lemma cost_share_equal_split (total : num) ps p :
  ps <> [] -> cost_share total ps 0 p = Ok (div total (of_int (len ps))).
Proof.
  intros Hne. unfold cost_share; simpl.
  destruct (len_nil_or_pos ps) as [[? _] | [Hpos ->]]; [contradiction|].
  apply truediv_Ok. lia.
Qed.

Lemma cost_share_pro_rata (total : num) ps (units : Z) p :
  units <> 0 ->
  cost_share total ps units p =
  match int_div (nights_stayed p) units with
  | Some ratio => Ok (mul total ratio)
  | None => Raise OverflowError
  end.
Proof.
  intros Hu. unfold cost_share, int_truediv.
  apply Z.eqb_neq in Hu. rewrite Hu.
  destruct (int_div _ _); reflexivity.
Qed.

(** Neither branch of the share can divide by zero. *)
Lemma cost_share_Raise (total : num) ps (units : Z) p (e : exn) :
  cost_share total ps units p = Raise e -> e = OverflowError.
Proof.
  destruct (Z.eq_dec units 0) as [-> | Hu].
  - unfold cost_share; simpl.
    destruct (len_nil_or_pos ps) as [[_ ->] | [Hpos ->]]; [discriminate|].
    rewrite truediv_Ok by lia. discriminate.
  - rewrite cost_share_pro_rata by assumption.
    destruct (int_div _ _); congruence.
Qed.

Lemma breakdown_row_Ok (total : num) ps es p (r : row num) :
  breakdown_row total ps (total_night_units ps) (total_shared_expenses es) p = Ok r
  <-> row_of total ps es p r.
Proof.
  unfold breakdown_row, row_of. split.
  - intros H.
    apply bind_Ok in H as (c & Hc & H).
    apply bind_Ok in H as (x & Hx & H).
    apply bind_Ok in H as (t & Ht & H).
    injection H as <-. simpl. auto.
  - intros (Hn & Hk & Hc & Hx & Ht). rewrite Hc, Hx; simpl. rewrite Ht; simpl.
    destruct r; simpl in *; subst; reflexivity.
Qed.

Lemma breakdown_rows_Ok (total : num) ps es (rows : list (row num)) :
  breakdown_rows total ps es = Ok rows <-> Forall2 (row_of total ps es) ps rows.
Proof.
  unfold breakdown_rows. rewrite mapM_Ok_Forall2.
  split; intros H; (eapply Forall2_impl; [|exact H]);
    intros p r Hr; now apply breakdown_row_Ok.
Qed.

Lemma breakdown_rows_accommodation (total : num) ps es (rows : list (row num)) :
  breakdown_rows total ps es = Ok rows ->
  mapM (cost_share total ps (total_night_units ps)) ps = Ok (map Accommodation_Share rows).
Proof.
  intros H. apply breakdown_rows_Ok in H. apply mapM_Ok_Forall2.
  apply Forall2_map_right.
  eapply Forall2_impl; [|exact H].
  intros p r (_ & _ & Hc & _). exact Hc.
Qed.

End SplitterFacts.

(** ** Dictionaries *)

Section DictFacts.

Context {V : Type}.

Implicit Types (d : dict V) (k : string) (v : V).

Lemma dict_set_fresh k v d :
  ~ In k (keys d) -> dict_set k v d = d ++ [(k, v)].
Proof.
  induction d as [|[k' v'] d IH]; simpl; intros Hk; [reflexivity|].
  destruct (String.eqb_spec k k') as [-> | Hne].
  - exfalso; apply Hk; now left.
  - rewrite IH; [reflexivity | tauto].
Qed.

Lemma dict_get_at k v (pre post : dict V) :
  ~ In k (keys pre) -> dict_get k (pre ++ (k, v) :: post) = Ok v.
Proof.
  induction pre as [|[k' v'] pre IH]; simpl; intros Hk.
  - now rewrite String.eqb_refl.
  - destruct (String.eqb_spec k k') as [-> | Hne]; [exfalso; tauto | apply IH; tauto].
Qed.

Lemma dict_set_at k v v' (pre post : dict V) :
  ~ In k (keys pre) ->
  dict_set k v' (pre ++ (k, v) :: post) = pre ++ (k, v') :: post.
Proof.
  induction pre as [|[k0 v0] pre IH]; simpl; intros Hk.
  - now rewrite String.eqb_refl.
  - destruct (String.eqb_spec k k0) as [-> | Hne]; [exfalso; tauto|].
    rewrite IH; [reflexivity | tauto].
Qed.

Lemma dict_set_keys_present k v d :
  In k (keys d) -> keys (dict_set k v d) = keys d.
Proof.
  induction d as [|[k' v'] d IH]; simpl; intros Hk; [contradiction|].
  destruct (String.eqb_spec k k') as [-> | Hne]; [reflexivity|].
  simpl. f_equal. apply IH. destruct Hk; [congruence | assumption].
Qed.

Lemma dict_set_keys_incl k v d k' :
  In k' (keys d) \/ k' = k -> In k' (keys (dict_set k v d)).
Proof.
  induction d as [|[k0 v0] d IH]; simpl.
  - intros [[] | ->]; now left.
  - destruct (String.eqb_spec k k0) as [-> | Hne]; simpl.
    + intros [[-> | H] | ->]; auto.
    + intros [[-> | H] | ->]; auto.
Qed.

Lemma dict_get_present k d :
  In k (keys d) -> exists v, dict_get k d = Ok v /\ In v (values d).
Proof.
  induction d as [|[k' v'] d IH]; simpl; intros Hk; [contradiction|].
  destruct (String.eqb_spec k k') as [-> | Hne]; [eauto|].
  destruct IH as (v & Hv & Hin); [destruct Hk; [congruence | assumption]|].
  eauto.
Qed.

Lemma dict_get_Ok_In k d v :
  dict_get k d = Ok v -> In k (keys d) /\ In v (values d).
Proof.
  induction d as [|[k' v'] d IH]; simpl; [discriminate|].
  destruct (String.eqb_spec k k') as [-> | Hne].
  - intros [= ->]. auto.
  - intros H. destruct (IH H). auto.
Qed.

Lemma dict_set_values (P : V -> Prop) k v d :
  Forall P (values d) -> P v -> Forall P (values (dict_set k v d)).
Proof.
  induction d as [|[k' v'] d IH]; simpl; intros Hd Hv.
  - constructor; auto.
  - inversion Hd; subst.
    destruct (String.eqb_spec k k'); simpl; constructor; auto.
Qed.

End DictFacts.

(** ** The three loops of [even_split_expenses] *)

Section EvenSplitFacts.

Context {A : Arith}.

Implicit Types (ps l : list participant) (p : participant) (d : dict num).

(** The first loop can only fail where a share fails. *)
Lemma store_loop_Raise (total : num) ps (units : Z) l d (e : exn) :
  foldM (store_cost_share total ps units) l d = Raise e -> e = OverflowError.
Proof.
  revert d; induction l as [|p l IH]; simpl; intros d H; [discriminate|].
  apply bind_Raise in H as [H | (d' & _ & H)]; [|eauto].
  unfold store_cost_share in H.
  apply bind_Raise in H as [H | (c & _ & H)]; [|discriminate].
  eapply cost_share_Raise; eassumption.
Qed.

(** After it every participant's name is a key. *)
Lemma store_loop_keys (total : num) ps (units : Z) l d d' :
  foldM (store_cost_share total ps units) l d = Ok d' ->
  forall k, In k (keys d) \/ In k (map name l) -> In k (keys d').
Proof.
  revert d; induction l as [|p l IH]; simpl; intros d H k Hk.
  - injection H as <-. tauto.
  - apply bind_Ok in H as (d1 & H1 & H).
    unfold store_cost_share in H1.
    apply bind_Ok in H1 as (c & _ & H1). injection H1 as <-.
    apply (IH _ H). destruct Hk as [Hk | [<- | Hk]]; auto.
    + left. apply dict_set_keys_incl. auto.
    + left. apply dict_set_keys_incl. auto.
Qed.

Lemma store_loop_values (P : num -> Prop) (total : num) ps (units : Z) l d d' :
  (forall p c, In p l -> cost_share total ps units p = Ok c -> P c) ->
  Forall P (values d) ->
  foldM (store_cost_share total ps units) l d = Ok d' ->
  Forall P (values d').
Proof.
  revert d; induction l as [|p l IH]; simpl; intros d HP Hd H.
  - injection H as <-. assumption.
  - apply bind_Ok in H as (d1 & H1 & H).
    unfold store_cost_share in H1.
    apply bind_Ok in H1 as (c & Hc & H1). injection H1 as <-.
    apply (IH (dict_set (name p) c d)); eauto using dict_set_values.
Qed.

(** The second loop finds every key it reads: no [KeyError]. *)
Lemma add_loop_defined (extra : num) l d :
  (forall p, In p l -> In (name p) (keys d)) ->
  exists d', foldM (add_additional extra) l d = Ok d' /\ keys d' = keys d.
Proof.
  revert d; induction l as [|p l IH]; simpl; intros d Hk; [eauto|].
  destruct (dict_get_present (name p) d) as (v & Hv & _); [auto|].
  unfold add_additional at 1. rewrite Hv; simpl.
  assert (Hkeys : keys (dict_set (name p) (add v extra) d) = keys d)
    by (apply dict_set_keys_present; auto).
  destruct (IH (dict_set (name p) (add v extra) d)) as (d' & Hd' & Hk').
  - intros q Hq. rewrite Hkeys. auto.
  - exists d'. split; [assumption | congruence].
Qed.

(** A value is charged [extra] at most once per participant. *)
Lemma add_loop_values (Q : nat -> num -> Prop) (extra : num) l d d' (n : nat) :
  (forall i v, Q i v -> Q (S i) v) ->
  (forall i v, Q i v -> Q (S i) (add v extra)) ->
  Forall (Q n) (values d) ->
  foldM (add_additional extra) l d = Ok d' ->
  Forall (Q (n + List.length l)%nat) (values d').
Proof.
  intros Hmono Hstep. revert d n; induction l as [|p l IH]; simpl; intros d n Hd H.
  - injection H as <-. now rewrite Nat.add_0_r.
  - apply bind_Ok in H as (d1 & H1 & H).
    unfold add_additional in H1.
    apply bind_Ok in H1 as (v & Hv & H1). injection H1 as <-.
    replace (n + S (List.length l))%nat with (S n + List.length l)%nat by lia.
    apply (IH (dict_set (name p) (add v extra) d) (S n)); [|exact H].
    apply dict_get_Ok_In in Hv as [_ Hv].
    apply dict_set_values.
    + eapply Forall_impl; [|exact Hd]. auto.
    + apply Hstep. rewrite Forall_forall in Hd. auto.
Qed.

(** With pairwise distinct names the first loop lists the shares in order. *)
Lemma store_loop_distinct (total : num) ps (units : Z) l d :
  NoDup (keys d ++ map name l) ->
  foldM (store_cost_share total ps units) l d =
  (cs <- mapM (cost_share total ps units) l ;; Ok (d ++ combine (map name l) cs)).
Proof.
  revert d; induction l as [|p l IH]; simpl; intros d Hnd.
  - now rewrite app_nil_r.
  - unfold store_cost_share at 1.
    destruct (cost_share total ps units p) as [c|e]; simpl; [|reflexivity].
    rewrite dict_set_fresh.
    + rewrite IH.
      * destruct (mapM _ l) as [cs|e]; simpl; [|reflexivity].
        now rewrite <- app_assoc.
      * unfold keys in *. rewrite map_app, <- app_assoc. exact Hnd.
    + apply NoDup_remove_2 in Hnd. intros Hin. apply Hnd, in_or_app. auto.
Qed.

(** And the second adds [extra] to each of them once. *)
Lemma add_loop_distinct (extra : num) l (cs : list num) d :
  List.length cs = List.length l ->
  NoDup (keys d ++ map name l) ->
  foldM (add_additional extra) l (d ++ combine (map name l) cs) =
  Ok (d ++ combine (map name l) (map (fun c => add c extra) cs)).
Proof.
  revert cs d; induction l as [|p l IH]; intros [|c cs] d Hlen Hnd;
    simpl in *; try discriminate; [reflexivity|].
  assert (Hfresh : ~ In (name p) (keys d)).
  { apply NoDup_remove_2 in Hnd. intros Hin. apply Hnd, in_or_app. auto. }
  unfold add_additional at 1.
  rewrite dict_get_at by assumption. simpl.
  rewrite dict_set_at by assumption.
  specialize (IH cs (d ++ [(name p, add c extra)])).
  rewrite <- !app_assoc in IH. simpl in IH. apply IH; [congruence|].
  unfold keys in *. rewrite map_app, <- app_assoc. exact Hnd.
Qed.

End EvenSplitFacts.

(** ** [even_split_expenses] against the breakdown loop *)

Section Agreement.

Context {A : Arith}.

Implicit Types (ps l : list participant) (es : dict num).

Lemma even_split_distinct (total : num) ps es :
  NoDup (map name ps) ->
  even_split_expenses total ps es =
  (cs <- mapM (cost_share total ps (total_night_units ps)) ps ;;
   extra <- per_person_additional (total_shared_expenses es) ps ;;
   mapM round_share (combine (map name ps) (map (fun c => add c extra) cs))).
Proof.
  intros Hnd. unfold even_split_expenses.
  rewrite store_loop_distinct by exact Hnd.
  destruct (mapM _ ps) as [cs|e] eqn:Hcs; simpl; [|reflexivity].
  rewrite per_person_additional_defined; simpl.
  apply mapM_length in Hcs.
  now rewrite (add_loop_distinct _ ps cs []).
Qed.

Lemma rows_rounded (total extra : num) ps es l (rows : list (row num)) :
  per_person_additional (total_shared_expenses es) ps = Ok extra ->
  Forall2 (row_of total ps es) l rows ->
  mapM round_share
    (combine (map name l) (map (fun c => add c extra) (map Accommodation_Share rows)))
  = Ok (map owed_entry rows).
Proof.
  intros Hx H. induction H as [|p r l rows (Hn & _ & _ & Hr & Hq) _ IH]; simpl; [reflexivity|].
  rewrite Hx in Hr. injection Hr as Hr. rewrite <- Hr in Hq.
  unfold round_share at 1; simpl. rewrite Hq; simpl.
  rewrite IH; simpl. unfold owed_entry at 2. congruence.
Qed.

Lemma rounded_rows (total extra : num) ps es l (cs : list num) (d : dict num) :
  per_person_additional (total_shared_expenses es) ps = Ok extra ->
  Forall2 (fun p c => cost_share total ps (total_night_units ps) p = Ok c) l cs ->
  mapM round_share (combine (map name l) (map (fun c => add c extra) cs)) = Ok d ->
  exists rows, Forall2 (row_of total ps es) l rows /\ d = map owed_entry rows.
Proof.
  intros Hx H. revert d.
  induction H as [|p c l cs Hc _ IH]; simpl; intros d Hd.
  - injection Hd as <-. exists []. split; constructor.
  - apply bind_Ok in Hd as ([k t] & Hkt & Hd).
    apply bind_Ok in Hd as (d' & Hd' & Hd). injection Hd as <-.
    unfold round_share in Hkt; simpl in Hkt.
    apply bind_Ok in Hkt as (t' & Ht & Hkt). injection Hkt as <- <-.
    destruct (IH _ Hd') as (rows & Hrows & ->).
    exists ({| Participant := name p; Nights_Stayed := nights_stayed p;
               Accommodation_Share := c; Additional_Share := extra;
               Total_Owed := t' |} :: rows).
    split; [|reflexivity].
    constructor; [|assumption]. unfold row_of; simpl. auto.
Qed.

Lemma even_split_of_rows (total : num) ps es (rows : list (row num)) :
  NoDup (map name ps) ->
  breakdown_rows total ps es = Ok rows ->
  even_split_expenses total ps es = Ok (map owed_entry rows).
Proof.
  intros Hnd Hrows. rewrite even_split_distinct by exact Hnd.
  rewrite (breakdown_rows_accommodation _ _ _ _ Hrows); simpl.
  rewrite per_person_additional_defined; simpl.
  apply breakdown_rows_Ok in Hrows.
  eapply rows_rounded; [apply per_person_additional_defined | exact Hrows].
Qed.

Lemma rows_of_even_split (total : num) ps es (d : dict num) :
  NoDup (map name ps) ->
  even_split_expenses total ps es = Ok d ->
  exists rows, breakdown_rows total ps es = Ok rows /\ d = map owed_entry rows.
Proof.
  intros Hnd Hd. rewrite even_split_distinct in Hd by exact Hnd.
  apply bind_Ok in Hd as (cs & Hcs & Hd).
  apply bind_Ok in Hd as (extra & Hx & Hd).
  apply mapM_Ok_Forall2 in Hcs.
  destruct (rounded_rows total extra ps es ps cs d Hx Hcs Hd) as (rows & Hrows & ->).
  exists rows. split; [now apply breakdown_rows_Ok | reflexivity].
Qed.

End Agreement.

(** ** Night units *)

Lemma fold_left_Zadd (l : list Z) (a : Z) : fold_left Z.add l a = a + Zsum l.
Proof.
  revert a; induction l as [|x l IH]; simpl; intros a; [lia|].
  rewrite IH. lia.
Qed.

Lemma total_night_units_cons (p : participant) (ps : list participant) :
  total_night_units (p :: ps) =
  (if 0 <? nights_stayed p then nights_stayed p else 0) + total_night_units ps.
Proof.
  unfold total_night_units. simpl.
  destruct (0 <? nights_stayed p); simpl; rewrite !fold_left_Zadd; simpl; lia.
Qed.

Lemma total_night_units_nonneg (ps : list participant) : 0 <= total_night_units ps.
Proof.
  induction ps as [|p ps IH]; [unfold total_night_units; simpl; lia|].
  rewrite total_night_units_cons.
  destruct (Z.ltb_spec 0 (nights_stayed p)); lia.
Qed.

(** Without negative entries the units are the sum of all the nights. *)
Lemma total_night_units_all (ps : list participant) :
  Forall (fun p => 0 <= nights_stayed p) ps ->
  total_night_units ps = Zsum (map nights_stayed ps).
Proof.
  induction 1 as [|p ps Hp _ IH]; [reflexivity|].
  rewrite total_night_units_cons, IH. simpl.
  destruct (Z.ltb_spec 0 (nights_stayed p)); lia.
Qed.

Lemma nights_le_total (ps : list participant) (p : participant) :
  In p ps -> nights_stayed p <= total_night_units ps.
Proof.
  induction ps as [|q ps IH]; simpl; [contradiction|].
  rewrite total_night_units_cons.
  pose proof (total_night_units_nonneg ps).
  intros [-> | Hin].
  - destruct (Z.ltb_spec 0 (nights_stayed p)); lia.
  - specialize (IH Hin). destruct (Z.ltb_spec 0 (nights_stayed q)); lia.
Qed.

Lemma total_night_units_zero (ps : list participant) :
  Forall (fun p => nights_stayed p = 0) ps -> total_night_units ps = 0.
Proof.
  induction 1 as [|p ps Hp _ IH]; [reflexivity|].
  rewrite total_night_units_cons, IH, Hp. reflexivity.
Qed.

(** ** Exact arithmetic *)

Section Exact.

Local Existing Instance QArith.
Local Open Scope Q_scope.

Implicit Types (ps l : list participant) (p : participant) (es : dict Q).

Lemma Qsum_pro_rata (total u : Q) l :
  Qsum (map (fun p => total * (inject_Z (nights_stayed p) / u)) l) ==
  total * (inject_Z (Zsum (map nights_stayed l)) / u).
Proof.
  induction l as [|p l IH]; simpl.
  - unfold Qdiv. ring.
  - rewrite IH, inject_Z_plus. unfold Qdiv. ring.
Qed.

Lemma Qsum_constant {X : Type} (c : Q) (l : list X) :
  Qsum (map (fun _ => c) l) == inject_Z (len l) * c.
Proof.
  induction l as [|x l IH]; simpl.
  - unfold len; simpl. ring.
  - rewrite IH. unfold len; cbn [List.length].
    rewrite Nat2Z.inj_succ, <- Z.add_1_r, inject_Z_plus. ring.
Qed.

Lemma inject_len_pos {X : Type} (l : list X) : l <> [] -> 0 < inject_Z (len l).
Proof.
  intros H. change 0 with (inject_Z 0). rewrite <- Zlt_Qlt.
  destruct l; [congruence|]. unfold len; cbn [List.length]. lia.
Qed.

(** In exact arithmetic the pro-rata shares are defined whenever the units
    are not zero. *)
Lemma cost_shares_pro_rata (total : Q) ps l :
  total_night_units ps <> 0%Z ->
  mapM (cost_share total ps (total_night_units ps)) l =
  Ok (map (fun p => total * (inject_Z (nights_stayed p)
                             / inject_Z (total_night_units ps))) l).
Proof.
  intros Hu. induction l as [|p l IH]; cbn [mapM map]; [reflexivity|].
  rewrite IH, cost_share_pro_rata by exact Hu. reflexivity.
Qed.

Lemma cost_shares_equal_split (total : Q) ps l :
  ps <> [] ->
  mapM (cost_share total ps 0) l = Ok (map (fun _ => total / inject_Z (len ps)) l).
Proof.
  intros Hne. induction l as [|p l IH]; cbn [mapM map]; [reflexivity|].
  rewrite IH, cost_share_equal_split by exact Hne. reflexivity.
Qed.

Lemma total_shared_expenses_Qsum es :
  total_shared_expenses es == Qsum (values es).
Proof.
  unfold total_shared_expenses. simpl.
  assert (H : forall (l : list Q) (a : Q), fold_left Qplus l a == a + Qsum l).
  { induction l as [|x l IH]; simpl; intros a; [ring|]. rewrite IH. ring. }
  rewrite H. unfold inject_Z. ring.
Qed.

End Exact.

(** ** Rounding *)

Section Rounding.

Local Open Scope Q_scope.

(** [half_up_cents x] is the integer nearest to [100 |x|], the upper one at
    a tie. *)
Lemma half_up_cents_nearest (x : Q) :
  Qabs x * 100 - (1 # 2) < inject_Z (half_up_cents x) <= Qabs x * 100 + (1 # 2).
Proof.
  unfold half_up_cents.
  pose proof (Qfloor_le (Qabs x * 100 + (1 # 2))) as Hle.
  pose proof (Qlt_floor (Qabs x * 100 + (1 # 2))) as Hlt.
  rewrite inject_Z_plus in Hlt. change (inject_Z 1) with 1 in Hlt.
  split; lra.
Qed.

Lemma quantize_Q_Ok (x r : Q) :
  quantize_Q x = Ok r ->
  r = ((if (Qnum x <? 0)%Z then - half_up_cents x else half_up_cents x)%Z # 100)
  /\ (half_up_cents x < decimal_context_limit)%Z.
Proof.
  unfold quantize_Q.
  destruct (Z.leb_spec decimal_context_limit (half_up_cents x)); [discriminate|].
  intros [= <-]. auto.
Qed.

Lemma quantize_Q_Raise (x : Q) (e : exn) :
  quantize_Q x = Raise e ->
  e = InvalidOperation /\ (decimal_context_limit <= half_up_cents x)%Z.
Proof.
  unfold quantize_Q.
  destruct (Z.leb_spec decimal_context_limit (half_up_cents x)); [|discriminate].
  intros [= <-]. auto.
Qed.

Lemma quantize_Q_defined (x : Q) :
  Qabs x <= inject_Z amount_bound -> exists r, quantize_Q x = Ok r.
Proof.
  intros Hx. unfold quantize_Q.
  destruct (Z.leb_spec decimal_context_limit (half_up_cents x)) as [Hc|]; [|eauto].
  exfalso. rewrite Zle_Qle in Hc.
  pose proof (half_up_cents_nearest x) as [_ Hup].
  assert (Hb : inject_Z amount_bound * 100 + (1 # 2) < inject_Z decimal_context_limit)
    by reflexivity.
  revert Hx Hc Hup Hb.
  generalize (inject_Z amount_bound) (inject_Z decimal_context_limit)
             (inject_Z (half_up_cents x)) (Qabs x).
  intros; lra.
Qed.

(** Rounding does not see how a rational is written. *)
Lemma quantize_Q_compat (x y : Q) : x == y -> quantize_Q x = quantize_Q y.
Proof.
  intros Hxy. unfold quantize_Q, half_up_cents.
  assert (Hc : Qfloor (Qabs x * 100 + (1 # 2)) = Qfloor (Qabs y * 100 + (1 # 2)))
    by (now rewrite Hxy).
  assert (Hs : (Qnum x <? 0)%Z = (Qnum y <? 0)%Z).
  { unfold Qeq in Hxy.
    destruct (Z.ltb_spec (Qnum x) 0), (Z.ltb_spec (Qnum y) 0); try reflexivity; nia. }
  now rewrite Hc, Hs.
Qed.

Lemma B64_quantize_Raise (x : spec_float) (e : exn) :
  B64.quantize x = Raise e -> e = InvalidOperation.
Proof.
  unfold B64.quantize. destruct x; try discriminate.
  - now intros [= <-].
  - destruct (_ <=? _)%Z; [now intros [= <-] | discriminate].
Qed.

End Rounding.

(** ** No exception below the decimal limit (exact arithmetic) *)

Section ExactBounds.

Local Existing Instance QArith.
Local Open Scope Q_scope.

Implicit Types (ps l : list participant) (p : participant) (es : dict Q).

Lemma cost_share_defined (total : Q) ps (units : Z) p :
  exists c, cost_share total ps units p = Ok c.
Proof.
  destruct (Z.eq_dec units 0) as [-> | Hu].
  - destruct ps as [|q ps]; [now exists 0|].
    rewrite cost_share_equal_split by discriminate. eauto.
  - rewrite cost_share_pro_rata by exact Hu. simpl. eauto.
Qed.

Lemma cost_share_bounds (total : Q) ps p (c : Q) :
  0 <= total ->
  Forall (fun p => (0 <= nights_stayed p)%Z) ps ->
  In p ps ->
  cost_share total ps (total_night_units ps) p = Ok c ->
  0 <= c <= total.
Proof.
  intros Ht Hn Hin.
  assert (Hne : ps <> []) by (intros ->; contradiction).
  destruct (Z.eq_dec (total_night_units ps) 0) as [Hu | Hu].
  - rewrite Hu, cost_share_equal_split by exact Hne. intros [= <-].
    pose proof (inject_len_pos ps Hne) as Hpos.
    assert (H1 : 1 <= inject_Z (len ps)).
    { change 1 with (inject_Z 1). rewrite <- Zle_Qle.
      change 0 with (inject_Z 0) in Hpos. rewrite <- Zlt_Qlt in Hpos. lia. }
    simpl. split.
    + apply Qle_shift_div_l; [assumption | lra].
    + apply Qle_shift_div_r; [assumption | nra].
  - rewrite cost_share_pro_rata by exact Hu. simpl. intros [= <-].
    pose proof (total_night_units_nonneg ps) as Hnn.
    pose proof (nights_le_total ps p Hin) as Hle.
    rewrite Forall_forall in Hn. specialize (Hn p Hin). simpl in Hn.
    assert (Hpos : 0 < inject_Z (total_night_units ps)).
    { change 0 with (inject_Z 0). rewrite <- Zlt_Qlt. lia. }
    assert (H0 : 0 <= inject_Z (nights_stayed p) / inject_Z (total_night_units ps)).
    { apply Qle_shift_div_l; [assumption|]. rewrite Qmult_0_l.
      change 0 with (inject_Z 0). now rewrite <- Zle_Qle. }
    assert (H1 : inject_Z (nights_stayed p) / inject_Z (total_night_units ps) <= 1).
    { apply Qle_shift_div_r; [assumption|]. rewrite Qmult_1_l.
      now rewrite <- Zle_Qle. }
    split; nra.
Qed.

Lemma per_person_additional_bound (shared : Q) ps :
  ps <> [] ->
  inject_Z (len ps) * Qabs (shared / inject_Z (len ps)) == Qabs shared.
Proof.
  intros Hne. pose proof (inject_len_pos ps Hne) as Hpos.
  unfold Qdiv. rewrite Qabs_Qmult.
  rewrite (Qabs_pos (/ inject_Z (len ps))) by (apply Qlt_le_weak, Qinv_lt_0_compat, Hpos).
  field. lra.
Qed.

Lemma breakdown_rows_defined (total : Q) ps es :
  0 <= total ->
  Forall (fun p => (0 <= nights_stayed p)%Z) ps ->
  total + Qabs (total_shared_expenses es) <= inject_Z amount_bound ->
  exists rows, breakdown_rows total ps es = Ok rows.
Proof.
  intros Ht Hn Hb. unfold breakdown_rows. apply mapM_defined. intros p Hin.
  assert (Hne : ps <> []) by (intros ->; contradiction).
  unfold breakdown_row.
  destruct (cost_share_defined total ps (total_night_units ps) p) as (c & Hc).
  rewrite Hc, per_person_additional_defined, (len_pos ps Hne). cbn [bind].
  destruct (cost_share_bounds total ps p c Ht Hn Hin Hc) as [Hc0 Hc1].
  pose proof (per_person_additional_bound (total_shared_expenses es) ps Hne) as Hx.
  pose proof (inject_len_pos ps Hne) as Hpos.
  assert (H1 : 1 <= inject_Z (len ps)).
  { change 1 with (inject_Z 1). rewrite <- Zle_Qle.
    change 0 with (inject_Z 0) in Hpos. rewrite <- Zlt_Qlt in Hpos. lia. }
  set (shared := @total_shared_expenses QArith es) in *.
  set (extra := @div QArith shared (@of_int QArith (len ps))).
  change (inject_Z (len ps) * Qabs extra == Qabs shared) in Hx.
  destruct (quantize_Q_defined (c + extra)) as (r & Hr).
  - pose proof (Qabs_triangle c extra) as Htri.
    rewrite (Qabs_pos c Hc0) in Htri.
    pose proof (Qabs_nonneg extra).
    nra.
  - change (quantize (add c extra)) with (quantize_Q (c + extra)).
    rewrite Hr. simpl. eauto.
Qed.

End ExactBounds.

(** ** Which exceptions can escape *)

Section Escapes.

Context {A : Arith}.

Implicit Types (ps l : list participant) (es : dict num).

Lemma store_loop_defined (total : num) ps (units : Z) l (d : dict num) :
  (forall p, In p l -> exists c, cost_share total ps units p = Ok c) ->
  exists d', foldM (store_cost_share total ps units) l d = Ok d'.
Proof.
  revert d; induction l as [|p l IH]; simpl; intros d H; [eauto|].
  destruct (H p (or_introl eq_refl)) as (c & Hc).
  unfold store_cost_share at 1. rewrite Hc; simpl.
  apply IH. intros q Hq. apply H. now right.
Qed.

(** The second loop always runs through after the first. *)
Lemma even_split_after_store (total : num) ps es (d1 : dict num) :
  foldM (store_cost_share total ps (total_night_units ps)) ps [] = Ok d1 ->
  exists extra d2,
    per_person_additional (total_shared_expenses es) ps = Ok extra /\
    foldM (add_additional extra) ps d1 = Ok d2 /\
    even_split_expenses total ps es = mapM round_share d2.
Proof.
  intros H1.
  pose proof (per_person_additional_defined (total_shared_expenses es) ps) as Hx.
  destruct (add_loop_defined
              (if 0 <? len ps
               then div (total_shared_expenses es) (of_int (len ps))
               else of_int 0) ps d1) as (d2 & H2 & _).
  { intros p Hp. eapply store_loop_keys; [exact H1|]. right. now apply in_map. }
  eexists _, d2. split; [exact Hx|]. split; [exact H2|].
  unfold even_split_expenses. rewrite H1; simpl. rewrite Hx; simpl.
  now rewrite H2.
Qed.

Lemma even_split_Raise (total : num) ps es (e : exn) :
  even_split_expenses total ps es = Raise e ->
  e = OverflowError \/ exists x, quantize x = Raise e.
Proof.
  intros H.
  destruct (foldM (store_cost_share total ps (total_night_units ps)) ps [])
    as [d1|e1] eqn:H1.
  - destruct (even_split_after_store total ps es d1 H1) as (extra & d2 & _ & _ & Heq).
    rewrite Heq in H. apply mapM_Raise in H as ([k v] & _ & H).
    unfold round_share in H. simpl in H.
    apply bind_Raise in H as [H | (r & _ & H)]; [eauto | discriminate].
  - left. unfold even_split_expenses in H. rewrite H1 in H. simpl in H.
    injection H as <-. eapply store_loop_Raise; exact H1.
Qed.

Lemma breakdown_rows_Raise (total : num) ps es (e : exn) :
  breakdown_rows total ps es = Raise e ->
  e = OverflowError \/ exists x, quantize x = Raise e.
Proof.
  intros H. apply mapM_Raise in H as (p & _ & H).
  unfold breakdown_row in H.
  apply bind_Raise in H as [H | (c & _ & H)].
  { left. eapply cost_share_Raise; exact H. }
  rewrite per_person_additional_defined in H. simpl in H.
  apply bind_Raise in H as [H | (r & _ & H)]; [eauto | discriminate].
Qed.

End Escapes.

Section ExactSplitDefined.

Local Existing Instance QArith.
Local Open Scope Q_scope.

Implicit Types (ps l : list participant) (es : dict Q).

Lemma even_split_defined (total : Q) ps es :
  0 <= total ->
  Forall (fun p => (0 <= nights_stayed p)%Z) ps ->
  total + Qabs (total_shared_expenses es) <= inject_Z amount_bound ->
  exists d, even_split_expenses total ps es = Ok d.
Proof.
  intros Ht Hn Hb.
  destruct ps as [|p0 ps0] eqn:Eps; [now exists []|]. rewrite <- Eps in *.
  assert (Hne : ps <> []) by (rewrite Eps; discriminate). clear Eps p0 ps0.
  destruct (store_loop_defined (A:=QArith) total ps (total_night_units ps) ps [])
    as (d1 & H1); [intros; apply cost_share_defined|].
  destruct (even_split_after_store (A:=QArith) total ps es d1 H1) as (extra & d2 & Hx & H2 & ->).
  rewrite per_person_additional_defined, (len_pos ps Hne) in Hx.
  injection Hx as Hx.
  assert (Hxb : inject_Z (len ps) * Qabs extra
                == Qabs (@total_shared_expenses QArith es)).
  { rewrite <- Hx.
    exact (per_person_additional_bound (@total_shared_expenses QArith es) ps Hne). }
  set (bounded := fun (i : nat) (v : Q) =>
                    Qabs v <= total + inject_Z (Z.of_nat i) * Qabs extra).
  assert (Hd1 : Forall (bounded 0%nat) (values d1)).
  { apply (store_loop_values (A:=QArith) (bounded 0%nat) total ps (total_night_units ps) ps [] d1);
      [|constructor|exact H1].
    intros p c Hp Hc. unfold bounded.
    destruct (cost_share_bounds total ps p c Ht Hn Hp Hc) as [Hc0 Hc1].
    rewrite (Qabs_pos c Hc0). change (inject_Z (Z.of_nat 0)) with 0. lra. }
  assert (Hd2 : Forall (bounded (0 + List.length ps)%nat) (values d2)).
  { apply (add_loop_values (A:=QArith) bounded extra ps d1 d2 0%nat); [| |exact Hd1|exact H2].
    - intros i v Hv. unfold bounded in *.
      rewrite Nat2Z.inj_succ, <- Z.add_1_r, inject_Z_plus.
      pose proof (Qabs_nonneg extra). change (inject_Z 1) with 1. lra.
    - intros i v Hv. unfold bounded in *.
      rewrite Nat2Z.inj_succ, <- Z.add_1_r, inject_Z_plus.
      pose proof (Qabs_triangle v extra). change (add v extra) with (v + extra).
      change (inject_Z 1) with 1. lra. }
  apply mapM_defined. intros [k v] Hkv.
  assert (Hv : bounded (0 + List.length ps)%nat v).
  { rewrite Forall_forall in Hd2. apply Hd2.
    unfold values. change v with (snd (k, v)). now apply in_map. }
  unfold bounded in Hv. simpl in Hv. fold (len ps) in Hv.
  unfold round_share. simpl.
  destruct (quantize_Q_defined v) as (r & ->); [lra|].
  simpl. eauto.
Qed.

End ExactSplitDefined.

(** ** The expenses count through their sum (exact arithmetic) *)

Section ExactExpenseSum.

Local Existing Instance QArith.
Local Open Scope Q_scope.

Implicit Types (ps l : list participant) (d : dict Q).

Lemma dict_eqv_get (k : string) d d' :
  dict_eqv d d' ->
  match dict_get k d, dict_get k d' with
  | Ok v, Ok v' => v == v'
  | Raise e, Raise e' => e = e'
  | _, _ => False
  end.
Proof.
  induction 1 as [|[k1 v1] [k2 v2] d d' [Hk Hv] _ IH]; simpl in *; [reflexivity|].
  subst k2. destruct (String.eqb k k1); [exact Hv | exact IH].
Qed.

Lemma dict_eqv_set (k : string) (v v' : Q) d d' :
  dict_eqv d d' -> v == v' -> dict_eqv (dict_set k v d) (dict_set k v' d').
Proof.
  intros H Hv.
  induction H as [|[k1 v1] [k2 v2] d d' [Hk Hv12] Hd IH]; simpl in *.
  - constructor; [now split | constructor].
  - subst k2. destruct (String.eqb k k1).
    + constructor; [now split | exact Hd].
    + constructor; [now split | exact IH].
Qed.

Lemma add_loop_eqv (x x' : Q) l d d' d2 :
  x == x' -> dict_eqv d d' ->
  foldM (add_additional x) l d = Ok d2 ->
  exists d2', foldM (add_additional x') l d' = Ok d2' /\ dict_eqv d2 d2'.
Proof.
  intros Hx. revert d d'.
  induction l as [|p l IH]; simpl; intros d d' Hd H.
  - injection H as <-. eauto.
  - apply bind_Ok in H as (d1 & H1 & H).
    unfold add_additional in H1. apply bind_Ok in H1 as (v & Hv & H1).
    injection H1 as <-.
    pose proof (dict_eqv_get (name p) d d' Hd) as Hget.
    assert (Hv0 : @dict_get Q (name p) d = Ok v) by exact Hv.
    rewrite Hv0 in Hget.
    destruct (@dict_get Q (name p) d') as [v'|e] eqn:Hv'; [|contradiction].
    assert (Hstep : add_additional x' d' p = Ok (dict_set (name p) (v' + x') d')).
    { unfold add_additional. cbn [num QArith]. rewrite Hv'. reflexivity. }
    rewrite Hstep. cbn [bind].
    apply (IH _ _ (dict_eqv_set (name p) (v + x) (v' + x') d d' Hd
                     ltac:(now rewrite Hget, Hx)) H).
Qed.

Lemma round_loop_eqv d d' :
  dict_eqv d d' -> mapM round_share d = mapM round_share d'.
Proof.
  induction 1 as [|[k1 v1] [k2 v2] d d' [Hk Hv] _ IH]; simpl in *; [reflexivity|].
  subst k2. unfold round_share at 1 3. simpl.
  rewrite (quantize_Q_compat v1 v2 Hv), IH. reflexivity.
Qed.

Lemma dict_eqv_refl d : dict_eqv d d.
Proof.
  induction d as [|[k v] d IH]; constructor; [split; reflexivity | exact IH].
Qed.

(** Sums that are equal as rationals give the same dictionary. *)
Lemma even_split_same_sum (total : Q) ps (es1 es2 : dict Q) :
  total_shared_expenses es1 == total_shared_expenses es2 ->
  even_split_expenses total ps es1 = even_split_expenses total ps es2.
Proof.
  intros Hsum.
  destruct (foldM (store_cost_share (A:=QArith) total ps (total_night_units ps)) ps [])
    as [d1|e1] eqn:H1.
  - destruct (even_split_after_store (A:=QArith) total ps es1 d1 H1)
      as (x1 & d2 & Hx1 & Hd2 & ->).
    destruct (even_split_after_store (A:=QArith) total ps es2 d1 H1)
      as (x2 & d2' & Hx2 & Hd2' & ->).
    rewrite per_person_additional_defined in Hx1, Hx2.
    injection Hx1 as Hx1. injection Hx2 as Hx2.
    assert (Hx : x1 == x2).
    { rewrite <- Hx1, <- Hx2. destruct (0 <? len ps)%Z; [|reflexivity].
      change (total_shared_expenses es1 / inject_Z (len ps)
              == total_shared_expenses es2 / inject_Z (len ps)).
      now rewrite Hsum. }
    destruct (add_loop_eqv x1 x2 ps d1 d1 d2 Hx (dict_eqv_refl d1) Hd2)
      as (d2'' & Hd2'' & Heqv).
    assert (d2'' = d2') by congruence. subst d2''.
    now apply round_loop_eqv.
  - unfold even_split_expenses. now rewrite H1.
Qed.

End ExactExpenseSum.

(** ** Magnitudes in binary64

    A rounded result is no larger than a bound that is itself a binary64
    number: the operations of the splitter keep amounts below a bound on
    the inputs. *)

Section Binary64Magnitudes.

Lemma fexp_eq (e : Z) : fexp B64.prec B64.emax e = Z.max (e - 53) (-1074).
Proof. reflexivity. Qed.

Lemma digits2_size (p : positive) : digits2_pos p = Pos.size p.
Proof. induction p; simpl; congruence. Qed.

(** The number of binary digits of a positive integer. *)
Lemma Zdigits2_bounds (p : positive) :
  2 ^ (Zdigits2 (Zpos p) - 1) <= Zpos p < 2 ^ Zdigits2 (Zpos p).
Proof.
  unfold Zdigits2. rewrite digits2_size.
  set (d := Zpos (Pos.size p)).
  assert (Hle : 2 ^ d <= 2 * Zpos p).
  { pose proof (Pos.size_le p) as H. unfold d.
    change 2 with (Zpos 2) at 1. rewrite <- Pos2Z.inj_pow. exact H. }
  assert (Hgt : Zpos p < 2 ^ d).
  { pose proof (Pos.size_gt p) as H. unfold d.
    change 2 with (Zpos 2). rewrite <- Pos2Z.inj_pow. exact H. }
  split; [|exact Hgt].
  replace d with (d - 1 + 1) in Hle by lia.
  rewrite Z.pow_add_r, Z.pow_1_r in Hle by (unfold d; lia). lia.
Qed.

Lemma Zdigits2_le (m k : Z) : 0 < m -> m < 2 ^ k -> Zdigits2 m <= k.
Proof.
  intros Hm Hk. destruct m as [|p|p]; try lia.
  pose proof (Zdigits2_bounds p) as [Hlo _].
  destruct (Z.le_gt_cases (Zdigits2 (Zpos p)) k) as [|Hgt]; [assumption|].
  exfalso.
  assert (0 <= k) by (destruct k; try lia; simpl in Hk; lia).
  assert (2 ^ k <= 2 ^ (Zdigits2 (Zpos p) - 1)) by (apply Z.pow_le_mono_r; lia).
  lia.
Qed.

Lemma Zdigits2_unique (m d : Z) : 2 ^ (d - 1) <= m < 2 ^ d -> 0 < m -> Zdigits2 m = d.
Proof.
  intros [Hlo Hhi] Hm. destruct m as [|p|p]; try lia.
  pose proof (Zdigits2_bounds p) as [Hlo' Hhi'].
  assert (0 <= d) by (destruct d; try lia; simpl in Hhi; lia).
  assert (0 < Zdigits2 (Zpos p)) by (simpl; lia).
  destruct (Z.lt_trichotomy (Zdigits2 (Zpos p)) d) as [Hlt | [Heq | Hgt]]; [|assumption|].
  - assert (2 ^ Zdigits2 (Zpos p) <= 2 ^ (d - 1)) by (apply Z.pow_le_mono_r; lia). lia.
  - assert (2 ^ d <= 2 ^ (Zdigits2 (Zpos p) - 1)) by (apply Z.pow_le_mono_r; lia). lia.
Qed.

(** One step of the right shift that keeps the round and sticky bits. *)
Lemma shr_1_spec (mrs : shr_record) :
  0 <= shr_m mrs ->
  shr_1 mrs = {| shr_m := shr_m mrs / 2; shr_r := Z.odd (shr_m mrs);
                 shr_s := shr_r mrs || shr_s mrs |}.
Proof.
  destruct mrs as [m r s]. cbn [shr_m shr_r shr_s]. intros Hm.
  rewrite <- Z.div2_div.
  destruct m as [|[p|p|]|p]; try lia; reflexivity.
Qed.

Lemma iter_pos_invariant {X : Type} (f : X -> X) (P : Z -> X -> Prop) :
  (forall k x, 0 <= k -> P k x -> P (k + 1) (f x)) ->
  forall (p : positive) (k : Z) (x : X), 0 <= k -> P k x -> P (k + Zpos p) (iter_pos f p x).
Proof.
  intros Hstep. induction p as [p IH|p IH|]; intros k x Hk Hx; simpl.
  - replace (k + Zpos p~1) with (k + 1 + Zpos p + Zpos p) by lia.
    apply IH; [lia|]. apply IH; [lia|]. now apply Hstep.
  - replace (k + Zpos p~0) with (k + Zpos p + Zpos p) by lia.
    apply IH; [lia|]. now apply IH.
  - now apply Hstep.
Qed.

(** A right shift by [n] bits divides the mantissa by [2^n]; an exact
    mantissa that is a multiple of [2^n] stays exact. *)
Lemma shr_spec (m : Z) (l : location) (e n : Z) :
  0 <= m ->
  let n' := Z.max n 0 in
  let mrs := fst (shr (shr_record_of_loc m l) e n) in
  snd (shr (shr_record_of_loc m l) e n) = e + n' /\
  shr_m mrs = m / 2 ^ n' /\
  (l = loc_Exact -> m mod 2 ^ n' = 0 -> loc_of_shr_record mrs = loc_Exact).
Proof.
  intros Hm. destruct n as [|p|p]; simpl Z.max; cbn [shr fst snd].
  - rewrite Z.add_0_r, Z.div_1_r. repeat split.
    + now destruct l as [|[]].
    + now intros ->.
  - pose (P := fun (k : Z) (mrs : shr_record) =>
                 shr_m mrs = m / 2 ^ k /\
                 (l = loc_Exact -> m mod 2 ^ k = 0 ->
                  shr_r mrs = false /\ shr_s mrs = false)).
    assert (HP : P (0 + Zpos p) (iter_pos shr_1 p (shr_record_of_loc m l))).
    { apply iter_pos_invariant; [|lia|].
      - intros k x Hk [Hxm Hx].
        assert (Hpow : 0 < 2 ^ k) by (apply Z.pow_pos_nonneg; lia).
        assert (H0 : 0 <= shr_m x) by (rewrite Hxm; apply Z.div_pos; lia).
        rewrite (shr_1_spec x H0). unfold P; cbn [shr_m shr_r shr_s]. split.
        + rewrite Hxm, Z.pow_add_r, Z.pow_1_r by lia.
          rewrite Z.div_div by lia. reflexivity.
        + intros Hl Hmod.
          rewrite Z.pow_add_r, Z.pow_1_r in Hmod by lia.
          assert (Hdiv : m = 2 ^ k * (2 * (m / (2 ^ k * 2)))).
          { pose proof (Z.div_mod m (2 ^ k * 2)). lia. }
          assert (Hmk : m mod 2 ^ k = 0).
          { rewrite Hdiv. rewrite Z.mul_comm. apply Z.mod_mul. lia. }
          destruct (Hx Hl Hmk) as [-> ->]. split; [|reflexivity].
          rewrite Hxm. rewrite Hdiv at 1.
          rewrite Z.mul_comm, Z.div_mul by lia.
          rewrite Z.odd_mul. reflexivity.
      - unfold P. rewrite Z.div_1_r. split; [now destruct l as [|[]]|].
        now intros ->. }
    simpl in HP. destruct HP as [HPm HPx]. repeat split; [exact HPm|].
    intros Hl Hmod. destruct (HPx Hl Hmod) as [Hr Hs].
    destruct (iter_pos shr_1 p _) as [m' r' s']. simpl in *. now subst.
  - rewrite Z.add_0_r, Z.div_1_r. repeat split.
    + now destruct l as [|[]].
    + now intros ->.
Qed.

Lemma round_nearest_even_bounds (m : Z) (l : location) :
  m <= round_nearest_even m l <= m + 1.
Proof.
  destruct l as [|[]]; simpl; try lia. destruct (Z.even m); lia.
Qed.

(** The shift that brings a mantissa to the exponent of its format. *)
Lemma shr_fexp_spec (m e : Z) (l : location) :
  0 <= m ->
  let e' := Z.max e (fexp B64.prec B64.emax (Zdigits2 m + e)) in
  let mrs := fst (shr_fexp B64.prec B64.emax m e l) in
  snd (shr_fexp B64.prec B64.emax m e l) = e' /\
  shr_m mrs = m / 2 ^ (e' - e) /\
  (l = loc_Exact -> m mod 2 ^ (e' - e) = 0 -> loc_of_shr_record mrs = loc_Exact).
Proof.
  intros Hm. unfold shr_fexp.
  pose proof (shr_spec m l e (fexp B64.prec B64.emax (Zdigits2 m + e) - e) Hm) as H.
  cbv zeta in *.
  replace (Z.max (fexp B64.prec B64.emax (Zdigits2 m + e) - e) 0)
    with (Z.max e (fexp B64.prec B64.emax (Zdigits2 m + e)) - e) in H by lia.
  replace (e + (Z.max e (fexp B64.prec B64.emax (Zdigits2 m + e)) - e))
    with (Z.max e (fexp B64.prec B64.emax (Zdigits2 m + e))) in H by lia.
  exact H.
Qed.

Lemma pow2_split (b t e e' : Z) :
  e <= e' <= t -> b * 2 ^ (t - e) = b * 2 ^ (t - e') * 2 ^ (e' - e).
Proof.
  intros H. rewrite <- Z.mul_assoc, <- Z.pow_add_r by lia. do 2 f_equal. lia.
Qed.

(** A mantissa below [b * 2^(t - e)], with [b] below [2^53], is brought to
    an exponent of at most [t]. *)
Lemma fexp_digits_le (m e b t : Z) :
  0 <= m -> 0 < b < 2 ^ 53 -> -1074 <= t -> e <= t -> m <= b * 2 ^ (t - e) ->
  Z.max e (fexp B64.prec B64.emax (Zdigits2 m + e)) <= t.
Proof.
  intros Hm Hb Ht He Hle. rewrite fexp_eq.
  destruct (Z.eq_dec m 0) as [-> | Hm0]; [simpl Zdigits2; lia|].
  assert (Hpow : 0 < 2 ^ (t - e)) by (apply Z.pow_pos_nonneg; lia).
  assert (Hlt : m < 2 ^ (53 + (t - e))).
  { rewrite Z.pow_add_r by lia. nia. }
  pose proof (Zdigits2_le m (53 + (t - e)) ltac:(lia) Hlt). lia.
Qed.

(** Rounding to nearest never crosses a binary64 number: a value of at most
    [b * 2^t], known exactly or from below, is rounded to a number of at
    most [b * 2^t], and not to an infinity. *)
Lemma binary_round_aux_within (sx : bool) (mx ex : Z) (lx : location) (b t : Z) :
  0 <= mx -> 0 < b < 2 ^ 53 -> -1074 <= t <= 971 -> ex <= t ->
  (lx = loc_Exact /\ mx <= b * 2 ^ (t - ex)) \/ mx < b * 2 ^ (t - ex) ->
  B64.within b t (binary_round_aux B64.prec B64.emax sx mx ex lx).
Proof.
  intros Hmx Hb Ht Hex Hbound.
  assert (Hle : mx <= b * 2 ^ (t - ex)) by (destruct Hbound as [[_ H]|H]; lia).
  unfold binary_round_aux.
  pose proof (shr_fexp_spec mx ex lx Hmx) as H1. cbv zeta in H1.
  destruct (shr_fexp B64.prec B64.emax mx ex lx) as [mrs1 e1]. cbn [fst snd] in H1.
  destruct H1 as (He1 & Hm1 & Hx1).
  set (m2 := round_nearest_even (shr_m mrs1) (loc_of_shr_record mrs1)).
  assert (He1t : e1 <= t) by (rewrite He1; now apply (fexp_digits_le mx ex b t)).
  assert (He1e : ex <= e1) by lia.
  rewrite <- He1 in Hm1, Hx1. clear He1.
  assert (Hm2 : 0 <= m2 <= b * 2 ^ (t - e1)).
  { pose proof (round_nearest_even_bounds (shr_m mrs1) (loc_of_shr_record mrs1)) as Hr.
    fold m2 in Hr.
    rewrite (pow2_split b t ex e1) in Hle, Hbound by lia.
    set (B := b * 2 ^ (t - e1)) in *.
    assert (Hpow : 0 < 2 ^ (e1 - ex)) by (apply Z.pow_pos_nonneg; lia).
    assert (H0 : 0 <= shr_m mrs1) by (rewrite Hm1; apply Z.div_pos; lia).
    assert (Hup : shr_m mrs1 <= B).
    { rewrite Hm1. apply Z.div_le_upper_bound; lia. }
    assert (Hdown : 2 ^ (e1 - ex) * shr_m mrs1 <= mx).
    { rewrite Hm1. apply Z.mul_div_le. lia. }
    destruct (Z.eq_dec (shr_m mrs1) B) as [Heq | Hne]; [|lia].
    destruct Hbound as [[Hl _] | Hlt]; [|nia].
    assert (Hmx' : mx = B * 2 ^ (e1 - ex)) by nia.
    assert (Hmod : mx mod 2 ^ (e1 - ex) = 0) by (rewrite Hmx'; apply Z.mod_mul; lia).
    unfold m2. rewrite (Hx1 Hl Hmod). simpl. lia. }
  pose proof (shr_fexp_spec m2 e1 loc_Exact (proj1 Hm2)) as H2. cbv zeta in H2.
  destruct (shr_fexp B64.prec B64.emax m2 e1 loc_Exact) as [mrs2 e2]. cbn [fst snd] in H2.
  destruct H2 as (He2 & Hm3 & _).
  assert (He2t : e2 <= t)
    by (rewrite He2; apply (fexp_digits_le m2 e1 b t); lia).
  assert (He2e : e1 <= e2) by lia.
  rewrite <- He2 in Hm3. clear He2.
  assert (Hm3b : 0 <= shr_m mrs2 <= b * 2 ^ (t - e2)).
  { assert (Hpow : 0 < 2 ^ (e2 - e1)) by (apply Z.pow_pos_nonneg; lia).
    rewrite Hm3. split; [apply Z.div_pos; lia|].
    apply Z.div_le_upper_bound; [lia|].
    rewrite (pow2_split b t e1 e2) in Hm2 by lia. lia. }
  destruct (shr_m mrs2) as [|m|m]; cbn [B64.within].
  - exact I.
  - change (B64.emax - B64.prec) with 971.
    destruct (Z.leb_spec e2 971); [cbn [B64.within]; lia | lia].
  - lia.
Qed.

Lemma shl_align_spec (m : positive) (e e' : Z) :
  snd (shl_align m e e') = Z.min e e' /\
  Zpos (fst (shl_align m e e')) = Zpos m * 2 ^ (e - Z.min e e').
Proof.
  unfold shl_align. destruct (e' - e) as [|d|d] eqn:E; cbn [fst snd].
  - replace (Z.min e e') with e by lia. rewrite Z.sub_diag. simpl. lia.
  - replace (Z.min e e') with e by lia. rewrite Z.sub_diag. simpl. lia.
  - replace (Z.min e e') with e' by lia. split; [reflexivity|].
    replace (e - e') with (Zpos d) by lia.
    change (Pos.iter xO m d) with (shift_pos d m).
    rewrite shift_pos_correct. change (Z.pow_pos 2 d) with (2 ^ Zpos d). lia.
Qed.

Lemma within_le (b b' t : Z) (x : spec_float) :
  b <= b' -> B64.within b t x -> B64.within b' t x.
Proof.
  intros Hb. destruct x as [| | |s m e]; cbn [B64.within]; try tauto.
  intros [He Hm]. split; [exact He|].
  assert (0 < 2 ^ (t - e)) by (apply Z.pow_pos_nonneg; lia). nia.
Qed.

Lemma binary_round_within (sx : bool) (m : positive) (e b t : Z) :
  0 < b < 2 ^ 53 -> -1074 <= t <= 971 -> e <= t -> Zpos m <= b * 2 ^ (t - e) ->
  B64.within b t (binary_round B64.prec B64.emax sx m e).
Proof.
  intros Hb Ht He Hm. unfold binary_round.
  pose proof (shl_align_spec m e (fexp B64.prec B64.emax (Zpos (digits2_pos m) + e))) as [H1 H2].
  destruct (shl_align m e _) as [mz ez]. cbn [fst snd] in H1, H2.
  assert (Hez : ez <= e) by lia.
  apply binary_round_aux_within; try lia.
  left. split; [reflexivity|].
  rewrite H2, <- H1. rewrite (pow2_split b t ez e) by lia.
  assert (0 < 2 ^ (e - ez)) by (apply Z.pow_pos_nonneg; lia). nia.
Qed.

Lemma binary_normalize_within (z e b t : Z) :
  0 < b < 2 ^ 53 -> -1074 <= t <= 971 -> e <= t -> Z.abs z <= b * 2 ^ (t - e) ->
  B64.within b t (binary_normalize B64.prec B64.emax z e false).
Proof.
  intros Hb Ht He Hz. destruct z as [|m|m]; cbn [binary_normalize].
  - exact I.
  - apply binary_round_within; assumption.
  - apply binary_round_within; assumption.
Qed.

(** The rounded sum of two numbers is within the sum of their bounds. *)
Lemma SFadd_within (b1 b2 t : Z) (x y : spec_float) :
  0 < b1 -> 0 < b2 -> b1 + b2 < 2 ^ 53 -> -1074 <= t <= 971 ->
  B64.within b1 t x -> B64.within b2 t y ->
  B64.within (b1 + b2) t (SFadd B64.prec B64.emax x y).
Proof.
  intros Hb1 Hb2 Hb Ht Hx Hy.
  destruct x as [sx| | |sx mx ex], y as [sy| | |sy my ey];
    cbn [B64.within] in Hx, Hy; try contradiction.
  - destruct sx, sy; exact I.
  - apply (within_le b2); [lia | exact Hy].
  - apply (within_le b1); [lia | exact Hx].
  - destruct Hx as [Hex Hmx], Hy as [Hey Hmy]. cbn [SFadd].
    set (ez := Z.min ex ey).
    pose proof (shl_align_spec mx ex ez) as [_ Hx2].
    pose proof (shl_align_spec my ey ez) as [_ Hy2].
    replace (Z.min ex ez) with ez in Hx2 by lia.
    replace (Z.min ey ez) with ez in Hy2 by lia.
    set (mx' := Zpos (fst (shl_align mx ex ez))) in *.
    set (my' := Zpos (fst (shl_align my ey ez))) in *.
    apply binary_normalize_within; try lia.
    assert (Hpx : 0 < 2 ^ (ex - ez)) by (apply Z.pow_pos_nonneg; lia).
    assert (Hpy : 0 < 2 ^ (ey - ez)) by (apply Z.pow_pos_nonneg; lia).
    assert (Hx3 : mx' <= b1 * 2 ^ (t - ez)).
    { rewrite (pow2_split b1 t ez ex) by lia. nia. }
    assert (Hy3 : my' <= b2 * 2 ^ (t - ez)).
    { rewrite (pow2_split b2 t ez ey) by lia. nia. }
    assert (0 < mx') by (unfold mx'; lia).
    assert (0 < my') by (unfold my'; lia).
    destruct sx, sy; cbn [cond_Zopp]; lia.
Qed.

(** The rounded product with a factor of at most 1 stays within the bound. *)
Lemma SFmul_within (b t : Z) (x y : spec_float) :
  0 < b < 2 ^ 53 -> -1074 <= t <= 971 ->
  B64.within b t x -> B64.within 1 0 y ->
  B64.within b t (SFmul B64.prec B64.emax x y).
Proof.
  intros Hb Ht Hx Hy.
  destruct x as [sx| | |sx mx ex], y as [sy| | |sy my ey];
    cbn [B64.within] in Hx, Hy; try contradiction; try exact I.
  destruct Hx as [Hex Hmx], Hy as [Hey Hmy]. cbn [SFmul].
  apply binary_round_aux_within; try lia.
  left. split; [reflexivity|].
  rewrite Pos2Z.inj_mul.
  replace (t - (ex + ey)) with ((t - ex) + (0 - ey)) by lia.
  rewrite Z.pow_add_r by lia.
  assert (0 < 2 ^ (t - ex)) by (apply Z.pow_pos_nonneg; lia).
  assert (0 < 2 ^ (0 - ey)) by (apply Z.pow_pos_nonneg; lia).
  nia.
Qed.

(** The quotient and the remainder that the division rounds. *)
Lemma SFdiv_core_spec (mx my : positive) (ex ey : Z) :
  let e' := Z.min (fexp B64.prec B64.emax (Zdigits2 (Zpos mx) + ex - (Zdigits2 (Zpos my) + ey)))
                  (ex - ey) in
  let m' := Zpos mx * 2 ^ (ex - ey - e') in
  SFdiv_core_binary B64.prec B64.emax (Zpos mx) ex (Zpos my) ey
  = (m' / Zpos my, e', new_location (Zpos my) (m' mod Zpos my)).
Proof.
  intros e' m'. unfold SFdiv_core_binary. fold e'.
  assert (Hs : 0 <= ex - ey - e') by (unfold e'; lia).
  assert (Hm : match ex - ey - e' with
               | 0 => Zpos mx
               | Zpos _ => Z.shiftl (Zpos mx) (ex - ey - e')
               | Zneg _ => 0
               end = m').
  { unfold m'. destruct (ex - ey - e') as [|p|p] eqn:E.
    - simpl. lia.
    - rewrite Z.shiftl_mul_pow2 by lia. reflexivity.
    - lia. }
  rewrite Hm. unfold Z.div, Z.modulo.
  destruct (Z.div_eucl m' (Zpos my)) as [q r]. reflexivity.
Qed.

Lemma new_location_zero (n : Z) : new_location n 0 = loc_Exact.
Proof.
  unfold new_location, new_location_even, new_location_odd.
  destruct (Z.even n); reflexivity.
Qed.

(** [x / y] when [x * 2^a <= b * y * 2^c], where [a - c] makes up for the
    exponents: a quotient of magnitude at most [b * 2^T]. *)
Lemma SFdiv_within (b T a c : Z) (sx sy : bool) (mx my : positive) (ex ey : Z) :
  0 < b < 2 ^ 53 -> -1074 <= T <= 971 ->
  0 <= a -> 0 <= c -> a - c = ex - ey - T ->
  Zpos mx * 2 ^ a <= b * Zpos my * 2 ^ c ->
  B64.within b T (SFdiv B64.prec B64.emax (S754_finite sx mx ex) (S754_finite sy my ey)).
Proof.
  intros Hb HT Ha Hc Hac Hle. cbn [SFdiv].
  pose proof (SFdiv_core_spec mx my ex ey) as Hcore. cbv zeta in Hcore.
  rewrite Hcore. clear Hcore.
  set (d1 := Zdigits2 (Zpos mx)). set (d2 := Zdigits2 (Zpos my)).
  set (e' := Z.min (fexp B64.prec B64.emax (d1 + ex - (d2 + ey))) (ex - ey)).
  set (s := ex - ey - e').
  assert (Hs : 0 <= s) by (unfold s, e'; lia).
  pose proof (Zdigits2_bounds mx) as [Hd1 _]. fold d1 in Hd1.
  pose proof (Zdigits2_bounds my) as [_ Hd2]. fold d2 in Hd2.
  assert (Hd1pos : 0 < d1) by (unfold d1; simpl; lia).
  assert (Hd2pos : 0 < d2) by (unfold d2; simpl; lia).
  assert (Hpa : 0 < 2 ^ a) by (apply Z.pow_pos_nonneg; lia).
  assert (Hpc : 0 < 2 ^ c) by (apply Z.pow_pos_nonneg; lia).
  assert (Hps : 0 < 2 ^ s) by (apply Z.pow_pos_nonneg; lia).
  assert (Hdig : d1 - 1 + a < 53 + d2 + c).
  { apply (Z.pow_lt_mono_r_iff 2); [lia | lia|].
    rewrite !Z.pow_add_r by lia.
    assert (2 ^ (d1 - 1) * 2 ^ a <= Zpos mx * 2 ^ a) by nia.
    assert (b * Zpos my * 2 ^ c < 2 ^ 53 * 2 ^ d2 * 2 ^ c).
    { apply Z.mul_lt_mono_pos_r; [lia|]. nia. }
    lia. }
  assert (He'T : e' <= T).
  { unfold e'. rewrite fexp_eq. lia. }
  assert (HpK : 0 < 2 ^ (T - e')) by (apply Z.pow_pos_nonneg; lia).
  assert (Hexp : 2 ^ c * 2 ^ s = 2 ^ (T - e') * 2 ^ a).
  { rewrite <- !Z.pow_add_r by lia. f_equal. unfold s. lia. }
  assert (Hnum : Zpos mx * 2 ^ s <= Zpos my * (b * 2 ^ (T - e'))).
  { apply (Z.mul_le_mono_pos_r _ _ (2 ^ a)); [lia|].
    replace (Zpos my * (b * 2 ^ (T - e')) * 2 ^ a)
      with (b * Zpos my * (2 ^ (T - e') * 2 ^ a)) by ring.
    rewrite <- Hexp.
    replace (Zpos mx * 2 ^ s * 2 ^ a) with (Zpos mx * 2 ^ a * 2 ^ s) by ring.
    replace (b * Zpos my * (2 ^ c * 2 ^ s)) with (b * Zpos my * 2 ^ c * 2 ^ s) by ring.
    apply Z.mul_le_mono_pos_r; lia. }
  set (m' := Zpos mx * 2 ^ s) in *.
  pose proof (Z.div_mod m' (Zpos my) ltac:(lia)) as Hdm.
  pose proof (Z.mod_pos_bound m' (Zpos my) ltac:(lia)) as Hr.
  assert (Hq0 : 0 <= m' / Zpos my) by (apply Z.div_pos; unfold m'; lia).
  apply binary_round_aux_within; try lia.
  destruct (Z.eq_dec (m' mod Zpos my) 0) as [Hr0 | Hr0].
  - left. rewrite Hr0. split; [apply new_location_zero|].
    apply Z.div_le_upper_bound; lia.
  - right. nia.
Qed.

Lemma shr_fexp_canonical (m : positive) (e : Z) :
  fexp B64.prec B64.emax (Zdigits2 (Zpos m) + e) <= e ->
  shr_fexp B64.prec B64.emax (Zpos m) e loc_Exact
  = ({| shr_m := Zpos m; shr_r := false; shr_s := false |}, e).
Proof.
  intros H. unfold shr_fexp, shr. cbn [shr_record_of_loc].
  destruct (fexp B64.prec B64.emax (Zdigits2 (Zpos m) + e) - e) eqn:E; try reflexivity. lia.
Qed.

(** A number that needs no rounding is kept as it is. *)
Lemma binary_round_aux_canonical (sx : bool) (m : positive) (e : Z) :
  fexp B64.prec B64.emax (Zdigits2 (Zpos m) + e) <= e -> e <= 971 ->
  binary_round_aux B64.prec B64.emax sx (Zpos m) e loc_Exact = S754_finite sx m e.
Proof.
  intros Hc He. unfold binary_round_aux.
  rewrite (shr_fexp_canonical m e Hc).
  cbn [shr_m loc_of_shr_record round_nearest_even].
  rewrite (shr_fexp_canonical m e Hc). cbn [shr_m].
  change (B64.emax - B64.prec) with 971.
  destruct (Z.leb_spec e 971); [reflexivity | lia].
Qed.

(** [float(n)] is exact for a positive [n] below [2^53]. *)
Lemma of_Z_exact (n : Z) :
  0 < n < 2 ^ 53 ->
  exists m e, B64.of_Z n = S754_finite false m e /\ e <= 0 /\ Zpos m = n * 2 ^ (- e).
Proof.
  intros [Hn0 Hn]. destruct n as [|p|p]; try lia.
  unfold B64.of_Z. cbn [binary_normalize]. unfold binary_round.
  pose proof (Zdigits2_bounds p) as [Hlo Hhi].
  pose proof (Zdigits2_le (Zpos p) 53 ltac:(lia) Hn) as Hd.
  assert (Hd0 : 0 < Zdigits2 (Zpos p)) by (simpl; lia).
  change (Zpos (digits2_pos p)) with (Zdigits2 (Zpos p)).
  set (d := Zdigits2 (Zpos p)) in *.
  pose proof (shl_align_spec p 0 (fexp B64.prec B64.emax (d + 0))) as [H1 H2].
  destruct (shl_align p 0 _) as [mz ez]. cbn [fst snd] in H1, H2.
  rewrite fexp_eq in H1, H2.
  assert (Hez : ez = d - 53) by lia.
  replace (Z.min 0 (Z.max (d + 0 - 53) (-1074))) with ez in H2 by lia.
  assert (Hpow : 0 < 2 ^ (0 - ez)) by (apply Z.pow_pos_nonneg; lia).
  assert (Hdz : Zdigits2 (Zpos mz) = 53).
  { apply Zdigits2_unique; [|lia]. rewrite H2.
    replace 53 with (d + (0 - ez)) at 2 by lia.
    replace (53 - 1) with (d - 1 + (0 - ez)) by lia.
    rewrite !Z.pow_add_r by lia. nia. }
  exists mz, ez. split.
  - apply binary_round_aux_canonical; [|lia]. rewrite Hdz, fexp_eq. lia.
  - split; [lia|]. rewrite H2. f_equal.
Qed.

(** The bound, on the exact value of the double. *)
Lemma to_Q_within (b t : Z) (s : bool) (m : positive) (e : Z) :
  0 <= t -> B64.within b t (S754_finite s m e) ->
  (Qabs (B64.to_Q (S754_finite s m e)) <= inject_Z (b * 2 ^ t))%Q.
Proof.
  intros Ht [He Hm].
  assert (Hp : 0 < 2 ^ (t - e)) by (apply Z.pow_pos_nonneg; lia).
  assert (Hmag : forall q : Q, (0 <= q)%Q -> (q <= inject_Z (b * 2 ^ t))%Q ->
                 (Qabs (if s then Qopp q else q) <= inject_Z (b * 2 ^ t))%Q).
  { intros q Hq0 Hq. destruct s; [rewrite Qabs_opp|]; now rewrite Qabs_pos. }
  unfold B64.to_Q. destruct (Z.leb_spec 0 e) as [He0 | He0]; apply Hmag.
  - change 0%Q with (inject_Z 0). rewrite <- Zle_Qle. 
    assert (0 < 2 ^ e) by (apply Z.pow_pos_nonneg; lia). lia.
  - rewrite <- Zle_Qle.
    replace t with ((t - e) + e) at 1 by lia. rewrite Z.pow_add_r by lia.
    assert (0 < 2 ^ e) by (apply Z.pow_pos_nonneg; lia). nia.
  - unfold Qle; simpl; lia.
  - unfold Qle. cbn [Qnum Qden inject_Z].
    rewrite Pos2Z.inj_pow, Z2Pos.id by lia.
    replace (t - e) with (t + - e) in Hm by lia. rewrite Z.pow_add_r in Hm by lia.
    lia.
Qed.

(** An amount within [10^26 - 1] can be rounded to cents. *)
Lemma B64_quantize_within (b t : Z) (x : spec_float) :
  0 <= t -> b * 2 ^ t <= amount_bound -> B64.within b t x ->
  exists r, B64.quantize x = Ok r.
Proof.
  intros Ht Hb Hx. destruct x as [s| | |s m e]; cbn [B64.within] in Hx; try contradiction.
  - simpl. eauto.
  - pose proof (to_Q_within b t s m e Ht Hx) as Hq.
    assert (Hq' : (Qabs (B64.to_Q (S754_finite s m e)) <= inject_Z amount_bound)%Q).
    { eapply Qle_trans; [exact Hq|]. now rewrite <- Zle_Qle. }
    destruct (quantize_Q_defined _ Hq') as (r & Hr).
    apply quantize_Q_Ok in Hr as [_ Hlim].
    unfold B64.quantize.
    destruct (Z.leb_spec decimal_context_limit
                (half_up_cents (B64.to_Q (S754_finite s m e)))); [lia | eauto].
Qed.

(** Every binary64 number of magnitude at most [b * 2^t], with [b] below
    [2^53], is within that bound in the sense of [B64.within]. *)
Lemma within_of_magnitude (b t : Z) (s : bool) (m : positive) (e : Z) :
  valid_binary B64.prec B64.emax (S754_finite s m e) = true ->
  0 < b < 2 ^ 53 -> 0 <= t ->
  (Qabs (B64.to_Q (S754_finite s m e)) <= inject_Z (b * 2 ^ t))%Q ->
  B64.within b t (S754_finite s m e).
Proof.
  intros Hv Hb Ht Hq.
  assert (Hpt : 0 < 2 ^ t) by (apply Z.pow_pos_nonneg; lia).
  assert (Hval : if 0 <=? e then Zpos m * 2 ^ e <= b * 2 ^ t
                 else Zpos m <= b * 2 ^ t * 2 ^ (- e)).
  { unfold B64.to_Q in Hq. destruct (Z.leb_spec 0 e) as [He | He].
    - assert (0 < 2 ^ e) by (apply Z.pow_pos_nonneg; lia).
      assert (Hq' : (inject_Z (Zpos m * 2 ^ e) <= inject_Z (b * 2 ^ t))%Q).
      { destruct s; [rewrite Qabs_opp in Hq|]; rewrite Qabs_pos in Hq; try exact Hq;
          (change 0%Q with (inject_Z 0); rewrite <- Zle_Qle; lia). }
      now rewrite <- Zle_Qle in Hq'.
    - assert (Hq' : (Zpos m # Pos.pow 2 (Z.to_pos (- e)) <= inject_Z (b * 2 ^ t))%Q).
      { destruct s; [rewrite Qabs_opp in Hq|]; rewrite Qabs_pos in Hq; try exact Hq;
          (unfold Qle; simpl; lia). }
      unfold Qle in Hq'. cbn [Qnum Qden inject_Z] in Hq'.
      rewrite Pos2Z.inj_pow, Z2Pos.id in Hq' by lia. lia. }
  assert (He : e <= t).
  { unfold valid_binary, bounded, canonical_mantissa in Hv.
    apply andb_true_iff in Hv as [Hc _]. apply Z.eqb_eq in Hc.
    rewrite fexp_eq in Hc.
    destruct (Z.eq_dec e (-1074)) as [-> | Hne]; [lia|].
    assert (Hd : Zpos (digits2_pos m) = 53) by lia.
    pose proof (Zdigits2_bounds m) as [Hlo _]. cbn [Zdigits2] in Hlo.
    rewrite Hd in Hlo. change (2 ^ (53 - 1)) with (2 ^ 52) in Hlo.
    destruct (Z.le_gt_cases e t) as [|Hgt]; [assumption|]. exfalso.
    assert (H0e : 0 <= e) by lia.
    apply Z.leb_le in H0e. rewrite H0e in Hval.
    assert (Hle : 2 * 2 ^ t <= 2 ^ e).
    { replace (2 * 2 ^ t) with (2 ^ (t + 1)) by (rewrite Z.pow_add_r by lia; lia).
      apply Z.pow_le_mono_r; lia. }
    change (2 ^ 53) with (2 * 2 ^ 52) in Hb. nia. }
  split; [exact He|].
  destruct (Z.leb_spec 0 e) as [H0e | H0e].
  - replace t with ((t - e) + e) in Hval by lia. rewrite Z.pow_add_r in Hval by lia.
    assert (0 < 2 ^ e) by (apply Z.pow_pos_nonneg; lia). nia.
  - replace (t - e) with (t + - e) by lia. rewrite Z.pow_add_r by lia. lia.
Qed.

End Binary64Magnitudes.

(** ** No exception below the decimal limit (binary64) *)

Section Binary64Defined.

Implicit Types (ps l : list participant) (p : participant) (es : dict spec_float).

(** [i / j] on ints with [0 <= i <= j] is a number of at most 1. *)
Lemma B64_int_div_within (i j : Z) :
  0 <= i <= j -> 0 < j ->
  exists q, B64.int_div i j = Some q /\ B64.within 1 0 q.
Proof.
  intros Hi Hj. unfold B64.int_div.
  destruct j as [|pj|pj]; try lia. destruct i as [|pi|pi]; try lia.
  - simpl. eexists. split; [reflexivity | exact I].
  - cbn [B64.exact].
    pose proof (SFdiv_within 1 0 0 0 false false pi pj 0 0
                  ltac:(lia) ltac:(lia) ltac:(lia) ltac:(lia) ltac:(lia) ltac:(lia)) as H.
    destruct (SFdiv B64.prec B64.emax _ _) as [s|s| |s m e]; cbn [B64.within] in H; try contradiction;
      eexists; (split; [reflexivity | exact H]).
Qed.

(** [x / n] for a count [n] of at least [2^J]. *)
Lemma B64_div_int_within (b t J n : Z) (x : spec_float) :
  0 < b < 2 ^ 53 -> 0 <= J -> -1074 <= t - J -> t <= 971 ->
  2 ^ J <= n < 2 ^ 53 ->
  B64.within b t x ->
  B64.within b (t - J) (SFdiv B64.prec B64.emax x (B64.of_Z n)).
Proof.
  intros Hb HJ Ht Ht' Hn Hx.
  assert (Hn0 : 0 < n) by (assert (0 < 2 ^ J) by (apply Z.pow_pos_nonneg; lia); lia).
  destruct (of_Z_exact n ltac:(lia)) as (my & ey & -> & Hey & Hmy).
  destruct x as [sx| | |sx mx ex]; cbn [B64.within] in Hx; try contradiction.
  - exact I.
  - destruct Hx as [Hex Hmx].
    apply (SFdiv_within b (t - J) (J - ey) (t - ex)); try lia.
    assert (0 < 2 ^ (t - ex)) by (apply Z.pow_pos_nonneg; lia).
    assert (0 < 2 ^ J) by (apply Z.pow_pos_nonneg; lia).
    assert (0 < 2 ^ (- ey)) by (apply Z.pow_pos_nonneg; lia).
    replace (J - ey) with (J + - ey) by lia. rewrite Z.pow_add_r by lia.
    rewrite Hmy.
    assert (H3 : Zpos mx * 2 ^ J <= b * 2 ^ (t - ex) * n) by nia.
    replace (Zpos mx * (2 ^ J * 2 ^ (- ey))) with (Zpos mx * 2 ^ J * 2 ^ (- ey)) by ring.
    replace (b * (n * 2 ^ (- ey)) * 2 ^ (t - ex))
      with (b * 2 ^ (t - ex) * n * 2 ^ (- ey)) by ring.
    apply Z.mul_le_mono_pos_r; lia.
Qed.

(** An accommodation share is defined and within the bound of the cost. *)
Lemma B64_cost_share_within (b t : Z) (total : spec_float) ps p :
  0 < b < 2 ^ 53 -> -1074 <= t <= 971 ->
  B64.within b t total ->
  Forall (fun p => 0 <= nights_stayed p) ps ->
  len ps < 2 ^ 53 ->
  In p ps ->
  exists c, cost_share (A:=B64Arith) total ps (total_night_units ps) p = Ok c /\
            B64.within b t c.
Proof.
  intros Hb Ht Htot Hn Hlen Hin.
  assert (Hne : ps <> []) by (intros ->; contradiction).
  destruct (Z.eq_dec (total_night_units ps) 0) as [Hu | Hu].
  - rewrite Hu, (cost_share_equal_split (A:=B64Arith)) by exact Hne.
    eexists. split; [reflexivity|].
    replace t with (t - 0) at 1 by lia.
    apply (B64_div_int_within b t 0 (len ps)); try lia; [|exact Htot].
    pose proof (len_pos ps Hne) as Hp. apply Z.ltb_lt in Hp. simpl. lia.
  - rewrite (cost_share_pro_rata (A:=B64Arith)) by exact Hu.
    rewrite Forall_forall in Hn. specialize (Hn p Hin). simpl in Hn.
    pose proof (nights_le_total ps p Hin) as Hle.
    pose proof (total_night_units_nonneg ps) as Hnn.
    destruct (B64_int_div_within (nights_stayed p) (total_night_units ps)
                ltac:(lia) ltac:(lia)) as (q & Hq & Hqw).
    cbn [int_div B64Arith]. rewrite Hq.
    eexists. split; [reflexivity|].
    apply SFmul_within; assumption.
Qed.

(** The additional share is within the bound of the summed expenses, divided
    by a power of two below the number of participants. *)
Lemma B64_per_person_additional_within (b t J : Z) (shared : spec_float) ps :
  0 < b < 2 ^ 53 -> 0 <= J -> -1074 <= t - J -> t <= 971 ->
  ps <> [] -> 2 ^ J <= len ps < 2 ^ 53 ->
  B64.within b t shared ->
  exists extra, per_person_additional (A:=B64Arith) shared ps = Ok extra /\
                B64.within b (t - J) extra.
Proof.
  intros Hb HJ Ht Ht' Hne Hlen Hs.
  rewrite (per_person_additional_defined (A:=B64Arith)), (len_pos ps Hne).
  eexists. split; [reflexivity|].
  now apply (B64_div_int_within b t J (len ps)).
Qed.

(** The table is returned when the bounds of the cost and of the summed
    expenses add up to at most [10^26 - 1]. *)
Lemma B64_breakdown_rows_defined (b1 b2 t : Z) (total : spec_float) ps es :
  0 < b1 -> 0 < b2 -> b1 + b2 < 2 ^ 53 -> 0 <= t ->
  (b1 + b2) * 2 ^ t <= amount_bound ->
  B64.within b1 t total ->
  Forall (fun p => 0 <= nights_stayed p) ps ->
  B64.within b2 t (total_shared_expenses (A:=B64Arith) es) ->
  len ps < 2 ^ 53 ->
  exists rows, breakdown_rows (A:=B64Arith) total ps es = Ok rows.
Proof.
  intros Hb1 Hb2 Hb Ht Hlim Htot Hn Hs Hlen.
  assert (Ht' : t <= 971).
  { destruct (Z.le_gt_cases t 971) as [|Hgt]; [assumption|]. exfalso.
    assert (2 ^ 972 <= 2 ^ t) by (apply Z.pow_le_mono_r; lia).
    assert (amount_bound < 2 ^ 972) by reflexivity. nia. }
  unfold breakdown_rows. apply mapM_defined. intros p Hin.
  assert (Hne : ps <> []) by (intros ->; contradiction).
  unfold breakdown_row.
  destruct (B64_cost_share_within b1 t total ps p ltac:(lia) ltac:(lia) Htot Hn Hlen Hin)
    as (c & Hc & Hcw).
  rewrite Hc. cbn [bind].
  assert (Hlen1 : 2 ^ 0 <= len ps < 2 ^ 53).
  { pose proof (len_pos ps Hne) as Hp. apply Z.ltb_lt in Hp. simpl. lia. }
  destruct (B64_per_person_additional_within b2 t 0 _ ps
              ltac:(lia) ltac:(lia) ltac:(lia) ltac:(lia) Hne Hlen1 Hs)
    as (extra & Hx & Hxw).
  rewrite Hx. cbn [bind]. rewrite Z.sub_0_r in Hxw.
  destruct (B64_quantize_within (b1 + b2) t (SFadd B64.prec B64.emax c extra))
    as (r & Hr); [lia | exact Hlim | |].
  - apply SFadd_within; try lia; assumption.
  - cbn [quantize add B64Arith]. rewrite Hr. cbn [bind]. eauto.
Qed.

(** A double of magnitude at most [b * 2^t] is written with an exponent that
    leaves room for [J] more bits when [b * 2^J] is below [2^53]. *)
Lemma within_rescale (b t J : Z) (x : spec_float) :
  valid_binary B64.prec B64.emax x = true ->
  0 < b -> 0 <= J -> b * 2 ^ J < 2 ^ 53 -> -1074 <= t - J ->
  B64.within b t x -> B64.within (b * 2 ^ J) (t - J) x.
Proof.
  intros Hv Hb HJ HbJ Ht Hx.
  destruct x as [s| | |s m e]; cbn [B64.within] in *; try contradiction; [exact I|].
  destruct Hx as [He Hm].
  assert (HpJ : 0 < 2 ^ J) by (apply Z.pow_pos_nonneg; lia).
  assert (Hpe : 0 < 2 ^ (t - e)) by (apply Z.pow_pos_nonneg; lia).
  assert (He' : e <= t - J).
  { unfold valid_binary, bounded, canonical_mantissa in Hv.
    apply andb_true_iff in Hv as [Hc _]. apply Z.eqb_eq in Hc.
    rewrite fexp_eq in Hc.
    destruct (Z.eq_dec e (-1074)) as [-> | Hne]; [lia|].
    assert (Hd : Zpos (digits2_pos m) = 53) by lia.
    pose proof (Zdigits2_bounds m) as [Hlo _]. cbn [Zdigits2] in Hlo.
    rewrite Hd in Hlo. change (2 ^ (53 - 1)) with (2 ^ 52) in Hlo.
    destruct (Z.le_gt_cases e (t - J)) as [|Hgt]; [assumption|]. exfalso.
    assert (Hle : 2 ^ (t - e) <= 2 ^ (J - 1)) by (apply Z.pow_le_mono_r; lia).
    assert (HJ1 : 2 ^ J = 2 * 2 ^ (J - 1)).
    { replace J with (J - 1 + 1) at 1 by lia.
      rewrite Z.pow_add_r by lia. lia. }
    change (2 ^ 53) with (2 * 2 ^ 52) in HbJ. nia. }
  split; [exact He'|].
  replace (t - e) with (J + (t - J - e)) in Hm by lia.
  rewrite Z.pow_add_r in Hm by lia. lia.
Qed.

Lemma log2_bounds (n : Z) : 0 < n -> 0 <= Z.log2 n /\ 2 ^ Z.log2 n <= n < 2 ^ (Z.log2 n + 1).
Proof.
  intros Hn. split; [apply Z.log2_nonneg|].
  pose proof (Z.log2_spec n Hn) as H. rewrite <- Z.add_1_r in H. exact H.
Qed.

(** The dictionary is returned also when names repeat: an entry is charged
    the additional share once per participant at most, and the additional
    share is the summed expenses divided by their number. *)
Lemma B64_even_split_defined (total : spec_float) ps es :
  valid_binary B64.prec B64.emax total = true ->
  B64.within 1 84 total ->
  Forall (fun p => 0 <= nights_stayed p) ps ->
  B64.within 1 84 (total_shared_expenses (A:=B64Arith) es) ->
  len ps < 2 ^ 52 ->
  exists d, even_split_expenses (A:=B64Arith) total ps es = Ok d.
Proof.
  intros Hv Htot Hn Hs Hlen.
  destruct ps as [|p0 ps0] eqn:Eps; [now exists []|]. rewrite <- Eps in *.
  assert (Hne : ps <> []) by (rewrite Eps; discriminate). clear Eps p0 ps0.
  assert (Hn0 : 0 < len ps) by (apply Z.ltb_lt, len_pos, Hne).
  destruct (log2_bounds (len ps) Hn0) as (HJ0 & HJ).
  set (J := Z.log2 (len ps)) in *.
  assert (HJ52 : J < 52).
  { apply (Z.pow_lt_mono_r_iff 2); lia. }
  assert (HpJ : 0 < 2 ^ J < 2 ^ 52).
  { split; [apply Z.pow_pos_nonneg; lia | apply Z.pow_lt_mono_r; lia]. }
  assert (H5253 : 2 ^ 53 = 2 * 2 ^ 52) by reflexivity.
  assert (Htot' : B64.within (2 ^ J) (84 - J) total).
  { replace (2 ^ J) with (1 * 2 ^ J) by lia.
    apply within_rescale; try assumption; lia. }
  destruct (B64_per_person_additional_within 1 84 J _ ps
              ltac:(lia) ltac:(lia) ltac:(lia) ltac:(lia) Hne ltac:(lia) Hs)
    as (extra & Hx & Hxw).
  destruct (store_loop_defined (A:=B64Arith) total ps (total_night_units ps) ps [])
    as (d1 & H1).
  { intros p Hp.
    destruct (B64_cost_share_within (2 ^ J) (84 - J) total ps p
                ltac:(lia) ltac:(lia) Htot' Hn ltac:(lia) Hp) as (c & Hc & _).
    eauto. }
  destruct (even_split_after_store (A:=B64Arith) total ps es d1 H1)
    as (extra' & d2 & Hx' & H2 & ->).
  assert (extra' = extra) by congruence. subst extra'.
  set (bounded := fun (i : nat) (v : spec_float) =>
                    Z.of_nat i <= len ps -> B64.within (2 ^ J + Z.of_nat i) (84 - J) v).
  assert (Hd1 : Forall (bounded 0%nat) (values d1)).
  { apply (store_loop_values (A:=B64Arith) (bounded 0%nat) total ps
             (total_night_units ps) ps [] d1); [|constructor|exact H1].
    intros p c Hp Hc _.
    destruct (B64_cost_share_within (2 ^ J) (84 - J) total ps p
                ltac:(lia) ltac:(lia) Htot' Hn ltac:(lia) Hp) as (c' & Hc' & Hcw).
    assert (c' = c) by congruence. subst c'.
    change (Z.of_nat 0) with 0. now rewrite Z.add_0_r. }
  assert (Hd2 : Forall (bounded (0 + List.length ps)%nat) (values d2)).
  { apply (add_loop_values (A:=B64Arith) bounded extra ps d1 d2 0%nat);
      [| |exact Hd1|exact H2].
    - intros i v Hv' Hi. apply (within_le (2 ^ J + Z.of_nat i)); [lia|].
      apply Hv'. lia.
    - intros i v Hv' Hi.
      replace (2 ^ J + Z.of_nat (S i)) with (2 ^ J + Z.of_nat i + 1) by lia.
      apply SFadd_within; try lia; [apply Hv'; lia | exact Hxw]. }
  apply mapM_defined. intros [k v] Hkv.
  assert (Hvw : bounded (0 + List.length ps)%nat v).
  { rewrite Forall_forall in Hd2. apply Hd2.
    unfold values. change v with (snd (k, v)). now apply in_map. }
  unfold bounded in Hvw. simpl in Hvw. fold (len ps) in Hvw.
  specialize (Hvw ltac:(lia)).
  unfold round_share. cbn [snd fst].
  destruct (B64_quantize_within (2 ^ J + len ps) (84 - J) v) as (r & Hr);
    [lia | | exact Hvw |].
  - assert (Hp84 : 2 ^ 84 = 2 ^ J * 2 ^ (84 - J)).
    { rewrite <- Z.pow_add_r by lia. f_equal. lia. }
    assert (0 < 2 ^ (84 - J)) by (apply Z.pow_pos_nonneg; lia).
    assert (H3 : (2 ^ J + len ps) * 2 ^ (84 - J) <= 3 * 2 ^ 84).
    { rewrite Hp84. replace (J + 1) with (1 + J) in HJ by lia.
      rewrite Z.pow_add_r, Z.pow_1_r in HJ by lia. nia. }
    assert (3 * 2 ^ 84 <= amount_bound) by (vm_compute; discriminate).
    lia.
  - cbn [quantize B64Arith]. rewrite Hr. cbn [bind]. eauto.
Qed.

(** With non-negative nights the quotient of the nights never overflows. *)
Lemma B64_cost_share_defined (total : spec_float) ps p :
  Forall (fun p => 0 <= nights_stayed p) ps ->
  In p ps ->
  exists c, cost_share (A:=B64Arith) total ps (total_night_units ps) p = Ok c.
Proof.
  intros Hn Hin.
  assert (Hne : ps <> []) by (intros ->; contradiction).
  destruct (Z.eq_dec (total_night_units ps) 0) as [Hu | Hu].
  - rewrite Hu, (cost_share_equal_split (A:=B64Arith)) by exact Hne. eauto.
  - rewrite (cost_share_pro_rata (A:=B64Arith)) by exact Hu.
    rewrite Forall_forall in Hn. specialize (Hn p Hin). simpl in Hn.
    pose proof (nights_le_total ps p Hin) as Hle.
    pose proof (total_night_units_nonneg ps) as Hnn.
    destruct (B64_int_div_within (nights_stayed p) (total_night_units ps)
                ltac:(lia) ltac:(lia)) as (q & Hq & _).
    cbn [int_div B64Arith]. rewrite Hq. eauto.
Qed.

(** With non-negative nights nothing but the rounding step can raise. *)
Lemma B64_only_the_rounding_raises (total : spec_float) ps es (e : exn) :
  Forall (fun p => 0 <= nights_stayed p) ps ->
  even_split_expenses (A:=B64Arith) total ps es = Raise e \/
  breakdown_rows (A:=B64Arith) total ps es = Raise e ->
  e = InvalidOperation.
Proof.
  intros Hn [H | H].
  - destruct (store_loop_defined (A:=B64Arith) total ps (total_night_units ps) ps [])
      as (d1 & H1); [intros p Hp; now apply B64_cost_share_defined|].
    destruct (even_split_after_store (A:=B64Arith) total ps es d1 H1)
      as (extra & d2 & _ & _ & Heq).
    rewrite Heq in H. apply mapM_Raise in H as ([k v] & _ & H).
    unfold round_share in H. cbn [snd fst] in H.
    apply bind_Raise in H as [H | (r & _ & H)]; [|discriminate].
    eapply B64_quantize_Raise. exact H.
  - apply mapM_Raise in H as (p & Hp & H).
    unfold breakdown_row in H.
    destruct (B64_cost_share_defined total ps p Hn Hp) as (c & Hc).
    rewrite Hc in H. cbn [bind] in H.
    rewrite (per_person_additional_defined (A:=B64Arith)) in H. cbn [bind] in H.
    apply bind_Raise in H as [H | (r & _ & H)]; [|discriminate].
    eapply B64_quantize_Raise. exact H.
Qed.

End Binary64Defined.

(** ** Where the rounding step raises *)

Section DecimalLimit.

Local Open Scope Q_scope.

(** The rounding needs more than 28 digits exactly from 1e26 - 0.005 on. *)
Lemma half_up_cents_limit (x : Q) :
  (decimal_context_limit <= half_up_cents x)%Z <->
  inject_Z (10 ^ 26) - (1 # 200) <= Qabs x.
Proof.
  unfold half_up_cents.
  assert (Hlim : inject_Z decimal_context_limit == inject_Z (10 ^ 26) * 100)
    by reflexivity.
  split.
  - intros H. rewrite Zle_Qle in H.
    pose proof (Qfloor_le (Qabs x * 100 + (1 # 2))) as Hf.
    rewrite Hlim in H.
    revert H Hf.
    generalize (inject_Z (10 ^ 26)) (inject_Z (Qfloor (Qabs x * 100 + (1 # 2)))) (Qabs x).
    intros; lra.
  - intros H.
    rewrite <- (Qfloor_Z decimal_context_limit). apply Qfloor_resp_le.
    rewrite Hlim. revert H. generalize (inject_Z (10 ^ 26)) (Qabs x). intros; lra.
Qed.

Lemma quantize_Q_Raise_iff (x : Q) :
  quantize_Q x = Raise InvalidOperation <-> inject_Z (10 ^ 26) - (1 # 200) <= Qabs x.
Proof.
  rewrite <- half_up_cents_limit. unfold quantize_Q.
  destruct (Z.leb_spec decimal_context_limit (half_up_cents x)); split;
    try reflexivity; try discriminate; try tauto; lia.
Qed.

Lemma B64_quantize_Raise_iff (s : bool) (m : positive) (e : Z) :
  B64.quantize (S754_finite s m e) = Raise InvalidOperation <->
  inject_Z (10 ^ 26) - (1 # 200) <= Qabs (B64.to_Q (S754_finite s m e)).
Proof.
  rewrite <- half_up_cents_limit. unfold B64.quantize.
  destruct (Z.leb_spec decimal_context_limit
              (half_up_cents (B64.to_Q (S754_finite s m e)))); split;
    try reflexivity; try discriminate; try tauto; lia.
Qed.

End DecimalLimit.

(** * The claims *)

Section Conservation.

Local Existing Instance QArith.
Local Open Scope Q_scope.

Implicit Types (ps : list participant) (es : dict Q).

Lemma Qsum_all_equal {X : Type} (f : X -> Q) (c : Q) (l : list X) :
  Forall (fun x => f x = c) l -> Qsum (map f l) == inject_Z (len l) * c.
Proof.
  intros H. rewrite <- Qsum_constant. induction H as [|x l Hx _ IH]; simpl.
  - reflexivity.
  - now rewrite Hx, IH.
Qed.

(** C2, in exact arithmetic.  With no negative number of nights and at
    least one positive one, the accommodation shares the loop computes are
    all defined, they add up to the total cost exactly (for every total
    cost, not only a non-negative one), and they are the
    [Accommodation Share] column of every table the loop returns. *)
Theorem accommodation_shares_sum_to_total_cost (total : Q) ps es :
  Forall (fun p => (0 <= nights_stayed p)%Z) ps ->
  (0 < total_night_units ps)%Z ->
  exists shares,
    mapM (cost_share total ps (total_night_units ps)) ps = Ok shares /\
    Qsum shares == total /\
    forall rows, breakdown_rows total ps es = Ok rows ->
                 map Accommodation_Share rows = shares.
Proof.
  intros Hn Hu.
  assert (Hne : total_night_units ps <> 0%Z) by lia.
  eexists. split; [apply cost_shares_pro_rata; exact Hne|]. split.
  - rewrite Qsum_pro_rata. rewrite <- (total_night_units_all ps Hn).
    field. intros H0. apply Hne.
    change 0 with (inject_Z 0) in H0. apply inject_Z_injective. exact H0.
  - intros rows Hrows. apply breakdown_rows_accommodation in Hrows.
    rewrite cost_shares_pro_rata in Hrows by exact Hne. now injection Hrows.
Qed.

(** C9, in exact arithmetic.  When the night units are zero (every
    participant has zero nights) and the list is not empty, each of the
    entries receives [total / len(participants)], and these shares add up
    to the total cost exactly. *)
Theorem equal_split_sums_to_total_cost (total : Q) ps es :
  ps <> [] ->
  total_night_units ps = 0%Z ->
  exists shares,
    mapM (cost_share total ps (total_night_units ps)) ps = Ok shares /\
    shares = map (fun _ => total / inject_Z (len ps)) ps /\
    Qsum shares == total /\
    forall rows, breakdown_rows total ps es = Ok rows ->
                 map Accommodation_Share rows = shares.
Proof.
  intros Hne Hu. rewrite Hu.
  eexists. split; [apply cost_shares_equal_split; exact Hne|].
  split; [reflexivity|]. split.
  - rewrite Qsum_constant. field.
    pose proof (inject_len_pos ps Hne). lra.
  - intros rows Hrows. apply breakdown_rows_accommodation in Hrows.
    rewrite Hu, cost_shares_equal_split in Hrows by exact Hne. now injection Hrows.
Qed.

End Conservation.

(** C4, with the sum in exact arithmetic.  For a list that is not empty,
    everyone's additional share is the same value, the sum of the expenses
    divided by the number of participants, whatever the nights stayed and
    whatever the arithmetic; in exact arithmetic the additional shares of
    the table add up to the sum of the expense values exactly. *)
Theorem additional_shares_split_evenly :
  (forall (A : Arith) (total : num) (ps : list participant) (es : dict num),
      ps <> [] ->
      per_person_additional (total_shared_expenses es) ps
        = Ok (div (total_shared_expenses es) (of_int (len ps))) /\
      forall rows, breakdown_rows total ps es = Ok rows ->
        List.length rows = List.length ps /\
        Forall (fun r => Additional_Share r
                         = div (total_shared_expenses es) (of_int (len ps))) rows) /\
  (forall (total : Q) (ps : list participant) (es : dict Q) rows,
      ps <> [] ->
      breakdown_rows (A:=QArith) total ps es = Ok rows ->
      Qsum (map (Additional_Share (N:=Q)) rows) == Qsum (values es)).
Proof.
  assert (Hgen : forall (A : Arith) (total : num) ps es rows,
             ps <> [] -> breakdown_rows total ps es = Ok rows ->
             List.length rows = List.length ps /\
             Forall (fun r => Additional_Share r
                              = div (total_shared_expenses es) (of_int (len ps))) rows).
  { intros A total ps es rows Hne Hrows. split.
    - unfold breakdown_rows in Hrows. now apply mapM_length in Hrows.
    - apply breakdown_rows_Ok in Hrows.
      eapply Forall2_Forall_right; [|exact Hrows].
      intros p r (_ & _ & _ & Hx & _).
      rewrite per_person_additional_defined, (len_pos ps Hne) in Hx.
      congruence. }
  split.
  - intros A total ps es Hne. split; [|intros rows; now apply Hgen].
    now rewrite per_person_additional_defined, (len_pos ps Hne).
  - intros total ps es rows Hne Hrows.
    destruct (Hgen QArith total ps es rows Hne Hrows) as [Hlen Hall].
    rewrite (Qsum_all_equal _ _ _ Hall), <- total_shared_expenses_Qsum.
    unfold len. rewrite Hlen. fold (len ps).
    pose proof (inject_len_pos ps Hne).
    change (inject_Z (len ps) * (@total_shared_expenses QArith es / inject_Z (len ps))
            == @total_shared_expenses QArith es)%Q.
    field. lra.
Qed.

(** C6. When every participant has zero nights and the list is not empty,
    each accommodation share is the total cost divided by the number of
    participants, in any arithmetic; a positive cost gives everyone a
    positive share. *)
Theorem zero_nights_split_equally :
  (forall (A : Arith) (total : num) (ps : list participant) (es : dict num),
      ps <> [] ->
      Forall (fun p => nights_stayed p = 0) ps ->
      (forall p, In p ps ->
         cost_share total ps (total_night_units ps) p
           = Ok (div total (of_int (len ps)))) /\
      forall rows, breakdown_rows total ps es = Ok rows ->
        List.length rows = List.length ps /\
        Forall (fun r => Accommodation_Share r = div total (of_int (len ps))) rows) /\
  (forall (total : Q) (ps : list participant) (es : dict Q) rows,
      ps <> [] ->
      Forall (fun p => nights_stayed p = 0) ps ->
      (0 < total)%Q ->
      breakdown_rows (A:=QArith) total ps es = Ok rows ->
      Forall (fun r => (0 < Accommodation_Share (N:=Q) r)%Q) rows).
Proof.
  assert (Hgen : forall (A : Arith) (total : num) ps es rows,
             ps <> [] -> Forall (fun p => nights_stayed p = 0) ps ->
             breakdown_rows total ps es = Ok rows ->
             Forall (fun r => Accommodation_Share r = div total (of_int (len ps))) rows).
  { intros A total ps es rows Hne Hz Hrows.
    apply breakdown_rows_Ok in Hrows.
    eapply Forall2_Forall_right; [|exact Hrows].
    intros p r (_ & _ & Hc & _).
    rewrite (total_night_units_zero ps Hz) in Hc.
    rewrite cost_share_equal_split in Hc by exact Hne. congruence. }
  split.
  - intros A total ps es Hne Hz. split.
    + intros p _. rewrite (total_night_units_zero ps Hz).
      now apply cost_share_equal_split.
    + intros rows Hrows. split; [|now apply (Hgen A total ps es)].
      unfold breakdown_rows in Hrows. now apply mapM_length in Hrows.
  - intros total ps es rows Hne Hz Ht Hrows.
    eapply Forall_impl; [|exact (Hgen QArith total ps es rows Hne Hz Hrows)].
    intros r Hr. change (0 < Accommodation_Share (N:=@num QArith) r)%Q.
    rewrite Hr. simpl. apply Qlt_shift_div_l; [now apply inject_len_pos|].
    now rewrite Qmult_0_l.
Qed.

(** Rounding happens once, at the end.  In every table the loop returns, the
    row of a participant holds the two shares unrounded, and its
    [Total Owed] is their sum rounded by [quantize].  When the names are
    pairwise distinct, the dictionary of [even_split_expenses] holds, for
    each participant in order, the same rounding of the sum of the same two
    unrounded shares.  In exact arithmetic [quantize] yields [c / 100] for
    the integer [c] nearest to the amount in cents, ties away from zero; in
    binary64 it yields the double nearest to [c / 100] for the integer [c]
    nearest to the exact value of the double in cents, ties away from
    zero. *)
Theorem total_owed_rounded_once :
  (forall (A : Arith) (total : num) (ps : list participant) (es : dict num) rows,
      breakdown_rows total ps es = Ok rows ->
      Forall2 (fun p r =>
                 cost_share total ps (total_night_units ps) p
                   = Ok (Accommodation_Share r) /\
                 per_person_additional (total_shared_expenses es) ps
                   = Ok (Additional_Share r) /\
                 quantize (add (Accommodation_Share r) (Additional_Share r))
                   = Ok (Total_Owed r))
              ps rows) /\
  (forall (A : Arith) (total : num) (ps : list participant) (es : dict num) d,
      NoDup (map name ps) ->
      even_split_expenses total ps es = Ok d ->
      Forall2 (fun p kv =>
                 fst kv = name p /\
                 exists c extra,
                   cost_share total ps (total_night_units ps) p = Ok c /\
                   per_person_additional (total_shared_expenses es) ps = Ok extra /\
                   quantize (add c extra) = Ok (snd kv))
              ps d) /\
  (forall x r : Q,
      @quantize QArith x = Ok r ->
      exists c : Z,
        (Qabs x * 100 - (1 # 2) < inject_Z c <= Qabs x * 100 + (1 # 2))%Q /\
        r = ((if Qnum x <? 0 then - c else c) # 100)) /\
  (forall (s : bool) (m : positive) (e : Z) (r : spec_float),
      @quantize B64Arith (S754_finite s m e) = Ok r ->
      exists c : Z,
        (Qabs (B64.to_Q (S754_finite s m e)) * 100 - (1 # 2) < inject_Z c
         <= Qabs (B64.to_Q (S754_finite s m e)) * 100 + (1 # 2))%Q /\
        r = B64.of_cents s c).
Proof.
  split; [|split; [|split]].
  - intros A total ps es rows Hrows. apply breakdown_rows_Ok in Hrows.
    eapply Forall2_impl; [|exact Hrows].
    intros p r (_ & _ & Hc & Hx & Hq). auto.
  - intros A total ps es d Hnd Hd.
    destruct (rows_of_even_split total ps es d Hnd Hd) as (rows & Hrows & ->).
    apply breakdown_rows_Ok in Hrows. apply Forall2_map_right.
    eapply Forall2_impl; [|exact Hrows].
    intros p r (Hn & _ & Hc & Hx & Hq). simpl. split; [exact Hn|].
    exists (Accommodation_Share r), (Additional_Share r). auto.
  - intros x r Hr. apply quantize_Q_Ok in Hr as [-> _].
    exists (half_up_cents x). split; [apply half_up_cents_nearest | reflexivity].
  - intros s m e r. simpl. unfold B64.quantize.
    destruct (_ <=? _); [discriminate|]. intros [= <-].
    eexists. split; [apply half_up_cents_nearest | reflexivity].
Qed.

(** C8. When the names are pairwise distinct, [even_split_expenses] returns
    a result exactly when the breakdown loop does, and its dictionary is,
    entry by entry and in order, the name and the rounded [Total Owed] of
    the rows. *)
Theorem even_split_agrees_with_breakdown (A : Arith) (total : num)
    (ps : list participant) (es : dict num) :
  NoDup (map name ps) ->
  (forall d, even_split_expenses total ps es = Ok d ->
             exists rows, breakdown_rows total ps es = Ok rows /\
                          d = map owed_entry rows) /\
  (forall rows, breakdown_rows total ps es = Ok rows ->
                even_split_expenses total ps es = Ok (map owed_entry rows)).
Proof.
  intros Hnd. split.
  - intros d. now apply rows_of_even_split.
  - intros rows. now apply even_split_of_rows.
Qed.

(** C10, as the code has it.  The expenses enter the computation through
    [sum(values())] only.  In any arithmetic the labels play no part: two
    mappings with the same values in the same order, or more generally with
    the same computed sum, give the same dictionary and the same table.  In
    exact arithmetic two mappings whose values add up to the same total,
    however it is divided among them and in whatever order, give the same
    dictionary, and tables that agree row by row with the same rounded
    totals. *)
Theorem expenses_matter_through_their_sum :
  (forall (A : Arith) (total : num) (ps : list participant) (es1 es2 : dict num),
      values es1 = values es2 \/
      total_shared_expenses es1 = total_shared_expenses es2 ->
      even_split_expenses total ps es1 = even_split_expenses total ps es2 /\
      breakdown_rows total ps es1 = breakdown_rows total ps es2 /\
      compute_splits total ps es1 = compute_splits total ps es2) /\
  (forall (total : Q) (ps : list participant) (es1 es2 : dict Q),
      (Qsum (values es1) == Qsum (values es2))%Q ->
      even_split_expenses (A:=QArith) total ps es1
        = even_split_expenses (A:=QArith) total ps es2 /\
      forall rows1 : list (row Q),
        breakdown_rows (A:=QArith) total ps es1 = Ok rows1 ->
        exists rows2,
          breakdown_rows (A:=QArith) total ps es2 = Ok rows2 /\
          Forall2 row_eqv rows1 rows2).
Proof.
  split.
  - intros A total ps es1 es2 Hsame.
    assert (Hsum : total_shared_expenses es1 = total_shared_expenses es2).
    { destruct Hsame as [Hv | Hs]; [|exact Hs].
      unfold total_shared_expenses. now rewrite Hv. }
    assert (H1 : even_split_expenses total ps es1 = even_split_expenses total ps es2)
      by (unfold even_split_expenses; now rewrite Hsum).
    assert (H2 : breakdown_rows total ps es1 = breakdown_rows total ps es2)
      by (unfold breakdown_rows; now rewrite Hsum).
    repeat split; try assumption.
    unfold compute_splits. now rewrite H1, H2.
  - intros total ps es1 es2 HQ.
    assert (Hsum : (total_shared_expenses (A:=QArith) es1
                    == total_shared_expenses (A:=QArith) es2)%Q).
    { now rewrite !total_shared_expenses_Qsum. }
    split; [now apply even_split_same_sum|].
    intros rows1 Hrows.
    apply (breakdown_rows_Ok (A:=QArith)) in Hrows.
    set (extra := fun es : dict Q =>
                    if 0 <? len ps
                    then (total_shared_expenses (A:=QArith) es / inject_Z (len ps))%Q
                    else 0%Q).
    assert (Hextra : (extra es1 == extra es2)%Q).
    { unfold extra. destruct (0 <? len ps); [now rewrite Hsum | reflexivity]. }
    assert (Hadd : Forall (fun r => Additional_Share r = extra es1) rows1).
    { eapply Forall2_Forall_right; [|exact Hrows].
      intros p r (_ & _ & _ & Hx & _).
      rewrite per_person_additional_defined in Hx. injection Hx as <-. reflexivity. }
    exists (map (fun r => rowQ (Participant r) (Nights_Stayed r)
                              (Accommodation_Share r) (extra es2) (Total_Owed r))
                rows1).
    split.
    + apply (breakdown_rows_Ok (A:=QArith)). apply Forall2_map_right.
      eapply Forall2_impl; [|exact Hrows].
      intros p r (Hn & Hk & Hc & Hx & Hq). unfold row_of; simpl.
      repeat split; try assumption.
      * apply (per_person_additional_defined (A:=QArith)).
      * transitivity (quantize_Q (Accommodation_Share r + Additional_Share r));
          [|exact Hq].
        apply quantize_Q_compat.
        rewrite per_person_additional_defined in Hx. injection Hx as Hx.
        change (extra es1 = Additional_Share r) in Hx.
        rewrite <- Hx, Hextra. reflexivity.
    + clear Hrows. induction Hadd as [|r rows Hr _ IH]; simpl; constructor; [|exact IH].
      unfold row_eqv; simpl. repeat split; try reflexivity.
      rewrite Hr. exact Hextra.
Qed.

(** C5, as the code has it.  An empty list gives an empty result without any
    division.  Every division is guarded: whatever the input, the only
    exceptions that can escape are the overflow of an integer quotient and
    what the rounding step raises, which is [InvalidOperation]; with
    non-negative nights the quotient of two numbers of nights never
    overflows in binary64, so only the rounding can raise.  The rounding
    raises exactly when the magnitude of the amount reaches 1e26 - 0.005.
    Below that limit both computations return.  In binary64, for
    non-negative nights and fewer than [2^52] participants, they return
    whenever the cost and the computed sum of the expenses are binary64
    numbers of magnitude at most [2^84]; the table, and with it the
    dictionary when the names are pairwise distinct, is returned whenever
    the cost is at most [b1 * 2^t] and the computed sum of the expenses at
    most [b2 * 2^t] in magnitude, for integers with [b1 + b2 < 2^53] and
    [(b1 + b2) * 2^t <= 10^26 - 1].  In exact arithmetic, for a non-negative
    cost and non-negative nights, they return whenever the cost plus the
    magnitude of the summed expenses is at most [10^26 - 1]. *)
Theorem splitter_defined_below_decimal_limit :
  (forall (A : Arith) (total : num) (es : dict num),
      even_split_expenses total [] es = Ok [] /\
      breakdown_rows total [] es = Ok []) /\
  (forall (A : Arith) (total : num) (ps : list participant) (es : dict num) (e : exn),
      even_split_expenses total ps es = Raise e \/
      breakdown_rows total ps es = Raise e ->
      e = OverflowError \/ exists x, quantize x = Raise e) /\
  (forall (e : exn),
      (exists x, @quantize QArith x = Raise e) \/
      (exists x, @quantize B64Arith x = Raise e) ->
      e = InvalidOperation) /\
  (forall (total : Q) (ps : list participant) (es : dict Q),
      (0 <= total)%Q ->
      Forall (fun p => 0 <= nights_stayed p) ps ->
      (total + Qabs (total_shared_expenses (A:=QArith) es) <= inject_Z amount_bound)%Q ->
      exists d rows,
        even_split_expenses (A:=QArith) total ps es = Ok d /\
        breakdown_rows (A:=QArith) total ps es = Ok rows /\
        List.length rows = List.length ps) /\
  (forall (total : spec_float) (ps : list participant) (es : dict spec_float) (e : exn),
      Forall (fun p => 0 <= nights_stayed p) ps ->
      even_split_expenses (A:=B64Arith) total ps es = Raise e \/
      breakdown_rows (A:=B64Arith) total ps es = Raise e ->
      e = InvalidOperation) /\
  ((forall x : Q,
       @quantize QArith x = Raise InvalidOperation <->
       (inject_Z (10 ^ 26) - (1 # 200) <= Qabs x)%Q) /\
   (forall (s : bool) (m : positive) (e : Z),
       @quantize B64Arith (S754_finite s m e) = Raise InvalidOperation <->
       (inject_Z (10 ^ 26) - (1 # 200) <= Qabs (B64.to_Q (S754_finite s m e)))%Q)) /\
  (forall (total : spec_float) (ps : list participant) (es : dict spec_float),
      valid_binary B64.prec B64.emax total = true ->
      B64.within 1 84 total ->
      Forall (fun p => 0 <= nights_stayed p) ps ->
      B64.within 1 84 (total_shared_expenses (A:=B64Arith) es) ->
      len ps < 2 ^ 52 ->
      exists d rows,
        even_split_expenses (A:=B64Arith) total ps es = Ok d /\
        breakdown_rows (A:=B64Arith) total ps es = Ok rows /\
        List.length rows = List.length ps) /\
  (forall (b1 b2 t : Z) (total : spec_float) (ps : list participant)
          (es : dict spec_float),
      0 < b1 -> 0 < b2 -> b1 + b2 < 2 ^ 53 -> 0 <= t ->
      (b1 + b2) * 2 ^ t <= amount_bound ->
      B64.within b1 t total ->
      Forall (fun p => 0 <= nights_stayed p) ps ->
      B64.within b2 t (total_shared_expenses (A:=B64Arith) es) ->
      len ps < 2 ^ 53 ->
      exists rows,
        breakdown_rows (A:=B64Arith) total ps es = Ok rows /\
        List.length rows = List.length ps /\
        (NoDup (map name ps) ->
         even_split_expenses (A:=B64Arith) total ps es = Ok (map owed_entry rows))).
Proof.
  split; [|split; [|split; [|split; [|split; [|split; [|split]]]]]].
  - intros A total es. split; reflexivity.
  - intros A total ps es e [H | H].
    + eapply even_split_Raise; exact H.
    + eapply breakdown_rows_Raise; exact H.
  - intros e [(x & H) | (x & H)].
    + now apply quantize_Q_Raise in H.
    + now apply B64_quantize_Raise in H.
  - intros total ps es Ht Hn Hb.
    destruct (even_split_defined total ps es Ht Hn Hb) as (d & Hd).
    destruct (breakdown_rows_defined total ps es Ht Hn Hb) as (rows & Hrows).
    exists d, rows. repeat split; try assumption.
    unfold breakdown_rows in Hrows. now apply mapM_length in Hrows.
  - intros total ps es e Hn H. eapply B64_only_the_rounding_raises; eassumption.
  - split.
    + intros x. apply quantize_Q_Raise_iff.
    + intros s m e. apply B64_quantize_Raise_iff.
  - intros total ps es Hv Ht Hn Hs Hlen.
    destruct (B64_even_split_defined total ps es Hv Ht Hn Hs Hlen) as (d & Hd).
    destruct (B64_breakdown_rows_defined 1 1 84 total ps es
                ltac:(lia) ltac:(lia) ltac:(lia) ltac:(lia)
                ltac:(vm_compute; discriminate) Ht Hn Hs ltac:(lia))
      as (rows & Hrows).
    exists d, rows. repeat split; try assumption.
    unfold breakdown_rows in Hrows. now apply mapM_length in Hrows.
  - intros b1 b2 t total ps es Hb1 Hb2 Hb Ht Hlim Htot Hn Hs Hlen.
    destruct (B64_breakdown_rows_defined b1 b2 t total ps es
                Hb1 Hb2 Hb Ht Hlim Htot Hn Hs Hlen) as (rows & Hrows).
    exists rows. split; [exact Hrows|]. split.
    + unfold breakdown_rows in Hrows. now apply mapM_length in Hrows.
    + intros Hnd. now apply (even_split_of_rows (A:=B64Arith)).
Qed.

(** ** The code on concrete inputs *)

Section Evaluation.

Local Open Scope string_scope.

(** The scenarios of the specification, in binary64. *)
Example scenario_default :
  breakdown_rows (A:=B64Arith) (B64.of_Z 300) default_participants default_expenses
  = Ok [row64 "Person1" 2 (B64.of_Z 150) (B64.of_Z 50) (B64.of_Z 200);
        row64 "Person2" 2 (B64.of_Z 150) (B64.of_Z 50) (B64.of_Z 200)].
Proof. vm_compute. reflexivity. Qed.

Example scenario_uneven :
  breakdown_rows (A:=B64Arith) (B64.of_Z 300) uneven_participants []
  = Ok [row64 "Person1" 1 (B64.of_Z 75) (B64.of_Z 0) (B64.of_Z 75);
        row64 "Person2" 3 (B64.of_Z 225) (B64.of_Z 0) (B64.of_Z 225)].
Proof. vm_compute. reflexivity. Qed.

Example scenario_zero_nights :
  breakdown_rows (A:=B64Arith) (B64.of_Z 100) zero_night_participants
                 [("Food", B64.of_Z 20)]
  = Ok [row64 "A" 0 (B64.of_Z 50) (B64.of_Z 10) (B64.of_Z 60);
        row64 "B" 0 (B64.of_Z 50) (B64.of_Z 10) (B64.of_Z 60)].
Proof. vm_compute. reflexivity. Qed.

(** The rounding examples of the specification: the doubles written 12.345,
    12.344 and 2.345, 2.344, and a double that is a decimal midpoint. *)
Example rounding_examples :
  B64.quantize (B64.dec 12345 1000) = Ok (B64.dec 1235 100) /\
  B64.quantize (B64.dec 12344 1000) = Ok (B64.dec 1234 100) /\
  B64.quantize (B64.dec 2345 1000) = Ok (B64.dec 235 100) /\
  B64.quantize (B64.dec 2344 1000) = Ok (B64.dec 234 100) /\
  B64.quantize (B64.dec 125 1000) = Ok (B64.dec 13 100) /\
  quantize_Q (12345 # 1000) = Ok (1235 # 100) /\
  quantize_Q (12344 # 1000) = Ok (1234 # 100).
Proof. vm_compute. repeat split; reflexivity. Qed.

(** The breakdown loop goes by position: one row per entry, in order. *)
Lemma breakdown_rows_by_position (A : Arith) (total : num)
    (ps : list participant) (es : dict num) (rows : list (row num)) :
  breakdown_rows total ps es = Ok rows ->
  map Participant rows = map name ps /\
  map Nights_Stayed rows = map nights_stayed ps.
Proof.
  intros H. apply breakdown_rows_Ok in H.
  split.
  - assert (F : Forall2 (fun p r => Participant r = name p) ps rows)
      by (eapply Forall2_impl; [|exact H]; now intros p r (Hn & _)).
    clear H. induction F; simpl; congruence.
  - assert (F : Forall2 (fun p r => Nights_Stayed r = nights_stayed p) ps rows)
      by (eapply Forall2_impl; [|exact H]; now intros p r (_ & Hk & _)).
    clear H. induction F; simpl; congruence.
Qed.

(** C1, where the code departs from it.  A cost of 1.0 split over 3 and 37
    nights: the first participant owes exactly 0.075, which rounded half up
    at the second decimal is 0.08, and that is what exact arithmetic gives.
    In binary64 the raw amount is the double nearest to 0.075, which lies
    below it, and [Decimal(amount)] rounds that double: 0.07. *)
Theorem binary64_amount_below_midpoint_rounds_down :
  breakdown_rows (A:=QArith) 1%Q midpoint_participants []
  = Ok [rowQ "A" 3 (3 # 40) (0 # 2) (8 # 100);
        rowQ "B" 37 (37 # 40) (0 # 2) (93 # 100)] /\
  breakdown_rows (A:=B64Arith) (B64.of_Z 1) midpoint_participants []
  = Ok [row64 "A" 3 (B64.dec 75 1000) (B64.of_Z 0) (B64.dec 7 100);
        row64 "B" 37 (B64.dec 925 1000) (B64.of_Z 0) (B64.dec 93 100)] /\
  even_split_expenses (A:=B64Arith) (B64.of_Z 1) midpoint_participants []
  = Ok [("A", B64.dec 7 100); ("B", B64.dec 93 100)] /\
  (B64.to_Q (B64.dec 75 1000) < 75 # 1000)%Q /\
  B64.dec 7 100 <> B64.dec 8 100.
Proof.
  vm_compute. repeat split; try reflexivity. discriminate.
Qed.

(** C3, where the code departs from it.  Two entries named "A" with 1 and 3
    nights, a cost of 100 and 20 of expenses: the table has a row for each,
    35 and 85, but the dictionary of [even_split_expenses] has a single
    entry, the share of the last one charged the expenses twice. *)
Theorem namesakes_share_one_entry :
  even_split_expenses (A:=B64Arith) (B64.of_Z 100) namesake_participants
                      [("Food", B64.of_Z 20)]
  = Ok [("A", B64.of_Z 95)] /\
  breakdown_rows (A:=B64Arith) (B64.of_Z 100) namesake_participants
                 [("Food", B64.of_Z 20)]
  = Ok [row64 "A" 1 (B64.of_Z 25) (B64.of_Z 10) (B64.of_Z 35);
        row64 "A" 3 (B64.of_Z 75) (B64.of_Z 10) (B64.of_Z 85)] /\
  even_split_expenses (A:=QArith) 100%Q namesake_participants [("Food", 20%Q)]
  = Ok [("A", 9500 # 100)].
Proof.
  vm_compute. repeat split; reflexivity.
Qed.


(** C2 fails in binary64 as stated: a cost of 1e7 over 1, 10 and 10 nights.
    The three doubles add up to 9999999.999999998, more than 1e-9 away from
    the cost, whether they are added exactly or as floats. *)
Lemma binary64_pro_rata_sum_off_by_more_than_1e9 :
  Forall (fun p => 0 <= nights_stayed p) three_participants /\
  0 < total_night_units three_participants /\
  exists rows,
    breakdown_rows (A:=B64Arith) (B64.of_Z (10 ^ 7)) three_participants [] = Ok rows /\
    (1 # 1000000000
     < Qabs (Qsum (map B64.to_Q (map Accommodation_Share rows)) - inject_Z (10 ^ 7)))%Q /\
    B64.fsum (map Accommodation_Share rows) = B64.dec 9999999999999998 1000000000 /\
    (1 # 1000000000
     < Qabs (B64.to_Q (B64.fsum (map Accommodation_Share rows)) - inject_Z (10 ^ 7)))%Q.
Proof.
  split; [repeat constructor; simpl; lia|]. split; [reflexivity|].
  eexists. split; [vm_compute; reflexivity|].
  vm_compute. repeat split; reflexivity.
Qed.

(** C4 fails in binary64 as stated: one expense of 3e7 among seven people.
    Each owes the double 4285714.285714285, and seven of them make
    29999999.999999993 as floats and miss 3e7 by more than 1e-9 exactly. *)
Lemma binary64_additional_sum_off_by_more_than_1e9 :
  seven_one_night <> [] /\
  (B64.to_Q (total_shared_expenses (A:=B64Arith) [("Flights", B64.of_Z (3 * 10 ^ 7))])
   == inject_Z (3 * 10 ^ 7))%Q /\
  exists rows,
    breakdown_rows (A:=B64Arith) (B64.of_Z 700) seven_one_night
                   [("Flights", B64.of_Z (3 * 10 ^ 7))] = Ok rows /\
    (1 # 1000000000
     < Qabs (Qsum (map B64.to_Q (map Additional_Share rows)) - inject_Z (3 * 10 ^ 7)))%Q /\
    B64.fsum (map Additional_Share rows) = B64.dec 29999999999999993 1000000000 /\
    (1 # 1000000000
     < Qabs (B64.to_Q (B64.fsum (map Additional_Share rows)) - inject_Z (3 * 10 ^ 7)))%Q.
Proof.
  split; [discriminate|]. split; [vm_compute; reflexivity|].
  eexists. split; [vm_compute; reflexivity|].
  vm_compute. repeat split; reflexivity.
Qed.

(** C9 fails in binary64 as stated: a cost of 100 among six people with no
    nights.  Each owes the double 16.666666666666668; the six do not add up
    to 100 exactly, and as floats they make 100.00000000000001. *)
Lemma binary64_equal_split_sum_not_exact :
  six_zero_nights <> [] /\
  total_night_units six_zero_nights = 0 /\
  exists rows,
    breakdown_rows (A:=B64Arith) (B64.of_Z 100) six_zero_nights [] = Ok rows /\
    ~ (Qsum (map B64.to_Q (map Accommodation_Share rows)) == 100)%Q /\
    B64.fsum (map Accommodation_Share rows) = B64.dec 10000000000000001 100000000000000 /\
    B64.fsum (map Accommodation_Share rows) <> B64.of_Z 100.
Proof.
  split; [discriminate|]. split; [reflexivity|].
  eexists. split; [vm_compute; reflexivity|].
  vm_compute. repeat split; try reflexivity; discriminate.
Qed.

(** C5 fails as stated: a cost of 1e26 for one participant is in the
    documented domain, and the rounding step raises [InvalidOperation]. *)
Lemma rounding_raises_at_1e26 :
  even_split_expenses (A:=B64Arith) (B64.of_Z (10 ^ 26)) [person "A" 1] []
  = Raise InvalidOperation /\
  breakdown_rows (A:=B64Arith) (B64.of_Z (10 ^ 26)) [person "A" 1] []
  = Raise InvalidOperation /\
  even_split_expenses (A:=QArith) (inject_Z (10 ^ 26)) [person "A" 1] []
  = Raise InvalidOperation /\
  breakdown_rows (A:=QArith) (inject_Z (10 ^ 26)) [person "A" 1] []
  = Raise InvalidOperation.
Proof.
  vm_compute. repeat split; reflexivity.
Qed.

(** C10 fails in binary64 as stated: the expenses 69.52, 15.55 and 100.4 and
    the same three amounts with the last two exchanged have the same total,
    but [sum] adds them from left to right as floats and finds 185.47 for
    the first order and 185.47000000000003 for the second.  Two people with
    no accommodation cost owe 92.73 each in the first case and 92.74 each in
    the second. *)
Lemma binary64_expense_order_changes_the_split :
  Permutation (values rent_fuel_food) (values rent_food_fuel) /\
  (Qsum (map B64.to_Q (values rent_fuel_food))
   == Qsum (map B64.to_Q (values rent_food_fuel)))%Q /\
  total_shared_expenses (A:=B64Arith) rent_fuel_food = B64.dec 18547 100 /\
  total_shared_expenses (A:=B64Arith) rent_food_fuel
  = B64.dec 18547000000000003 100000000000000 /\
  breakdown_rows (A:=B64Arith) (B64.of_Z 0) default_participants rent_fuel_food
  = Ok [row64 "Person1" 2 (B64.of_Z 0) (B64.dec 92735 1000) (B64.dec 9273 100);
        row64 "Person2" 2 (B64.of_Z 0) (B64.dec 92735 1000) (B64.dec 9273 100)] /\
  breakdown_rows (A:=B64Arith) (B64.of_Z 0) default_participants rent_food_fuel
  = Ok [row64 "Person1" 2 (B64.of_Z 0) (B64.dec 9273500000000001 100000000000000)
              (B64.dec 9274 100);
        row64 "Person2" 2 (B64.of_Z 0) (B64.dec 9273500000000001 100000000000000)
              (B64.dec 9274 100)] /\
  even_split_expenses (A:=B64Arith) (B64.of_Z 0) default_participants rent_fuel_food
  = Ok [("Person1", B64.dec 9273 100); ("Person2", B64.dec 9273 100)] /\
  even_split_expenses (A:=B64Arith) (B64.of_Z 0) default_participants rent_food_fuel
  = Ok [("Person1", B64.dec 9274 100); ("Person2", B64.dec 9274 100)] /\
  B64.dec 9273 100 <> B64.dec 9274 100.
Proof.
  split; [apply perm_skip, perm_swap|].
  vm_compute. repeat split; try reflexivity. discriminate.
Qed.

(** The bound of exact arithmetic does not carry over to binary64.  A cost
    of 9.999999999999999e25 and one expense of 1.2e10 for one participant
    add up to less than [10^26 - 1], but the sum of the two doubles is
    rounded to the double nearest to 1e26, and the rounding step raises. *)
Example binary64_sum_rounds_up_to_the_limit :
  (B64.to_Q (B64.of_Z 99999999999999987584860160)
   + Qabs (B64.to_Q (total_shared_expenses (A:=B64Arith)
                       [("Fuel", B64.of_Z 12000000000)]))
   <= inject_Z amount_bound)%Q /\
  breakdown_rows (A:=B64Arith) (B64.of_Z 99999999999999987584860160) [person "A" 1]
                 [("Fuel", B64.of_Z 12000000000)]
  = Raise InvalidOperation /\
  even_split_expenses (A:=B64Arith) (B64.of_Z 99999999999999987584860160)
                      [person "A" 1] [("Fuel", B64.of_Z 12000000000)]
  = Raise InvalidOperation.
Proof.
  vm_compute. repeat split; try reflexivity. discriminate.
Qed.

End Evaluation.

(** ** The theorems at work on the examples *)

Section Witnesses.

Local Open Scope string_scope.

Lemma accommodation_shares_sum_witness :
  Forall (fun p => 0 <= nights_stayed p) uneven_participants /\
  0 < total_night_units uneven_participants /\
  exists shares,
    mapM (cost_share (A:=QArith) 300%Q uneven_participants
                     (total_night_units uneven_participants))
         uneven_participants = Ok shares /\
    (Qsum shares == 300)%Q /\
    forall rows,
      breakdown_rows (A:=QArith) 300%Q uneven_participants [] = Ok rows ->
      map (Accommodation_Share (N:=Q)) rows = shares.
Proof.
  assert (Hn : Forall (fun p => 0 <= nights_stayed p) uneven_participants)
    by (repeat constructor; simpl; lia).
  assert (Hu : 0 < total_night_units uneven_participants) by reflexivity.
  split; [exact Hn|]. split; [exact Hu|].
  exact (accommodation_shares_sum_to_total_cost 300%Q uneven_participants [] Hn Hu).
Defined.

Lemma equal_split_sum_witness :
  zero_night_participants <> [] /\
  total_night_units zero_night_participants = 0 /\
  exists shares,
    mapM (cost_share (A:=QArith) 100%Q zero_night_participants
                     (total_night_units zero_night_participants))
         zero_night_participants = Ok shares /\
    shares = map (fun _ => (100 / inject_Z (len zero_night_participants))%Q)
                 zero_night_participants /\
    (Qsum shares == 100)%Q /\
    forall rows,
      breakdown_rows (A:=QArith) 100%Q zero_night_participants [("Food", 20%Q)]
        = Ok rows ->
      map (Accommodation_Share (N:=Q)) rows = shares.
Proof.
  assert (Hne : zero_night_participants <> []) by discriminate.
  assert (Hu : total_night_units zero_night_participants = 0) by reflexivity.
  split; [exact Hne|]. split; [exact Hu|].
  exact (equal_split_sums_to_total_cost 100%Q zero_night_participants
           [("Food", 20%Q)] Hne Hu).
Defined.

Lemma additional_shares_witness :
  (exists rows,
      breakdown_rows (A:=B64Arith) (B64.of_Z 300) default_participants default_expenses
        = Ok rows /\
      List.length rows = List.length default_participants /\
      Forall (fun r => Additional_Share r = B64.of_Z 50) rows) /\
  (exists rows,
      breakdown_rows (A:=QArith) 100%Q zero_night_participants
                     [("Food", 12%Q); ("Fuel", 8%Q)] = Ok rows /\
      (Qsum (map (Accommodation_Share (N:=Q)) rows) == 100)%Q /\
      (Qsum (map (Additional_Share (N:=Q)) rows) == 20)%Q).
Proof.
  split.
  - eexists. split; [vm_compute; reflexivity|].
    apply (proj1 additional_shares_split_evenly B64Arith (B64.of_Z 300)
             default_participants default_expenses); [discriminate|].
    vm_compute. reflexivity.
  - eexists. split; [vm_compute; reflexivity|]. split; [reflexivity|].
    apply (proj2 additional_shares_split_evenly 100%Q zero_night_participants
             [("Food", 12%Q); ("Fuel", 8%Q)]); [discriminate|].
    vm_compute. reflexivity.
Defined.

Lemma zero_nights_witness :
  (exists rows,
      breakdown_rows (A:=B64Arith) (B64.of_Z 100) zero_night_participants
                     [("Food", B64.of_Z 20)] = Ok rows /\
      List.length rows = List.length zero_night_participants /\
      Forall (fun r => Accommodation_Share r = B64.of_Z 50) rows) /\
  (exists rows,
      breakdown_rows (A:=QArith) 100%Q zero_night_participants [("Food", 20%Q)]
        = Ok rows /\
      Forall (fun r => (0 < Accommodation_Share (N:=Q) r)%Q) rows).
Proof.
  assert (Hne : zero_night_participants <> []) by discriminate.
  assert (Hz : Forall (fun p => nights_stayed p = 0) zero_night_participants)
    by (repeat constructor).
  split.
  - eexists. split; [vm_compute; reflexivity|].
    apply (proj2 (proj1 zero_nights_split_equally B64Arith (B64.of_Z 100)
                    zero_night_participants [("Food", B64.of_Z 20)] Hne Hz)).
    vm_compute. reflexivity.
  - eexists. split; [vm_compute; reflexivity|].
    apply (proj2 zero_nights_split_equally 100%Q zero_night_participants
             [("Food", 20%Q)]); [exact Hne | exact Hz | reflexivity |].
    vm_compute. reflexivity.
Defined.

Lemma total_owed_witness :
  (exists rows,
      breakdown_rows (A:=B64Arith) (B64.of_Z 300) default_participants default_expenses
        = Ok rows /\
      Forall2 (fun p r =>
                 cost_share (A:=B64Arith) (B64.of_Z 300) default_participants
                            (total_night_units default_participants) p
                   = Ok (Accommodation_Share r) /\
                 per_person_additional (A:=B64Arith)
                   (total_shared_expenses (A:=B64Arith) default_expenses)
                   default_participants
                   = Ok (Additional_Share r) /\
                 B64.quantize (SFadd B64.prec B64.emax (Accommodation_Share r)
                                                       (Additional_Share r))
                   = Ok (Total_Owed r))
              default_participants rows) /\
  (NoDup (map name uneven_participants) /\
   exists d,
      even_split_expenses (A:=B64Arith) (B64.of_Z 300) uneven_participants
                          default_expenses = Ok d /\
      d = [("Person1", B64.of_Z 125); ("Person2", B64.of_Z 275)] /\
      Forall2 (fun p kv =>
                 fst kv = name p /\
                 exists c extra,
                   cost_share (A:=B64Arith) (B64.of_Z 300) uneven_participants
                              (total_night_units uneven_participants) p = Ok c /\
                   per_person_additional (A:=B64Arith)
                     (total_shared_expenses (A:=B64Arith) default_expenses)
                     uneven_participants = Ok extra /\
                   B64.quantize (SFadd B64.prec B64.emax c extra) = Ok (snd kv))
              uneven_participants d) /\
  (quantize_Q (12345 # 1000) = Ok (1235 # 100) /\
   exists c : Z,
     (Qabs (12345 # 1000) * 100 - (1 # 2) < inject_Z c
      <= Qabs (12345 # 1000) * 100 + (1 # 2))%Q /\
     (1235 # 100) = ((if (Qnum (12345 # 1000) <? 0)%Z then (- c)%Z else c) # 100)) /\
  (B64.quantize (S754_finite false 6949617174986097 (-49)) = Ok (B64.dec 1235 100) /\
   exists c : Z,
     (Qabs (B64.to_Q (S754_finite false 6949617174986097 (-49))) * 100 - (1 # 2)
      < inject_Z c
      <= Qabs (B64.to_Q (S754_finite false 6949617174986097 (-49))) * 100 + (1 # 2))%Q /\
     B64.dec 1235 100 = B64.of_cents false c).
Proof.
  split; [|split; [|split]].
  - eexists. split; [vm_compute; reflexivity|].
    apply (proj1 total_owed_rounded_once B64Arith). vm_compute. reflexivity.
  - assert (Hnd : NoDup (map name uneven_participants)).
    { repeat constructor; simpl; intuition discriminate. }
    split; [exact Hnd|].
    eexists. split; [vm_compute; reflexivity|]. split; [vm_compute; reflexivity|].
    apply (proj1 (proj2 total_owed_rounded_once) B64Arith (B64.of_Z 300)
             uneven_participants default_expenses _ Hnd).
    vm_compute. reflexivity.
  - split; [reflexivity|].
    apply (proj1 (proj2 (proj2 total_owed_rounded_once))). reflexivity.
  - split; [vm_compute; reflexivity|].
    apply (proj2 (proj2 (proj2 total_owed_rounded_once))). vm_compute. reflexivity.
Defined.

Lemma even_split_agreement_witness :
  NoDup (map name default_participants) /\
  exists rows,
    breakdown_rows (A:=B64Arith) (B64.of_Z 300) default_participants default_expenses
      = Ok rows /\
    even_split_expenses (A:=B64Arith) (B64.of_Z 300) default_participants
                        default_expenses
      = Ok (map owed_entry rows) /\
    map owed_entry rows = [("Person1", B64.of_Z 200); ("Person2", B64.of_Z 200)].
Proof.
  assert (Hnd : NoDup (map name default_participants)).
  { repeat constructor; simpl; intuition discriminate. }
  split; [exact Hnd|].
  eexists. split; [vm_compute; reflexivity|]. split; [|vm_compute; reflexivity].
  apply (proj2 (even_split_agrees_with_breakdown B64Arith (B64.of_Z 300)
                  default_participants default_expenses Hnd)).
  vm_compute. reflexivity.
Defined.

Lemma expenses_sum_witness :
  (values [("Food", B64.of_Z 100)] = values default_expenses /\
   compute_splits (A:=B64Arith) (B64.of_Z 300) uneven_participants
     [("Food", B64.of_Z 100)]
   = compute_splits (A:=B64Arith) (B64.of_Z 300) uneven_participants default_expenses) /\
  (total_shared_expenses (A:=B64Arith)
     [("Groceries", B64.of_Z 60); ("Fuel", B64.of_Z 40)]
   = total_shared_expenses (A:=B64Arith) default_expenses /\
   even_split_expenses (A:=B64Arith) (B64.of_Z 300) uneven_participants
     [("Groceries", B64.of_Z 60); ("Fuel", B64.of_Z 40)]
   = even_split_expenses (A:=B64Arith) (B64.of_Z 300) uneven_participants
       default_expenses) /\
  ((Qsum (values [("Food", 1 # 2); ("Fuel", 1 # 2)])
    == Qsum (values [("Everything", 1)]))%Q /\
   even_split_expenses (A:=QArith) 300%Q uneven_participants
     [("Food", (1 # 2)%Q); ("Fuel", (1 # 2)%Q)]
   = even_split_expenses (A:=QArith) 300%Q uneven_participants [("Everything", 1%Q)] /\
   exists rows1 rows2,
     breakdown_rows (A:=QArith) 300%Q uneven_participants
                    [("Food", (1 # 2)%Q); ("Fuel", (1 # 2)%Q)] = Ok rows1 /\
     breakdown_rows (A:=QArith) 300%Q uneven_participants [("Everything", 1%Q)]
       = Ok rows2 /\
     Forall2 row_eqv rows1 rows2).
Proof.
  split; [|split].
  - assert (Hv : values [("Food", B64.of_Z 100)] = values default_expenses)
      by reflexivity.
    split; [exact Hv|].
    exact (proj2 (proj2 (proj1 expenses_matter_through_their_sum B64Arith (B64.of_Z 300)
                           uneven_participants _ _ (or_introl Hv)))).
  - assert (Hsum : total_shared_expenses (A:=B64Arith)
                     [("Groceries", B64.of_Z 60); ("Fuel", B64.of_Z 40)]
                   = total_shared_expenses (A:=B64Arith) default_expenses)
      by (vm_compute; reflexivity).
    split; [exact Hsum|].
    exact (proj1 (proj1 expenses_matter_through_their_sum B64Arith (B64.of_Z 300)
                    uneven_participants _ _ (or_intror Hsum))).
  - assert (Hsum : (Qsum (values [("Food", 1 # 2); ("Fuel", 1 # 2)])
                    == Qsum (values [("Everything", 1)]))%Q)
      by reflexivity.
    split; [exact Hsum|].
    destruct (proj2 expenses_matter_through_their_sum 300%Q uneven_participants
                [("Food", (1 # 2)%Q); ("Fuel", (1 # 2)%Q)] [("Everything", 1%Q)] Hsum)
      as [Hsplit Hrows].
    split; [exact Hsplit|].
    assert (Hrows1 : exists rows1,
               breakdown_rows (A:=QArith) 300%Q uneven_participants
                              [("Food", (1 # 2)%Q); ("Fuel", (1 # 2)%Q)] = Ok rows1)
      by (eexists; vm_compute; reflexivity).
    destruct Hrows1 as (rows1 & Hrows1).
    destruct (Hrows rows1 Hrows1) as (rows2 & Hrows2 & Heqv).
    exists rows1, rows2. split; [exact Hrows1|]. split; [exact Hrows2 | exact Heqv].
Defined.

Lemma splitter_defined_witness :
  (InvalidOperation = OverflowError \/
   exists x, @quantize B64Arith x = Raise InvalidOperation) /\
  InvalidOperation = InvalidOperation /\
  ((0 <= 300)%Q /\
   Forall (fun p => 0 <= nights_stayed p) uneven_participants /\
   exists d rows,
     even_split_expenses (A:=QArith) 300%Q uneven_participants [("Groceries", 100%Q)]
       = Ok d /\
     breakdown_rows (A:=QArith) 300%Q uneven_participants [("Groceries", 100%Q)]
       = Ok rows /\
     List.length rows = List.length uneven_participants) /\
  (Forall (fun p => 0 <= nights_stayed p) [person "A" 1] /\
   exists e,
     breakdown_rows (A:=B64Arith) (B64.of_Z (10 ^ 26)) [person "A" 1] [] = Raise e /\
     e = InvalidOperation) /\
  (valid_binary B64.prec B64.emax (B64.of_Z 100) = true /\
   B64.within 1 84 (B64.of_Z 100) /\
   Forall (fun p => 0 <= nights_stayed p) namesake_participants /\
   B64.within 1 84 (total_shared_expenses (A:=B64Arith) [("Food", B64.of_Z 20)]) /\
   len namesake_participants < 2 ^ 52 /\
   exists d rows,
     even_split_expenses (A:=B64Arith) (B64.of_Z 100) namesake_participants
                         [("Food", B64.of_Z 20)] = Ok d /\
     breakdown_rows (A:=B64Arith) (B64.of_Z 100) namesake_participants
                    [("Food", B64.of_Z 20)] = Ok rows /\
     List.length rows = List.length namesake_participants) /\
  (B64.within 300 0 (B64.of_Z 300) /\
   B64.within 100 0 (total_shared_expenses (A:=B64Arith) default_expenses) /\
   NoDup (map name uneven_participants) /\
   exists rows,
     breakdown_rows (A:=B64Arith) (B64.of_Z 300) uneven_participants default_expenses
       = Ok rows /\
     List.length rows = List.length uneven_participants /\
     even_split_expenses (A:=B64Arith) (B64.of_Z 300) uneven_participants
                         default_expenses = Ok (map owed_entry rows)).
Proof.
  split; [|split; [|split; [|split; [|split]]]].
  - apply (proj1 (proj2 splitter_defined_below_decimal_limit) B64Arith
             (B64.of_Z (10 ^ 26)) [person "A" 1] []).
    left. vm_compute. reflexivity.
  - apply (proj1 (proj2 (proj2 splitter_defined_below_decimal_limit))).
    left. exists (inject_Z (10 ^ 28)). vm_compute. reflexivity.
  - assert (Ht : (0 <= 300)%Q) by (vm_compute; discriminate).
    assert (Hn : Forall (fun p => 0 <= nights_stayed p) uneven_participants)
      by (repeat constructor; simpl; lia).
    split; [exact Ht|]. split; [exact Hn|].
    apply (proj1 (proj2 (proj2 (proj2 splitter_defined_below_decimal_limit))) 300%Q
             uneven_participants [("Groceries", 100%Q)] Ht Hn).
    vm_compute. discriminate.
  - assert (Hn : Forall (fun p => 0 <= nights_stayed p) [person "A" 1])
      by (repeat constructor; simpl; lia).
    split; [exact Hn|].
    assert (H : breakdown_rows (A:=B64Arith) (B64.of_Z (10 ^ 26)) [person "A" 1] []
                = Raise InvalidOperation) by (vm_compute; reflexivity).
    exists InvalidOperation. split; [exact H|].
    apply (proj1 (proj2 (proj2 (proj2 (proj2 splitter_defined_below_decimal_limit))))
             (B64.of_Z (10 ^ 26)) [person "A" 1] [] InvalidOperation Hn).
    right. exact H.
  - assert (Hv : valid_binary B64.prec B64.emax (B64.of_Z 100) = true)
      by (vm_compute; reflexivity).
    assert (Ht : B64.within 1 84 (B64.of_Z 100))
      by (vm_compute; split; discriminate).
    assert (Hn : Forall (fun p => 0 <= nights_stayed p) namesake_participants)
      by (repeat constructor; simpl; lia).
    assert (Hs : B64.within 1 84
                   (total_shared_expenses (A:=B64Arith) [("Food", B64.of_Z 20)]))
      by (vm_compute; split; discriminate).
    assert (Hlen : len namesake_participants < 2 ^ 52) by reflexivity.
    repeat (split; [assumption|]).
    exact (proj1 (proj2 (proj2 (proj2 (proj2 (proj2 (proj2
             splitter_defined_below_decimal_limit))))))
             (B64.of_Z 100) namesake_participants [("Food", B64.of_Z 20)]
             Hv Ht Hn Hs Hlen).
  - assert (Ht : B64.within 300 0 (B64.of_Z 300))
      by (vm_compute; split; discriminate).
    assert (Hs : B64.within 100 0
                   (total_shared_expenses (A:=B64Arith) default_expenses))
      by (vm_compute; split; discriminate).
    assert (Hn : Forall (fun p => 0 <= nights_stayed p) uneven_participants)
      by (repeat constructor; simpl; lia).
    assert (Hnd : NoDup (map name uneven_participants)).
    { repeat constructor; simpl; intuition discriminate. }
    repeat (split; [assumption|]).
    assert (Hlim : (300 + 100) * 2 ^ 0 <= amount_bound) by (vm_compute; discriminate).
    assert (Hlen : len uneven_participants < 2 ^ 53) by reflexivity.
    destruct (proj2 (proj2 (proj2 (proj2 (proj2 (proj2 (proj2
                splitter_defined_below_decimal_limit))))))
                300 100 0 (B64.of_Z 300) uneven_participants default_expenses
                ltac:(lia) ltac:(lia) ltac:(lia) ltac:(lia) Hlim Ht Hn Hs Hlen)
      as (rows & Hrows & Hrlen & Hsplit).
    exists rows. split; [exact Hrows|]. split; [exact Hrlen | exact (Hsplit Hnd)].
Defined.

End Witnesses.

(** * Further properties of the code *)

(** ** What [even_split_expenses] returns when names repeat *)

Section Namesakes.

Context {A : Arith}.

Implicit Types (ps l : list participant) (p : participant) (d : dict num).

Lemma dict_get_set_same {V : Type} (k : string) (v : V) (d : dict V) :
  dict_get k (dict_set k v d) = Ok v.
Proof.
  induction d as [|[k' v'] d IH]; simpl.
  - now rewrite String.eqb_refl.
  - destruct (String.eqb_spec k k') as [-> | Hne]; simpl.
    + now rewrite String.eqb_refl.
    + apply String.eqb_neq in Hne. now rewrite Hne.
Qed.

Lemma dict_get_set_other {V : Type} (k k' : string) (v : V) (d : dict V) :
  k <> k' -> dict_get k (dict_set k' v d) = dict_get k d.
Proof.
  intros Hne. induction d as [|[k0 v0] d IH]; simpl.
  - apply String.eqb_neq in Hne. now rewrite Hne.
  - destruct (String.eqb_spec k' k0) as [-> | Hne0]; simpl.
    + apply String.eqb_neq in Hne. now rewrite Hne.
    + destruct (String.eqb k k0); [reflexivity | exact IH].
Qed.

Lemma dict_set_keys {V : Type} (k : string) (v : V) (d : dict V) :
  keys (dict_set k v d)
  = if existsb (String.eqb k) (keys d) then keys d else keys d ++ [k].
Proof.
  induction d as [|[k' v'] d IH]; simpl; [reflexivity|].
  destruct (String.eqb_spec k k') as [-> | Hne]; simpl; [reflexivity|].
  rewrite IH. destruct (existsb _ (keys d)); reflexivity.
Qed.

(** The first loop leaves under each name the share of its last entry. *)
Lemma store_loop_get (total : num) ps (units : Z) l d d' (k : string) :
  foldM (store_cost_share total ps units) l d = Ok d' ->
  dict_get k d' = match last_named k l with
                  | Some q => cost_share total ps units q
                  | None => dict_get k d
                  end.
Proof.
  revert d; induction l as [|p l IH]; simpl; intros d H.
  - now injection H as <-.
  - apply bind_Ok in H as (d1 & H1 & H).
    unfold store_cost_share in H1.
    apply bind_Ok in H1 as (c & Hc & H1). injection H1 as <-.
    rewrite (IH _ H). destruct (last_named k l) as [q|]; [reflexivity|].
    destruct (String.eqb_spec (name p) k) as [<- | Hne].
    + now rewrite dict_get_set_same.
    + apply dict_get_set_other. congruence.
Qed.

Lemma store_loop_key_list (total : num) ps (units : Z) l d d' :
  foldM (store_cost_share total ps units) l d = Ok d' ->
  keys d' = fold_left (fun seen k => if existsb (String.eqb k) seen
                                     then seen else seen ++ [k])
                      (map name l) (keys d).
Proof.
  revert d; induction l as [|p l IH]; simpl; intros d H.
  - now injection H as <-.
  - apply bind_Ok in H as (d1 & H1 & H).
    unfold store_cost_share in H1.
    apply bind_Ok in H1 as (c & Hc & H1). injection H1 as <-.
    rewrite (IH _ H), dict_set_keys. reflexivity.
Qed.

Lemma occurrences_cons (k : string) p l :
  occurrences k (p :: l)
  = if String.eqb (name p) k then S (occurrences k l) else occurrences k l.
Proof.
  unfold occurrences. simpl. destruct (String.eqb (name p) k); reflexivity.
Qed.

(** The second loop adds [extra] to a value once for every entry that
    carries its name. *)
Lemma add_loop_get (extra : num) l d d' (k : string) (v : num) :
  foldM (add_additional extra) l d = Ok d' ->
  dict_get k d = Ok v ->
  dict_get k d' = Ok (Nat.iter (occurrences k l) (fun x => add x extra) v).
Proof.
  revert d v; induction l as [|p l IH]; intros d v H Hk.
  - simpl in H. injection H as <-. exact Hk.
  - simpl in H. apply bind_Ok in H as (d1 & H1 & H).
    unfold add_additional in H1.
    apply bind_Ok in H1 as (w & Hw & H1). injection H1 as <-.
    rewrite occurrences_cons.
    destruct (String.eqb_spec (name p) k) as [Heq | Hne].
    + subst k. rewrite Hk in Hw. injection Hw as <-.
      rewrite Nat.iter_succ_r.
      apply (IH _ _ H). apply dict_get_set_same.
    + apply (IH _ _ H). rewrite dict_get_set_other by congruence. exact Hk.
Qed.

Lemma round_loop_get d d' (k : string) (v : num) :
  mapM round_share d = Ok d' ->
  dict_get k d = Ok v ->
  exists r, quantize v = Ok r /\ dict_get k d' = Ok r.
Proof.
  revert d'; induction d as [|[k0 v0] d IH]; simpl; intros d' H Hk; [discriminate|].
  apply bind_Ok in H as ([k1 r1] & H1 & H).
  apply bind_Ok in H as (d1 & Hd1 & H). injection H as <-.
  unfold round_share in H1. simpl in H1.
  apply bind_Ok in H1 as (r & Hr & H1). injection H1 as <- <-.
  simpl. destruct (String.eqb k k0).
  - injection Hk as <-. eauto.
  - now apply IH.
Qed.

Lemma round_loop_keys d d' :
  mapM round_share d = Ok d' -> keys d' = keys d.
Proof.
  revert d'; induction d as [|[k0 v0] d IH]; simpl; intros d' H.
  - now injection H as <-.
  - apply bind_Ok in H as ([k1 r1] & H1 & H).
    apply bind_Ok in H as (d1 & Hd1 & H). injection H as <-.
    unfold round_share in H1. simpl in H1.
    apply bind_Ok in H1 as (r & Hr & H1). injection H1 as <- <-.
    simpl. f_equal. now apply IH.
Qed.

Lemma last_named_Some (k : string) l q :
  last_named k l = Some q -> In q l /\ name q = k.
Proof.
  induction l as [|p l IH]; simpl; [discriminate|].
  destruct (last_named k l) as [q'|].
  - intros [= <-]. destruct (IH eq_refl). auto.
  - destruct (String.eqb_spec (name p) k); [|discriminate].
    intros [= <-]. auto.
Qed.

Lemma last_named_In (k : string) l p :
  In p l -> name p = k -> exists q, last_named k l = Some q.
Proof.
  induction l as [|p0 l IH]; simpl; [contradiction|].
  intros [-> | Hin] Hk.
  - destruct (last_named k l) as [q|]; [eauto|].
    rewrite Hk, String.eqb_refl. eauto.
  - destruct (IH Hin Hk) as (q & ->). eauto.
Qed.

End Namesakes.

Section NamesakeTheorems.

Lemma first_occurrences_from (names seen : list string) :
  NoDup seen ->
  let r := fold_left (fun seen k => if existsb (String.eqb k) seen
                                    then seen else seen ++ [k]) names seen in
  NoDup r /\
  (forall k, In k r <-> In k seen \/ In k names) /\
  (List.length r <= List.length seen + List.length names)%nat.
Proof.
  revert seen; induction names as [|k names IH]; simpl; intros seen Hnd.
  - repeat split; auto; [tauto | lia].
  - destruct (existsb (String.eqb k) seen) eqn:Hk.
    + destruct (IH seen Hnd) as (H1 & H2 & H3). repeat split; auto; [| |lia].
      * intros Hin. apply H2 in Hin. tauto.
      * intros [Hin | [<- | Hin]]; apply H2; auto.
        left. apply existsb_exists in Hk as (k' & Hin & Heq).
        apply String.eqb_eq in Heq. now subst.
    + assert (Hfresh : ~ In k seen).
      { intros Hin. apply Bool.not_true_iff_false in Hk. apply Hk.
        apply existsb_exists. exists k. split; [assumption | apply String.eqb_refl]. }
      destruct (IH (seen ++ [k])) as (H1 & H2 & H3).
      { apply NoDup_app; [assumption | repeat constructor; auto |].
        intros x Hx [<- | []]. contradiction. }
      rewrite length_app in H3. simpl in H3.
      repeat split; auto; [| |lia].
      * intros Hin. apply H2 in Hin. rewrite in_app_iff in Hin. simpl in Hin. tauto.
      * intros Hin. apply H2. rewrite in_app_iff. simpl. tauto.
Qed.

(** X1. Whatever the names, the dictionary [even_split_expenses] returns has
    one key per distinct name, in the order of first occurrence: never more
    entries than participants, and fewer as soon as a name repeats. *)
Theorem even_split_keys_are_first_occurrences (A : Arith) (total : num)
    (ps : list participant) (es : dict num) (d : dict num) :
  even_split_expenses total ps es = Ok d ->
  keys d = first_occurrences (map name ps) /\
  NoDup (keys d) /\
  (forall k, In k (keys d) <-> In k (map name ps)) /\
  (List.length d <= List.length ps)%nat /\
  (List.length d = List.length ps -> NoDup (map name ps)).
Proof.
  intros H.
  assert (Hkeys : keys d = first_occurrences (map name ps)).
  { unfold even_split_expenses in H.
    apply bind_Ok in H as (d1 & H1 & H).
    apply bind_Ok in H as (extra & Hx & H).
    apply bind_Ok in H as (d2 & H2 & H).
    apply round_loop_keys in H. rewrite H.
    destruct (add_loop_defined extra ps d1) as (d2' & H2' & Hk2).
    { intros p Hp. eapply store_loop_keys; [exact H1|]. right. now apply in_map. }
    rewrite H2 in H2'. injection H2' as <-. rewrite Hk2.
    now rewrite (store_loop_key_list _ _ _ _ _ _ H1). }
  destruct (first_occurrences_from (map name ps) [] (NoDup_nil _)) as (Hnd & Hin & Hlen).
  fold (first_occurrences (map name ps)) in Hnd, Hin, Hlen.
  rewrite <- Hkeys in Hnd, Hin, Hlen.
  assert (Hl : List.length d = List.length (keys d)) by (unfold keys; now rewrite length_map).
  rewrite length_map in Hlen. simpl in Hlen.
  repeat split; auto.
  - intros Hk. apply Hin in Hk. simpl in Hk. tauto.
  - intros Hk. apply Hin. auto.
  - lia.
  - intros Heq.
    apply (NoDup_incl_NoDup (l := keys d)); [exact Hnd | | ].
    + rewrite length_map. lia.
    + intros k Hk. apply Hin in Hk. simpl in Hk. tauto.
Qed.

(** X2. The entry of a name is the rounding of one amount: the accommodation
    share of the last participant with that name, plus the per-person
    additional once for every participant with that name. *)
Theorem even_split_entry_of_a_name (A : Arith) (total : num)
    (ps : list participant) (es : dict num) (d : dict num) (p : participant) :
  even_split_expenses total ps es = Ok d ->
  In p ps ->
  exists q c extra r,
    last_named (name p) ps = Some q /\
    cost_share total ps (total_night_units ps) q = Ok c /\
    per_person_additional (total_shared_expenses es) ps = Ok extra /\
    quantize (Nat.iter (occurrences (name p) ps) (fun x => add x extra) c) = Ok r /\
    dict_get (name p) d = Ok r.
Proof.
  intros H Hp. unfold even_split_expenses in H.
  apply bind_Ok in H as (d1 & H1 & H).
  apply bind_Ok in H as (extra & Hx & H).
  apply bind_Ok in H as (d2 & H2 & H).
  destruct (last_named_In (name p) ps p Hp eq_refl) as (q & Hq).
  destruct (dict_get_present (name p) d1) as (c & Hc & _).
  { eapply store_loop_keys; [exact H1|]. right. now apply in_map. }
  pose proof (store_loop_get _ _ _ _ _ _ (name p) H1) as Hget.
  rewrite Hq, Hc in Hget.
  pose proof (add_loop_get _ _ _ _ _ _ H2 Hc) as Hget2.
  destruct (round_loop_get _ _ _ _ H Hget2) as (r & Hr & Hd).
  exists q, c, extra, r. auto.
Qed.

End NamesakeTheorems.

(** ** Amounts in exact arithmetic *)

Section ExactAmounts.

Local Existing Instance QArith.
Local Open Scope Q_scope.

Implicit Types (ps l : list participant) (p : participant) (es : dict Q).

Lemma Qnum_neg_iff (x : Q) : (Qnum x <? 0)%Z = true <-> x < 0.
Proof.
  rewrite Z.ltb_lt. unfold Qlt. simpl. lia.
Qed.

Lemma half_up_cents_0_le (x : Q) : (0 <= half_up_cents x)%Z.
Proof.
  unfold half_up_cents. change 0%Z with (Qfloor 0).
  apply Qfloor_resp_le. pose proof (Qabs_nonneg x). lra.
Qed.

Lemma cents_as_product (c : Z) : c # 100 == inject_Z c * (1 # 100).
Proof.
  unfold Qeq. simpl. lia.
Qed.

(** What rounding returns, by the sign of the amount. *)
Lemma quantize_Q_value (x r : Q) :
  quantize_Q x = Ok r ->
  (0 <= x -> r == inject_Z (half_up_cents x) * (1 # 100) /\ Qabs x == x) /\
  (x < 0 -> r == - (inject_Z (half_up_cents x) * (1 # 100)) /\ Qabs x == - x).
Proof.
  intros H. apply quantize_Q_Ok in H as [-> _]. split; intros Hx.
  - destruct (Z.ltb_spec (Qnum x) 0) as [Hn | Hn].
    + exfalso. apply Z.ltb_lt, Qnum_neg_iff in Hn. lra.
    + split; [apply cents_as_product | now apply Qabs_pos].
  - apply Qnum_neg_iff in Hx as Hn. rewrite Hn. split.
    + rewrite cents_as_product, inject_Z_opp. ring.
    + apply Qabs_neg. lra.
Qed.

(** Rounding keeps the order of two amounts. *)
Lemma quantize_Q_monotone (x y rx ry : Q) :
  x <= y -> quantize_Q x = Ok rx -> quantize_Q y = Ok ry -> rx <= ry.
Proof.
  intros Hxy Hx Hy.
  pose proof (quantize_Q_value x rx Hx) as [Hxp Hxn].
  pose proof (quantize_Q_value y ry Hy) as [Hyp Hyn].
  pose proof (half_up_cents_0_le x) as Hcx. pose proof (half_up_cents_0_le y) as Hcy.
  rewrite Zle_Qle in Hcx, Hcy. change (inject_Z 0) with 0 in Hcx, Hcy.
  destruct (Qlt_le_dec x 0) as [Hx0 | Hx0], (Qlt_le_dec y 0) as [Hy0 | Hy0].
  - destruct (Hxn Hx0) as [-> Hax]. destruct (Hyn Hy0) as [-> Hay].
    assert (Hc : (half_up_cents y <= half_up_cents x)%Z).
    { unfold half_up_cents. apply Qfloor_resp_le. rewrite Hax, Hay. lra. }
    rewrite Zle_Qle in Hc. lra.
  - destruct (Hxn Hx0) as [-> _]. destruct (Hyp Hy0) as [-> _]. lra.
  - lra.
  - destruct (Hxp Hx0) as [-> Hax]. destruct (Hyp Hy0) as [-> Hay].
    assert (Hc : (half_up_cents x <= half_up_cents y)%Z).
    { unfold half_up_cents. apply Qfloor_resp_le. rewrite Hax, Hay. lra. }
    rewrite Zle_Qle in Hc. lra.
Qed.

End ExactAmounts.

Section ExactAmountTheorems.

Local Existing Instance QArith.
Local Open Scope Q_scope.

Implicit Types (ps l : list participant) (p : participant) (es : dict Q).

Lemma Forall2_combine_In {X Y : Type} (R : X -> Y -> Prop) (l : list X) (l' : list Y)
    (x : X) (y : Y) :
  Forall2 R l l' -> In (x, y) (combine l l') -> R x y.
Proof.
  induction 1 as [|a b l l' Hab _ IH]; simpl; [contradiction|].
  intros [[= <- <-] | Hin]; auto.
Qed.

(** X5. In a list with positive night units, a participant with zero nights
    owes no accommodation: the total owed is the per-person additional,
    rounded. *)
Theorem zero_nights_owe_only_the_additional (total : Q) ps es (rows : list (row Q)) :
  total_night_units ps <> 0%Z ->
  breakdown_rows total ps es = Ok rows ->
  Forall2 (fun p r => nights_stayed p = 0%Z ->
                      Accommodation_Share r == 0 /\
                      quantize_Q (Additional_Share r) = Ok (Total_Owed r))
          ps rows.
Proof.
  intros Hu Hrows. apply (breakdown_rows_Ok (A:=QArith)) in Hrows.
  eapply Forall2_impl; [|exact Hrows].
  intros p r (_ & _ & Hc & _ & Hq) Hz.
  rewrite cost_share_pro_rata in Hc by exact Hu. simpl in Hc.
  injection Hc as Hc. rewrite Hz in Hc.
  assert (H0 : Accommodation_Share r == 0).
  { replace (Accommodation_Share r)
      with (total * (inject_Z 0 / inject_Z (total_night_units ps))) by exact Hc.
    unfold Qdiv. change (inject_Z 0) with 0. ring. }
  split; [exact H0|].
  change (quantize_Q (Accommodation_Share r + Additional_Share r) = Ok (Total_Owed r)) in Hq.
  rewrite <- Hq. apply quantize_Q_compat. rewrite H0. ring.
Qed.

(** X6. With a non-negative cost, a participant who stayed at least as many
    nights as another never owes less, before and after rounding. *)
Theorem more_nights_never_owe_less (total : Q) ps es (rows : list (row Q))
    (p q : participant) (r r' : row Q) :
  0 <= total ->
  breakdown_rows total ps es = Ok rows ->
  In (p, r) (combine ps rows) ->
  In (q, r') (combine ps rows) ->
  (nights_stayed p <= nights_stayed q)%Z ->
  Accommodation_Share r <= Accommodation_Share r' /\
  Additional_Share r = Additional_Share r' /\
  Total_Owed r <= Total_Owed r'.
Proof.
  intros Ht Hrows Hp Hq Hle. apply (breakdown_rows_Ok (A:=QArith)) in Hrows.
  destruct (Forall2_combine_In _ _ _ _ _ Hrows Hp) as (_ & _ & Hc & Hx & Hr).
  destruct (Forall2_combine_In _ _ _ _ _ Hrows Hq) as (_ & _ & Hc' & Hx' & Hr').
  assert (Hadd : Additional_Share r = Additional_Share r').
  { rewrite Hx in Hx'. injection Hx' as Hx'. exact Hx'. }
  assert (Hacc : Accommodation_Share r <= Accommodation_Share r').
  { destruct (Z.eq_dec (total_night_units ps) 0) as [Hu | Hu].
    - rewrite Hu in Hc, Hc'.
      assert (Hne : ps <> []) by (intros ->; contradiction).
      rewrite cost_share_equal_split in Hc, Hc' by exact Hne.
      injection Hc as Hc. injection Hc' as Hc'.
      replace (Accommodation_Share r) with (total / inject_Z (len ps)) by exact Hc.
      replace (Accommodation_Share r') with (total / inject_Z (len ps)) by exact Hc'.
      apply Qle_refl.
    - rewrite cost_share_pro_rata in Hc, Hc' by exact Hu. simpl in Hc, Hc'.
      injection Hc as Hc. injection Hc' as Hc'.
      replace (Accommodation_Share r)
        with (total * (inject_Z (nights_stayed p) / inject_Z (total_night_units ps)))
        by exact Hc.
      replace (Accommodation_Share r')
        with (total * (inject_Z (nights_stayed q) / inject_Z (total_night_units ps)))
        by exact Hc'.
      pose proof (total_night_units_nonneg ps) as Hnn.
      assert (Hpos : 0 < inject_Z (total_night_units ps)).
      { change 0 with (inject_Z 0). rewrite <- Zlt_Qlt. lia. }
      assert (Hab : inject_Z (nights_stayed p) <= inject_Z (nights_stayed q))
        by (now rewrite <- Zle_Qle).
      assert (Hi : 0 <= / inject_Z (total_night_units ps))
        by (apply Qlt_le_weak, Qinv_lt_0_compat, Hpos).
      unfold Qdiv.
      assert (Hm : inject_Z (nights_stayed p) * / inject_Z (total_night_units ps)
                   <= inject_Z (nights_stayed q) * / inject_Z (total_night_units ps))
        by nra.
      nra. }
  repeat split; try assumption.
  eapply quantize_Q_monotone; [|exact Hr|exact Hr'].
  change (Accommodation_Share r + Additional_Share r
          <= Accommodation_Share r' + Additional_Share r').
  rewrite Hadd. lra.
Qed.

End ExactAmountTheorems.

Section ExactSigns.

Local Existing Instance QArith.
Local Open Scope Q_scope.

Implicit Types (ps l : list participant) (p : participant) (es : dict Q).

Lemma Forall2_In_left {X Y : Type} (R : X -> Y -> Prop) (l : list X) (l' : list Y) :
  Forall2 R l l' -> Forall2 (fun x y => In x l /\ R x y) l l'.
Proof.
  induction 1 as [|x y l l' Hxy _ IH]; constructor.
  - split; [now left | assumption].
  - eapply Forall2_impl; [|exact IH]. intros a b [Ha Hab]. split; [now right | assumption].
Qed.

(** X8. With a non-negative cost, non-negative nights and expenses whose sum
    is not negative, no row charges more accommodation than the whole cost
    and nothing in a row is negative. *)
Theorem nobody_owes_a_negative_amount (total : Q) ps es (rows : list (row Q)) :
  0 <= total ->
  Forall (fun p => (0 <= nights_stayed p)%Z) ps ->
  0 <= total_shared_expenses es ->
  breakdown_rows total ps es = Ok rows ->
  Forall (fun r => 0 <= Accommodation_Share r <= total /\
                   0 <= Additional_Share r /\
                   0 <= Total_Owed r) rows.
Proof.
  intros Ht Hn Hs Hrows. apply (breakdown_rows_Ok (A:=QArith)) in Hrows.
  apply Forall2_In_left in Hrows.
  eapply Forall2_Forall_right; [|exact Hrows].
  intros p r (Hin & _ & _ & Hc & Hx & Hq).
  assert (Hne : ps <> []) by (intros ->; contradiction).
  assert (Hacc : 0 <= Accommodation_Share r <= total)
    by exact (cost_share_bounds total ps p _ Ht Hn Hin Hc).
  rewrite per_person_additional_defined, (len_pos ps Hne) in Hx.
  injection Hx as Hx.
  assert (Hadd : 0 <= Additional_Share r).
  { replace (Additional_Share r)
      with (total_shared_expenses es / inject_Z (len ps)) by exact Hx.
    apply Qle_shift_div_l; [now apply inject_len_pos | lra]. }
  repeat split; try apply Hacc; try exact Hadd.
  change (quantize_Q (Accommodation_Share r + Additional_Share r) = Ok (Total_Owed r)) in Hq.
  destruct (quantize_Q_value _ _ Hq) as [Hpos _].
  destruct Hpos as [Hr _]; [destruct Hacc; lra|].
  rewrite Hr.
  pose proof (half_up_cents_0_le (Accommodation_Share r + Additional_Share r)) as Hc0.
  rewrite Zle_Qle in Hc0. change (inject_Z 0) with 0 in Hc0.
  set (c := inject_Z (half_up_cents (Accommodation_Share r + Additional_Share r))) in *.
  clearbody c. lra.
Qed.

End ExactSigns.

(** ** The order of the list and the whole computation *)

Section OrderAndCompute.

Context {A : Arith}.

Implicit Types (ps l : list participant) (p : participant) (es : dict num).

Lemma total_night_units_Permutation ps ps' :
  Permutation ps ps' -> total_night_units ps = total_night_units ps'.
Proof.
  induction 1 as [|p l l' _ IH|p q l|l l' l'' _ IH1 _ IH2].
  - reflexivity.
  - rewrite !total_night_units_cons. lia.
  - rewrite !total_night_units_cons. lia.
  - congruence.
Qed.

Lemma breakdown_row_same_length (total : num) ps ps' (units : Z) (shared : num) p :
  len ps = len ps' ->
  breakdown_row total ps units shared p = breakdown_row total ps' units shared p.
Proof.
  intros Hlen. unfold breakdown_row, cost_share, per_person_additional.
  now rewrite Hlen.
Qed.

Lemma mapM_defined_on {X Y : Type} (f : X -> result Y) (l : list X) (ys : list Y) :
  mapM f l = Ok ys -> forall x, In x l -> exists y, f x = Ok y.
Proof.
  revert ys; induction l as [|a l IH]; simpl; intros ys H x Hx; [contradiction|].
  apply bind_Ok in H as (b & Hb & H). apply bind_Ok in H as (bs & Hbs & _).
  destruct Hx as [<- | Hx]; [eauto | eapply IH; eassumption].
Qed.

Lemma mapM_as_map {X Y : Type} (f : X -> result Y) (g : X -> Y) (l : list X) :
  (forall x, In x l -> f x = Ok (g x)) -> mapM f l = Ok (map g l).
Proof.
  induction l as [|a l IH]; simpl; intros H; [reflexivity|].
  rewrite (H a (or_introl eq_refl)), IH by (intros x Hx; apply H; now right).
  reflexivity.
Qed.

(** X7. The order of the participants does not matter to anyone's row: there
    is one row for each participant, whatever the order, and the table of a
    reordered list holds these rows in the order of that list, in any
    arithmetic. *)
Theorem reordering_participants_reorders_rows (total : num) ps es
    (rows : list (row num)) :
  breakdown_rows total ps es = Ok rows ->
  exists row_for : participant -> row num,
    rows = map row_for ps /\
    forall ps', Permutation ps ps' ->
      breakdown_rows total ps' es = Ok (map row_for ps') /\
      Permutation rows (map row_for ps').
Proof.
  intros Hrows.
  set (step := breakdown_row total ps (total_night_units ps) (total_shared_expenses es)).
  set (row_for := fun p => match step p with
                           | Ok r => r
                           | Raise _ => {| Participant := name p;
                                           Nights_Stayed := nights_stayed p;
                                           Accommodation_Share := total;
                                           Additional_Share := total;
                                           Total_Owed := total |}
                           end).
  assert (Hstep : forall p, In p ps -> step p = Ok (row_for p)).
  { intros p Hp. destruct (mapM_defined_on _ _ _ Hrows p Hp) as (r & Hr).
    unfold row_for. fold step in Hr. now rewrite Hr. }
  assert (Hmap : rows = map row_for ps).
  { unfold breakdown_rows in Hrows. fold step in Hrows.
    rewrite (mapM_as_map step row_for ps Hstep) in Hrows. congruence. }
  exists row_for. split; [exact Hmap|]. intros ps' HP. split.
  - unfold breakdown_rows.
    rewrite <- (total_night_units_Permutation ps ps' HP).
    assert (Hlen : len ps = len ps')
      by (unfold len; f_equal; now apply Permutation_length).
    apply mapM_as_map. intros p Hp.
    rewrite <- (breakdown_row_same_length _ ps ps') by exact Hlen.
    apply Hstep. eapply Permutation_in; [apply Permutation_sym; exact HP | exact Hp].
  - rewrite Hmap. now apply Permutation_map.
Qed.

(** X9. With pairwise distinct names the "Compute Splits" action returns
    exactly when the breakdown loop does, and what it returns is the table
    together with its name and [Total Owed] columns as a dictionary. *)
Theorem compute_splits_with_distinct_names (total : num) ps es
    (d : dict num) (rows : list (row num)) :
  NoDup (map name ps) ->
  (compute_splits total ps es = Ok (d, rows) <->
   breakdown_rows total ps es = Ok rows /\ d = map owed_entry rows).
Proof.
  intros Hnd. unfold compute_splits. split.
  - intros H. apply bind_Ok in H as (d0 & Hd0 & H).
    apply bind_Ok in H as (rows0 & Hrows0 & H). injection H as <- <-.
    split; [exact Hrows0|].
    destruct (rows_of_even_split total ps es d0 Hnd Hd0) as (rows1 & H1 & ->).
    congruence.
  - intros [Hrows ->].
    rewrite (even_split_of_rows total ps es rows Hnd Hrows). simpl.
    now rewrite Hrows.
Qed.

End OrderAndCompute.

(** ** Managing the participants *)

Section ParticipantManagement.

Implicit Types (w : participant_widgets) (l : list participant).

Lemma edit_participants_seq w (i : nat) l :
  edit_participants w i l
  = (map (entered w) (seq i (List.length l)),
     filter (remove_participant_pressed w) (seq i (List.length l))).
Proof.
  revert i; induction l as [|p l IH]; intros i; simpl; [reflexivity|].
  rewrite IH. unfold entered at 2.
  destruct (remove_participant_pressed w i); reflexivity.
Qed.

Lemma insert_descending_smallest (i : nat) (l : list nat) :
  Forall (fun j => (i < j)%nat) l -> insert_descending i l = (l ++ [i])%list.
Proof.
  induction 1 as [|j l Hj _ IH]; simpl; [reflexivity|].
  destruct (Nat.ltb_spec j i); [lia | now rewrite IH].
Qed.

(** The collected indices increase, so sorting them in reverse reverses them. *)
Lemma sorted_reverse_pressed (f : nat -> bool) (a n : nat) :
  sorted_reverse (filter f (seq a n)) = List.rev (filter f (seq a n)).
Proof.
  revert a; induction n as [|n IH]; intros a; simpl; [reflexivity|].
  destruct (f a); [|apply IH].
  simpl. unfold sorted_reverse in *. rewrite IH.
  apply insert_descending_smallest.
  apply Forall_forall. intros j Hj. apply in_rev, filter_In in Hj as [Hj _].
  apply in_seq in Hj. lia.
Qed.

Lemma list_del_app {T : Type} (i : nat) (l r s : list T) :
  list_del i l = Some r -> list_del i (l ++ s) = Some (r ++ s)%list.
Proof.
  revert i r; induction l as [|x l IH]; intros [|i] r; simpl; try discriminate.
  - now intros [= <-].
  - destruct (list_del i l) as [r'|] eqn:Hd; simpl; [|discriminate].
    intros [= <-]. now rewrite (IH i r' Hd).
Qed.

Lemma list_del_last {T : Type} (l : list T) (x : T) :
  list_del (List.length l) (l ++ [x]) = Some l.
Proof.
  induction l as [|y l IH]; simpl; [reflexivity|]. now rewrite IH.
Qed.

Lemma delete_indices_app {T : Type} (idxs : list nat) (l r s : list T) :
  delete_indices idxs l = Completed r ->
  delete_indices idxs (l ++ s) = Completed (r ++ s)%list.
Proof.
  revert l; induction idxs as [|i idxs IH]; intros l; simpl.
  - now intros [= <-].
  - destruct (list_del i l) as [l'|] eqn:Hd; [|discriminate].
    intros H. rewrite (list_del_app _ _ _ s Hd). now apply IH.
Qed.

(** Deleting the pressed indices from the highest down never meets an index
    out of range and leaves the rows that were not pressed, in order. *)
Lemma delete_pressed_rows {T : Type} (f : nat -> bool) (g : nat -> T) (n : nat) :
  delete_indices (List.rev (filter f (seq 0 n))) (map g (seq 0 n))
  = Completed (map g (filter (fun i => negb (f i)) (seq 0 n))).
Proof.
  induction n as [|n IH]; [reflexivity|].
  rewrite seq_S, !filter_app, !map_app, rev_app_distr. simpl.
  destruct (f n); simpl.
  - replace n with (List.length (map g (seq 0 n))) at 1
      by (now rewrite length_map, length_seq).
    rewrite list_del_last, app_nil_r. exact IH.
  - apply delete_indices_app. exact IH.
Qed.

Lemma manage_participants_kept w (add_pressed : bool) l :
  manage_participants w add_pressed l
  = Completed
      (let kept := map (entered w)
                       (filter (fun i => negb (remove_participant_pressed w i))
                               (seq 0 (List.length l))) in
       if add_pressed then add_participant kept else kept).
Proof.
  unfold manage_participants.
  rewrite edit_participants_seq, sorted_reverse_pressed, delete_pressed_rows.
  reflexivity.
Qed.

(** X10. Removing participants by index, from the highest index down, never
    raises [IndexError] and leaves exactly the rows whose Remove button was
    not pressed, in their order and with the values typed in; Add then
    appends one [Person{len+1}] with one night. *)
Theorem pressed_participants_are_removed w (add_pressed : bool) l :
  exists kept,
    kept = map (entered w)
               (filter (fun i => negb (remove_participant_pressed w i))
                       (seq 0 (List.length l))) /\
    (List.length kept <= List.length l)%nat /\
    manage_participants w add_pressed l
    = Completed (if add_pressed
                 then (kept ++ [{| name := person_name (List.length kept + 1);
                                   nights_stayed := 1 |}])%list
                 else kept).
Proof.
  eexists. split; [reflexivity|]. split.
  - rewrite length_map.
    etransitivity; [apply filter_length_le|]. now rewrite length_seq.
  - rewrite manage_participants_kept. reflexivity.
Qed.

(** X11. When the number widgets return nights between 0 and 365, as their
    bounds say, every participant the session holds after the run has
    between 0 and 365 nights: the lists handed to the splitter have no
    negative nights. *)
Theorem managed_nights_stay_in_range w (add_pressed : bool) l :
  (forall i, 0 <= nights_input w i <= 365) ->
  exists l', manage_participants w add_pressed l = Completed l' /\
             Forall (fun p => 0 <= nights_stayed p <= 365) l'.
Proof.
  intros Hw. rewrite manage_participants_kept. eexists. split; [reflexivity|].
  simpl.
  assert (Hk : Forall (fun p => 0 <= nights_stayed p <= 365)
                 (map (entered w)
                      (filter (fun i => negb (remove_participant_pressed w i))
                              (seq 0 (List.length l))))).
  { apply Forall_forall. intros p Hp. apply in_map_iff in Hp as (i & <- & _).
    apply Hw. }
  destruct add_pressed; [|exact Hk].
  unfold add_participant. apply Forall_app. split; [exact Hk|].
  constructor; [simpl; lia | constructor].
Qed.

End ParticipantManagement.

(** ** The names Add gives *)

Section DefaultNames.

Implicit Types (l : list participant).

Lemma decimal_injective (a b : nat) : decimal a = decimal b -> a = b.
Proof.
  unfold decimal. intros H.
  apply (f_equal NilEmpty.uint_of_string) in H.
  rewrite !NilEmpty.usu in H. injection H as H.
  apply (f_equal Nat.of_uint) in H.
  now rewrite !DecimalNat.Unsigned.of_to in H.
Qed.

Lemma person_name_injective (a b : nat) : person_name a = person_name b -> a = b.
Proof.
  unfold person_name. simpl. intros H.
  injection H as H. now apply decimal_injective.
Qed.

Lemma NoDup_person_names (a n : nat) : NoDup (map person_name (seq a n)).
Proof.
  revert a; induction n as [|n IH]; intros a; simpl; constructor; [|apply IH].
  intros Hin. apply in_map_iff in Hin as (i & Hi & Hin).
  apply person_name_injective in Hi. apply in_seq in Hin. lia.
Qed.

Lemma entered_untouched l (i : nat) :
  entered (untouched l) i = nth i l {| name := ""; nights_stayed := 0 |}.
Proof.
  unfold entered, untouched. simpl.
  now destruct (nth i l _).
Qed.

Lemma map_nth_seq {T : Type} (l : list T) (d : T) (a : nat) :
  map (fun i => nth i l d) (seq a (List.length l - a)) = skipn a l.
Proof.
  revert a; induction l as [|x l IH]; intros a; simpl.
  - now destruct a.
  - destruct a as [|a]; simpl.
    + f_equal. rewrite <- seq_shift, map_map. simpl.
      specialize (IH 0%nat). rewrite Nat.sub_0_r in IH. simpl in IH. exact IH.
    + rewrite <- (IH a). rewrite <- seq_shift, map_map. reflexivity.
Qed.

Lemma untouched_rows l :
  map (entered (untouched l)) (seq 0 (List.length l)) = l.
Proof.
  rewrite (map_ext _ _ (entered_untouched l)).
  pose proof (map_nth_seq l {| name := ""; nights_stayed := 0 |} 0) as H.
  rewrite Nat.sub_0_r in H. exact H.
Qed.

Lemma filter_all_seq (f : nat -> bool) (a n : nat) :
  (forall i, f i = true) -> filter f (seq a n) = seq a n.
Proof.
  intros Hf. induction (seq a n) as [|i s IH]; simpl; [reflexivity|].
  now rewrite Hf, IH.
Qed.

(** X12. In a run in which nothing is typed or removed, Add appends
    [Person{len+1}] with one night and changes nothing else; when the names
    are the default ones, [Person1] to [Person{n}], they stay so and stay
    pairwise distinct. *)
Theorem adding_keeps_default_names_distinct l (n : nat) :
  map name l = map person_name (seq 1 n) ->
  manage_participants (untouched l) true l
  = Completed (l ++ [{| name := person_name (S n); nights_stayed := 1 |}])%list /\
  map name (l ++ [{| name := person_name (S n); nights_stayed := 1 |}])%list
  = map person_name (seq 1 (S n)) /\
  NoDup (map name (l ++ [{| name := person_name (S n); nights_stayed := 1 |}])%list).
Proof.
  intros Hnames.
  assert (Hlen : List.length l = n).
  { apply (f_equal (@List.length string)) in Hnames.
    now rewrite !length_map, length_seq in Hnames. }
  assert (Hn : map name (l ++ [{| name := person_name (S n); nights_stayed := 1 |}])%list
               = map person_name (seq 1 (S n))).
  { rewrite map_app, Hnames, seq_S, map_app. reflexivity. }
  split; [|split; [exact Hn|]].
  - rewrite manage_participants_kept. simpl.
    rewrite filter_all_seq by reflexivity.
    rewrite untouched_rows. unfold add_participant.
    rewrite Hlen, Nat.add_1_r. reflexivity.
  - rewrite Hn. apply NoDup_person_names.
Qed.

Lemma filter_not_first (n : nat) :
  filter (fun i => negb (Nat.eqb i 0)) (seq 0 (S n)) = seq 1 n.
Proof.
  simpl. apply forallb_filter_id. apply forallb_forall.
  intros i Hi. apply in_seq in Hi. destruct i; [lia | reflexivity].
Qed.

(** X13. Removing the first row and pressing Add in the same run gives the
    new participant the name of the last one: from the default names
    [Person1] to [Person{n+2}] the session is left with [Person{n+2}]
    twice, the case in which [even_split_expenses] merges two entries. *)
Theorem remove_then_add_repeats_a_name l (n : nat) :
  map name l = map person_name (seq 1 (S (S n))) ->
  exists l',
    manage_participants (first_removed l) true l = Completed l' /\
    map name l' = (map person_name (seq 2 (S n)) ++ [person_name (S (S n))])%list /\
    ~ NoDup (map name l').
Proof.
  intros Hnames.
  assert (Hlen : List.length l = S (S n)).
  { apply (f_equal (@List.length string)) in Hnames.
    now rewrite !length_map, length_seq in Hnames. }
  set (kept := map (entered (first_removed l))
                   (filter (fun i => negb (remove_participant_pressed
                                             (first_removed l) i))
                           (seq 0 (List.length l)))).
  assert (Hres : manage_participants (first_removed l) true l
                 = Completed (add_participant kept))
    by (rewrite manage_participants_kept; reflexivity).
  assert (Hkept : map name kept = map person_name (seq 2 (S n))).
  { unfold kept. rewrite Hlen. unfold first_removed at 2. simpl remove_participant_pressed.
    rewrite filter_not_first, map_map.
    change (seq 2 (S n)) with (seq 2 (S (S n) - 1)).
    rewrite <- (seq_shift (S (S n) - 1) 1), map_map.
    apply map_ext_in. intros i Hi. apply in_seq in Hi.
    unfold entered, first_removed, untouched. simpl name.
    change (name (nth i l {| name := ""; nights_stayed := 0 |}))
      with ((fun p => name p) (nth i l {| name := ""; nights_stayed := 0 |})).
    rewrite <- (map_nth (fun p => name p)). simpl.
    rewrite (nth_indep _ _ (person_name 0))
      by (rewrite length_map; lia).
    change (map (fun p => name p) l) with (map name l). rewrite Hnames.
    rewrite (map_nth person_name). rewrite seq_nth by lia. reflexivity. }
  assert (Hklen : List.length kept = S n).
  { apply (f_equal (@List.length string)) in Hkept.
    now rewrite !length_map, length_seq in Hkept. }
  assert (Hall : map name (add_participant kept)
                 = (map person_name (seq 2 (S n)) ++ [person_name (S (S n))])%list).
  { unfold add_participant. rewrite map_app, Hkept, Hklen, Nat.add_1_r. reflexivity. }
  exists (add_participant kept). split; [exact Hres|]. split; [exact Hall|].
  rewrite Hall. intros Hnd. apply NoDup_remove_2 in Hnd. apply Hnd.
  rewrite app_nil_r. apply in_map. apply in_seq. lia.
Qed.

End DefaultNames.

(** ** Managing the shared expenses *)

Section ExpenseManagement.

Context {V : Type}.

Implicit Types (w : expense_widgets V) (d : dict V) (k : string).

Lemma dict_mem_In k d : dict_mem k d = true <-> In k (keys d).
Proof.
  unfold dict_mem. rewrite existsb_exists. split.
  - intros (k' & Hin & Heq). apply String.eqb_eq in Heq. now subst.
  - intros Hin. exists k. split; [assumption | apply String.eqb_refl].
Qed.

Lemma dict_get_del_other k k' d :
  k <> k' -> dict_get k (dict_del k' d) = dict_get k d.
Proof.
  intros Hne. induction d as [|[k0 v0] d IH]; simpl; [reflexivity|].
  destruct (String.eqb_spec k' k0) as [-> | Hne0]; simpl.
  - apply String.eqb_neq in Hne. now rewrite Hne.
  - destruct (String.eqb k k0); [reflexivity | exact IH].
Qed.

Lemma dict_del_keys k d :
  NoDup (keys d) ->
  keys (dict_del k d) = filter (fun k' => negb (String.eqb k' k)) (keys d).
Proof.
  induction d as [|[k0 v0] d IH]; simpl; intros Hnd; [reflexivity|].
  inversion Hnd as [|? ? Hk0 Hnd']; subst.
  destruct (String.eqb_spec k k0) as [-> | Hne].
  - rewrite String.eqb_refl. simpl.
    symmetry. apply forallb_filter_id. apply forallb_forall.
    intros k' Hk'. destruct (String.eqb_spec k' k0) as [-> | _]; [contradiction | reflexivity].
  - assert (Hne' : k0 <> k) by congruence.
    apply String.eqb_neq in Hne'. rewrite Hne'. simpl. f_equal. now apply IH.
Qed.

Lemma NoDup_filter {T : Type} (f : T -> bool) (l : list T) :
  NoDup l -> NoDup (filter f l).
Proof.
  induction 1 as [|x l Hx _ IH]; simpl; [constructor|].
  destruct (f x); [constructor|]; auto.
  intros Hin. apply filter_In in Hin. tauto.
Qed.

Lemma filter_twice {T : Type} (f g : T -> bool) (l : list T) :
  filter f (filter g l) = filter (fun x => g x && f x) l.
Proof.
  induction l as [|x l IH]; simpl; [reflexivity|].
  destruct (g x); simpl; [destruct (f x)|]; now rewrite IH.
Qed.

Lemma remove_expenses_spec (rems : list string) d :
  NoDup (keys d) ->
  keys (remove_expenses rems d)
  = filter (fun k => negb (existsb (String.eqb k) rems)) (keys d) /\
  (forall k, ~ In k rems -> dict_get k (remove_expenses rems d) = dict_get k d).
Proof.
  revert d; induction rems as [|r rems IH]; intros d Hnd; simpl.
  - split; [|reflexivity]. symmetry. apply forallb_filter_id.
    apply forallb_forall. reflexivity.
  - destruct (dict_mem r d) eqn:Hm.
    + destruct (IH (dict_del r d)) as [Hk Hg].
      { rewrite dict_del_keys by exact Hnd. now apply NoDup_filter. }
      split.
      * rewrite Hk, dict_del_keys by exact Hnd. rewrite filter_twice.
        apply filter_ext. intros k. now rewrite negb_orb.
      * intros k Hk'. rewrite Hg by tauto. apply dict_get_del_other.
        intros ->. tauto.
    + destruct (IH d Hnd) as [Hk Hg]. split.
      * rewrite Hk. apply filter_ext_in. intros k Hin.
        destruct (String.eqb_spec k r) as [-> | _]; [|reflexivity].
        apply dict_mem_In in Hin. congruence.
      * intros k Hk'. apply Hg. tauto.
Qed.

(** The loop runs through when every name widget holds a key of the
    dictionary: the keys stay, the renamed and the removed keys are
    collected, and each key holds the amount written under it last. *)
Lemma edit_expenses_completes w (todo : list string) d (rems : list string) :
  (forall k, In k todo -> In k (keys d)) ->
  (forall k, In k todo -> In (expense_name_input w k) (keys d)) ->
  exists d1 rems1,
    edit_expenses w todo d rems = Completed (d1, rems1) /\
    keys d1 = keys d /\
    (forall k, In k rems1 <->
               In k rems \/
               (In k todo /\ (remove_expense_pressed w k = true \/
                              expense_name_input w k <> k))) /\
    (forall k, dict_get k d1
               = match last_writer w k todo with
                 | Some j => Ok (expense_amount_input w j)
                 | None => dict_get k d
                 end).
Proof.
  revert d rems; induction todo as [|exp todo IH]; intros d rems Hkeys Hnames.
  - exists d, rems. simpl. repeat split; auto; tauto.
  - simpl.
    set (rems' := if remove_expense_pressed w exp then (rems ++ [exp])%list else rems).
    assert (Hrems' : forall k, In k rems' <->
                       In k rems \/ (k = exp /\ remove_expense_pressed w exp = true)).
    { intros k. unfold rems'. destruct (remove_expense_pressed w exp).
      - rewrite in_app_iff. simpl. intuition.
      - intuition discriminate. }
    destruct (String.eqb_spec (expense_name_input w exp) exp) as [Hsame | Hdiff].
    + assert (Hk1 : keys (dict_set exp (expense_amount_input w exp) d) = keys d)
        by (apply dict_set_keys_present, Hkeys; now left).
      destruct (IH (dict_set exp (expense_amount_input w exp) d) rems')
        as (d1 & rems1 & Hrun & Hk & Hr & Hg).
      { intros k Hk. rewrite Hk1. apply Hkeys. now right. }
      { intros k Hk. rewrite Hk1. apply Hnames. now right. }
      exists d1, rems1. split; [exact Hrun|]. split; [congruence|]. split.
      * intros k. rewrite Hr, Hrems'. simpl.
        split; intros H; intuition (subst; auto; try congruence).
      * intros k. rewrite Hg. destruct (last_writer w k todo); [reflexivity|].
        rewrite Hsame.
        destruct (String.eqb_spec exp k) as [<- | Hne].
        -- apply dict_get_set_same.
        -- apply dict_get_set_other. congruence.
    + assert (Hin : In (expense_name_input w exp) (keys d))
        by (apply Hnames; now left).
      apply dict_mem_In in Hin as Hm. rewrite Hm.
      assert (Hk1 : keys (dict_set (expense_name_input w exp)
                                   (expense_amount_input w exp) d) = keys d)
        by (now apply dict_set_keys_present).
      destruct (IH (dict_set (expense_name_input w exp) (expense_amount_input w exp) d)
                   (rems' ++ [exp])%list)
        as (d1 & rems1 & Hrun & Hk & Hr & Hg).
      { intros k Hk. rewrite Hk1. apply Hkeys. now right. }
      { intros k Hk. rewrite Hk1. apply Hnames. now right. }
      exists d1, rems1. split; [exact Hrun|]. split; [congruence|]. split.
      * intros k. rewrite Hr, in_app_iff, Hrems'. simpl.
        split; intros H; intuition (subst; auto; try congruence).
      * intros k. rewrite Hg. destruct (last_writer w k todo); [reflexivity|].
        destruct (String.eqb_spec (expense_name_input w exp) k) as [<- | Hne].
        -- apply dict_get_set_same.
        -- apply dict_get_set_other. congruence.
Qed.

(** It is abandoned as soon as a name widget holds a name that is not a key. *)
Lemma edit_expenses_aborts w (todo : list string) d (rems : list string) :
  (forall k, In k todo -> In k (keys d)) ->
  (exists k, In k todo /\ ~ In (expense_name_input w k) (keys d)) ->
  exists exp d1 rems1,
    In exp todo /\ ~ In (expense_name_input w exp) (keys d) /\
    edit_expenses w todo d rems = Aborted (d1, rems1) RuntimeError /\
    keys d1 = (keys d ++ [expense_name_input w exp])%list /\
    dict_get (expense_name_input w exp) d1 = Ok (expense_amount_input w exp).
Proof.
  revert d rems; induction todo as [|exp todo IH]; intros d rems Hkeys (k0 & Hk0 & Hfresh).
  - contradiction.
  - simpl.
    set (rems' := if remove_expense_pressed w exp then (rems ++ [exp])%list else rems).
    destruct (String.eqb_spec (expense_name_input w exp) exp) as [Hsame | Hdiff].
    + assert (Hk1 : keys (dict_set exp (expense_amount_input w exp) d) = keys d)
        by (apply dict_set_keys_present, Hkeys; now left).
      destruct (IH (dict_set exp (expense_amount_input w exp) d) rems')
        as (e & d1 & rems1 & He & Hf & Hrun & Hk & Hg).
      { intros k Hk. rewrite Hk1. apply Hkeys. now right. }
      { destruct Hk0 as [<- | Hk0].
        - exfalso. apply Hfresh. rewrite Hsame. apply Hkeys. now left.
        - exists k0. rewrite Hk1. auto. }
      exists e, d1, rems1. rewrite Hk1 in Hf, Hk. repeat split; auto; now right.
    + destruct (dict_mem (expense_name_input w exp) d) eqn:Hm.
      * apply dict_mem_In in Hm as Hin.
        assert (Hk1 : keys (dict_set (expense_name_input w exp)
                                     (expense_amount_input w exp) d) = keys d)
          by (now apply dict_set_keys_present).
        destruct (IH (dict_set (expense_name_input w exp) (expense_amount_input w exp) d)
                     (rems' ++ [exp])%list)
          as (e & d1 & rems1 & He & Hf & Hrun & Hk & Hg).
        { intros k Hk. rewrite Hk1. apply Hkeys. now right. }
        { destruct Hk0 as [<- | Hk0]; [contradiction|].
          exists k0. rewrite Hk1. auto. }
        exists e, d1, rems1. rewrite Hk1 in Hf, Hk. repeat split; auto; now right.
      * assert (Hnot : ~ In (expense_name_input w exp) (keys d)).
        { intros Hin. apply dict_mem_In in Hin. congruence. }
        exists exp, (dict_set (expense_name_input w exp) (expense_amount_input w exp) d),
               (rems' ++ [exp])%list.
        split; [now left|]. split; [exact Hnot|]. split; [reflexivity|]. split.
        -- rewrite dict_set_keys. fold (dict_mem (expense_name_input w exp) d).
           now rewrite Hm.
        -- apply dict_get_set_same.
Qed.

End ExpenseManagement.

Section ExpenseTheorems.

Context {V : Type}.

Implicit Types (w : expense_widgets V) (d : dict V) (k : string).

Lemma last_writer_exists w k (ks : list string) (j : string) :
  In j ks -> expense_name_input w j = k -> exists j', last_writer w k ks = Some j'.
Proof.
  induction ks as [|j0 ks IH]; simpl; [contradiction|].
  intros [-> | Hin] Hk.
  - destruct (last_writer w k ks); [eauto|].
    rewrite Hk, String.eqb_refl. eauto.
  - destruct (IH Hin Hk) as (j' & ->). eauto.
Qed.

(** X14. Renaming an expense to a name that is not yet a key never works:
    whatever else is typed or pressed, the run is abandoned with
    [RuntimeError] at the first such row, and the session is left with every
    old key, none removed, and the new name added after them. *)
Theorem renaming_to_a_new_name_raises (zero : V) w (add_pressed : bool) d :
  (exists k, In k (keys d) /\ ~ In (expense_name_input w k) (keys d)) ->
  exists exp d1,
    In exp (keys d) /\
    ~ In (expense_name_input w exp) (keys d) /\
    manage_expenses zero w add_pressed d = Aborted d1 RuntimeError /\
    keys d1 = (keys d ++ [expense_name_input w exp])%list /\
    dict_get (expense_name_input w exp) d1 = Ok (expense_amount_input w exp).
Proof.
  intros Hfresh.
  destruct (edit_expenses_aborts w (keys d) d [] (fun k H => H) Hfresh)
    as (exp & d1 & rems1 & He & Hf & Hrun & Hk & Hg).
  exists exp, d1. unfold manage_expenses. rewrite Hrun. auto.
Qed.

(** X15. When every name widget holds a key of the dictionary, the run goes
    through: the keys left are those that were neither renamed nor removed,
    in their order and still pairwise distinct, and each holds the amount of
    the last row whose name widget holds it (its own row, unless a later row
    was renamed onto it). *)
Theorem expenses_updated_when_names_are_keys (zero : V) w d :
  NoDup (keys d) ->
  (forall k, In k (keys d) -> In (expense_name_input w k) (keys d)) ->
  exists d',
    manage_expenses zero w false d = Completed d' /\
    keys d' = filter (fun k => String.eqb (expense_name_input w k) k
                               && negb (remove_expense_pressed w k)) (keys d) /\
    NoDup (keys d') /\
    (forall k, In k (keys d') ->
               exists j, last_writer w k (keys d) = Some j /\
                         In j (keys d) /\
                         dict_get k d' = Ok (expense_amount_input w j)).
Proof.
  intros Hnd Hnames.
  destruct (edit_expenses_completes w (keys d) d [] (fun k H => H) Hnames)
    as (d1 & rems1 & Hrun & Hk1 & Hrems & Hget).
  destruct (remove_expenses_spec rems1 d1) as [Hk2 Hg2]; [now rewrite Hk1|].
  assert (Hkeys : keys (remove_expenses rems1 d1)
                  = filter (fun k => String.eqb (expense_name_input w k) k
                                     && negb (remove_expense_pressed w k)) (keys d)).
  { rewrite Hk2, Hk1. apply filter_ext_in. intros k Hin.
    destruct (existsb (String.eqb k) rems1) eqn:Hex.
    - apply existsb_exists in Hex as (k' & Hin' & Heq).
      apply String.eqb_eq in Heq. subst k'.
      apply Hrems in Hin' as [[] | [_ [Hr | Hr]]].
      + rewrite Hr. simpl. now rewrite andb_false_r.
      + apply String.eqb_neq in Hr. now rewrite Hr.
    - assert (Hnot : ~ In k rems1).
      { intros Hin'. apply Bool.not_true_iff_false in Hex. apply Hex.
        apply existsb_exists. exists k. split; [assumption | apply String.eqb_refl]. }
      destruct (String.eqb_spec (expense_name_input w k) k) as [Hs | Hs];
        destruct (remove_expense_pressed w k) eqn:Hr; try reflexivity;
        exfalso; apply Hnot, Hrems; right; auto. }
  exists (remove_expenses rems1 d1). unfold manage_expenses. rewrite Hrun.
  split; [reflexivity|]. split; [exact Hkeys|]. split.
  - rewrite Hkeys. now apply NoDup_filter.
  - intros k Hin. rewrite Hkeys in Hin. apply filter_In in Hin as [Hin Hf].
    apply andb_prop in Hf as [Hs Hr]. apply String.eqb_eq in Hs.
    destruct (last_writer_exists w k (keys d) k Hin Hs) as (j & Hj).
    exists j. split; [exact Hj|].
    assert (Hjin : In j (keys d)).
    { clear - Hj. induction (keys d) as [|j0 ks IH]; simpl in Hj; [discriminate|].
      destruct (last_writer w k ks) as [j'|].
      - injection Hj as <-. right. now apply IH.
      - destruct (String.eqb (expense_name_input w j0) k); [|discriminate].
        injection Hj as <-. now left. }
    split; [exact Hjin|].
    rewrite Hg2.
    + rewrite Hget, Hj. reflexivity.
    + intros Hin'. apply Hrems in Hin' as [[] | [_ [Hr' | Hs']]].
      * rewrite Hr' in Hr. discriminate.
      * contradiction.
Qed.

(** Add New Expense writes [0.0] under [Expense{len+1}]: a new last entry
    when that name is free, but when an expense already has that name no
    entry is added and its amount is reset. *)
Lemma add_expense_appends_or_resets (zero : V) d :
  let k := String.append "Expense" (decimal (List.length d + 1)) in
  dict_get k (add_expense zero d) = Ok zero /\
  (forall k', k' <> k -> dict_get k' (add_expense zero d) = dict_get k' d) /\
  (In k (keys d) -> keys (add_expense zero d) = keys d) /\
  (~ In k (keys d) -> add_expense zero d = (d ++ [(k, zero)])%list).
Proof.
  intros k. unfold add_expense. fold k. repeat split.
  - apply dict_get_set_same.
  - intros k' Hne. now apply dict_get_set_other.
  - apply dict_set_keys_present.
  - apply dict_set_fresh.
Qed.

End ExpenseTheorems.

(** ** The further properties at work on the examples *)

Section FurtherWitnesses.

Local Open Scope string_scope.

Lemma even_split_keys_witness :
  exists d,
    even_split_expenses (A:=B64Arith) (B64.of_Z 100) namesake_participants
                        [("Food", B64.of_Z 20)] = Ok d /\
    keys d = first_occurrences (map name namesake_participants) /\
    keys d = ["A"].
Proof.
  eexists. split; [vm_compute; reflexivity|]. split; [|reflexivity].
  apply (even_split_keys_are_first_occurrences B64Arith (B64.of_Z 100)
           namesake_participants [("Food", B64.of_Z 20)]).
  vm_compute. reflexivity.
Defined.

Lemma even_split_entry_witness :
  exists d,
    even_split_expenses (A:=B64Arith) (B64.of_Z 100) namesake_participants
                        [("Food", B64.of_Z 20)] = Ok d /\
    In (person "A" 1) namesake_participants /\
    exists q c extra r,
      last_named "A" namesake_participants = Some q /\
      cost_share (A:=B64Arith) (B64.of_Z 100) namesake_participants
                 (total_night_units namesake_participants) q = Ok c /\
      per_person_additional (A:=B64Arith)
        (total_shared_expenses (A:=B64Arith) [("Food", B64.of_Z 20)])
        namesake_participants = Ok extra /\
      B64.quantize (Nat.iter (occurrences "A" namesake_participants)
                             (fun x => SFadd B64.prec B64.emax x extra) c) = Ok r /\
      dict_get "A" d = Ok r.
Proof.
  eexists. split; [vm_compute; reflexivity|].
  assert (Hin : In (person "A" 1) namesake_participants) by (now left).
  split; [exact Hin|].
  apply (even_split_entry_of_a_name B64Arith (B64.of_Z 100) namesake_participants
           [("Food", B64.of_Z 20)] _ (person "A" 1)); [|exact Hin].
  vm_compute. reflexivity.
Defined.

Lemma zero_nights_additional_witness :
  total_night_units mixed_participants <> 0 /\
  exists rows,
    breakdown_rows (A:=QArith) 100%Q mixed_participants [("Food", 20%Q)] = Ok rows /\
    Forall2 (fun p r => nights_stayed p = 0 ->
                        (Accommodation_Share (N:=Q) r == 0)%Q /\
                        quantize_Q (Additional_Share r) = Ok (Total_Owed r))
            mixed_participants rows.
Proof.
  assert (Hu : total_night_units mixed_participants <> 0) by discriminate.
  split; [exact Hu|].
  eexists. split; [vm_compute; reflexivity|].
  apply (zero_nights_owe_only_the_additional 100%Q mixed_participants
           [("Food", 20%Q)] _ Hu).
  vm_compute. reflexivity.
Defined.

Lemma more_nights_witness :
  (Accommodation_Share (rowQ "Person1" 1 (300 # 4) (0 # 2) (7500 # 100))
   <= Accommodation_Share (rowQ "Person2" 3 (900 # 4) (0 # 2) (22500 # 100)))%Q /\
  Additional_Share (rowQ "Person1" 1 (300 # 4) (0 # 2) (7500 # 100))
  = Additional_Share (rowQ "Person2" 3 (900 # 4) (0 # 2) (22500 # 100)) /\
  (Total_Owed (rowQ "Person1" 1 (300 # 4) (0 # 2) (7500 # 100))
   <= Total_Owed (rowQ "Person2" 3 (900 # 4) (0 # 2) (22500 # 100)))%Q.
Proof.
  apply (more_nights_never_owe_less 300%Q uneven_participants []
           [rowQ "Person1" 1 (300 # 4) (0 # 2) (7500 # 100);
            rowQ "Person2" 3 (900 # 4) (0 # 2) (22500 # 100)]
           (person "Person1" 1) (person "Person2" 3)).
  - vm_compute. discriminate.
  - vm_compute. reflexivity.
  - now left.
  - right. now left.
  - simpl. lia.
Defined.

Lemma reordering_witness :
  exists rows (row_for : participant -> row spec_float),
    breakdown_rows (A:=B64Arith) (B64.of_Z 300) uneven_participants default_expenses
      = Ok rows /\
    rows = map row_for uneven_participants /\
    breakdown_rows (A:=B64Arith) (B64.of_Z 300)
                   [person "Person2" 3; person "Person1" 1] default_expenses
      = Ok [row_for (person "Person2" 3); row_for (person "Person1" 1)].
Proof.
  assert (Hrows : exists rows,
             breakdown_rows (A:=B64Arith) (B64.of_Z 300) uneven_participants
                            default_expenses = Ok rows)
    by (eexists; vm_compute; reflexivity).
  destruct Hrows as (rows & Hrows).
  destruct (reordering_participants_reorders_rows (A:=B64Arith) (B64.of_Z 300)
              uneven_participants default_expenses rows Hrows)
    as (row_for & Hmap & Hperm).
  exists rows, row_for. split; [exact Hrows|]. split; [exact Hmap|].
  exact (proj1 (Hperm [person "Person2" 3; person "Person1" 1]
                  (perm_swap _ _ _))).
Defined.

Lemma nobody_negative_witness :
  exists rows,
    breakdown_rows (A:=QArith) 300%Q uneven_participants [("Groceries", 100%Q)]
      = Ok rows /\
    Forall (fun r => (0 <= Accommodation_Share (N:=Q) r <= 300)%Q /\
                     (0 <= Additional_Share r)%Q /\
                     (0 <= Total_Owed r)%Q) rows.
Proof.
  eexists. split; [vm_compute; reflexivity|].
  apply (nobody_owes_a_negative_amount 300%Q uneven_participants
           [("Groceries", 100%Q)]).
  - vm_compute. discriminate.
  - repeat constructor; simpl; lia.
  - vm_compute. discriminate.
  - vm_compute. reflexivity.
Defined.

Lemma compute_splits_witness :
  NoDup (map name default_participants) /\
  exists rows,
    breakdown_rows (A:=B64Arith) (B64.of_Z 300) default_participants default_expenses
      = Ok rows /\
    compute_splits (A:=B64Arith) (B64.of_Z 300) default_participants default_expenses
      = Ok (map owed_entry rows, rows).
Proof.
  assert (Hnd : NoDup (map name default_participants)).
  { repeat constructor; simpl; intuition discriminate. }
  split; [exact Hnd|].
  eexists. split; [vm_compute; reflexivity|].
  apply (compute_splits_with_distinct_names (A:=B64Arith) (B64.of_Z 300)
           default_participants default_expenses _ _ Hnd).
  split; [vm_compute; reflexivity | reflexivity].
Defined.

Lemma managed_nights_witness :
  (forall i, 0 <= nights_input (untouched default_participants) i <= 365) /\
  exists l',
    manage_participants (untouched default_participants) true default_participants
      = Completed l' /\
    Forall (fun p => 0 <= nights_stayed p <= 365) l'.
Proof.
  assert (Hw : forall i, 0 <= nights_input (untouched default_participants) i <= 365).
  { intros [|[|[|i]]]; simpl; lia. }
  split; [exact Hw|].
  exact (managed_nights_stay_in_range (untouched default_participants) true
           default_participants Hw).
Defined.

Lemma default_names_witness :
  map name default_participants = map person_name (seq 1 2) /\
  manage_participants (untouched default_participants) true default_participants
  = Completed [person "Person1" 2; person "Person2" 2; person "Person3" 1].
Proof.
  assert (Hn : map name default_participants = map person_name (seq 1 2))
    by reflexivity.
  split; [exact Hn|].
  exact (proj1 (adding_keeps_default_names_distinct default_participants 2 Hn)).
Defined.

Lemma repeated_name_witness :
  map name default_participants = map person_name (seq 1 2) /\
  exists l',
    manage_participants (first_removed default_participants) true default_participants
      = Completed l' /\
    map name l' = ["Person2"; "Person2"]%list /\
    ~ NoDup (map name l').
Proof.
  assert (Hn : map name default_participants = map person_name (seq 1 2))
    by reflexivity.
  split; [exact Hn|].
  exact (remove_then_add_repeats_a_name default_participants 0 Hn).
Defined.

Lemma renaming_witness :
  (exists k, In k (keys default_expenses) /\
             ~ In (expense_name_input (renamed_to_food default_expenses) k)
                  (keys default_expenses)) /\
  exists d1,
    manage_expenses (B64.of_Z 0) (renamed_to_food default_expenses) false
                    default_expenses = Aborted d1 RuntimeError /\
    keys d1 = ["Groceries"; "Food"]%list.
Proof.
  assert (Hf : exists k, In k (keys default_expenses) /\
                         ~ In (expense_name_input (renamed_to_food default_expenses) k)
                              (keys default_expenses)).
  { exists "Groceries". split; [now left|]. simpl. intuition discriminate. }
  split; [exact Hf|].
  destruct (renaming_to_a_new_name_raises (B64.of_Z 0)
              (renamed_to_food default_expenses) false default_expenses Hf)
    as (exp & d1 & _ & _ & Hrun & Hk & _).
  exists d1. split; [exact Hrun|]. exact Hk.
Defined.

Lemma expenses_updated_witness :
  NoDup (keys default_expenses) /\
  exists d',
    manage_expenses (B64.of_Z 0) (untouched_expenses default_expenses) false
                    default_expenses = Completed d' /\
    keys d' = ["Groceries"]%list.
Proof.
  assert (Hnd : NoDup (keys default_expenses)).
  { repeat constructor; simpl; intuition. }
  split; [exact Hnd|].
  destruct (expenses_updated_when_names_are_keys (B64.of_Z 0)
              (untouched_expenses default_expenses) default_expenses Hnd)
    as (d' & Hrun & Hk & _); [intros k Hk; exact Hk|].
  exists d'. split; [exact Hrun|]. exact Hk.
Defined.

End FurtherWitnesses.
